(** * utils3d: wavefront reader and depth-warping rasterization pipeline

    A shallow embedding of [wavefront_obj.py] (the [read_obj] line parser) and
    of [utils3d/torch_/rasterization.py] ([RastContext],
    [rasterize_vertex_attr], [warp_image_by_depth]), with the properties the
    specification states about them.

    - Python exceptions are values of [PyErr] carried by the [result] monad.
    - Text is a [string] whose characters are code points below 256.
    - Tensors are rectangular nested lists; float values are exact
      rationals, so rounding, infinities and NaN are left out.
    - What the pipeline calls outside its module (nvdiffrast, [utils],
      [transforms], [mesh], torch's matrix products) is a parameter, and
      the calls are logged in the order they are made. *)

From Stdlib Require Import String Ascii List ZArith NArith QArith Bool Lia.
Import ListNotations.

Local Close Scope Q_scope.
Local Open Scope string_scope.
Local Open Scope list_scope.

(** ** Exceptions and the error monad *)

Inductive PyErr : Type :=
| IndexError
| AssertionError (msg : string)
| ValueError (msg : string)
| ZeroDivisionError
| RuntimeError (msg : string)
| PyException (msg : string).

Inductive result (A : Type) : Type :=
| Ok (a : A)
| Err (e : PyErr).

Arguments Ok {A} a.
Arguments Err {A} e.

Definition rbind {A B : Type} (m : result A) (k : A -> result B) : result B :=
  match m with
  | Ok a => k a
  | Err e => Err e
  end.

Definition py_assert (b : bool) (msg : string) : result unit :=
  if b then Ok tt else Err (AssertionError msg).

(** [[g(x) for x in xs]] where [g] may raise: the first failure wins. *)
Fixpoint mapM {A B : Type} (g : A -> result B) (xs : list A) : result (list B) :=
  match xs with
  | [] => Ok []
  | x :: xs' =>
      match g x with
      | Ok y => match mapM g xs' with
                | Ok ys => Ok (y :: ys)
                | Err e => Err e
                end
      | Err e => Err e
      end
  end.

(** A [for] loop threading an accumulator, stopped by the first exception. *)
Fixpoint foldM {A S : Type} (step : S -> A -> result S) (st : S) (xs : list A)
  : result S :=
  match xs with
  | [] => Ok st
  | x :: xs' =>
      match step st x with
      | Ok st' => foldM step st' xs'
      | Err e => Err e
      end
  end.

Definition is_ok {A : Type} (r : result A) : bool :=
  match r with Ok _ => true | Err _ => false end.

(** ** Python string primitives used by [read_obj] *)

Module PyStr.

(** [str.isspace] on code points below 256: TAB..CR, FS..US, space, NEL, NBSP. *)
Definition isspace (c : ascii) : bool :=
  let n := N_of_ascii c in
  (((9 <=? n) && (n <=? 13)) || ((28 <=? n) && (n <=? 32))
   || (n =? 133) || (n =? 160))%N.

Fixpoint lstrip (s : string) : string :=
  match s with
  | EmptyString => EmptyString
  | String c s' => if isspace c then lstrip s' else s
  end.

Fixpoint rstrip (s : string) : string :=
  match s with
  | EmptyString => EmptyString
  | String c s' =>
      match rstrip s' with
      | EmptyString => if isspace c then EmptyString else String c EmptyString
      | r => String c r
      end
  end.

(** [s.strip()] *)
Definition strip (s : string) : string := lstrip (rstrip s).

(** [s.split()]: split on runs of whitespace, no empty token. *)
Fixpoint split (s : string) : list string :=
  match s with
  | EmptyString => []
  | String c s' =>
      if isspace c then split s'
      else match s' with
           | EmptyString => [String c EmptyString]
           | String c' _ =>
               if isspace c' then String c EmptyString :: split s'
               else match split s' with
                    | t :: ts => String c t :: ts
                    | [] => [String c EmptyString]
                    end
           end
  end.

(** [s.split(sep)] for a one-character separator: empty fields are kept. *)
Fixpoint split_on (sep : ascii) (s : string) : list string :=
  match s with
  | EmptyString => [EmptyString]
  | String c s' =>
      if Ascii.eqb c sep then EmptyString :: split_on sep s'
      else match split_on sep s' with
           | t :: ts => String c t :: ts
           | [] => [String c EmptyString]
           end
  end.

Definition digit_of (c : ascii) : option Z :=
  let n := N_of_ascii c in
  if ((48 <=? n) && (n <=? 57))%N then Some (Z.of_N n - 48)%Z else None.

(** Decimal digits with single underscores allowed between digits. *)
Fixpoint int_digits (acc : Z) (prev_digit : bool) (s : string) : option Z :=
  match s with
  | EmptyString => if prev_digit then Some acc else None
  | String c s' =>
      match digit_of c with
      | Some d => int_digits (10 * acc + d)%Z true s'
      | None =>
          if Ascii.eqb c "_" && prev_digit then int_digits acc false s'
          else None
      end
  end.

(** [int(s)] in base 10: surrounding whitespace, an optional sign, digits. *)
Definition int (s : string) : result Z :=
  let body :=
    match strip s with
    | String "-" t => option_map Z.opp (int_digits 0 false t)
    | String "+" t => int_digits 0 false t
    | t => int_digits 0 false t
    end in
  match body with
  | Some z => Ok z
  | None => Err (ValueError ("invalid literal for int() with base 10: " ++ s))
  end.

(** Every character of the string is whitespace. *)
Fixpoint all_space (s : string) : bool :=
  match s with
  | EmptyString => true
  | String c s' => isspace c && all_space s'
  end.

(** The string holds no occurrence of [sep]. *)
Fixpoint free_of (sep : ascii) (s : string) : bool :=
  match s with
  | EmptyString => true
  | String c s' => negb (Ascii.eqb c sep) && free_of sep s'
  end.

(** Number of occurrences of [sep]. *)
Fixpoint count_of (sep : ascii) (s : string) : nat :=
  match s with
  | EmptyString => 0
  | String c s' => (if Ascii.eqb c sep then 1 else 0) + count_of sep s'
  end.

End PyStr.

(** ** [read_obj] (wavefront_obj.py) *)

Module Obj.

(** [{'name': sq[1], 'f': len(f)}] *)
Record group : Type := { name : string; f_count : nat }.

Section ReadObj.

(** Python's [float] type and its constructor from text are taken as given. *)
Variable F : Type.
Variable float : string -> result F.

(** The returned dictionary, one field per key. *)
Record obj : Type := {
  obj_mtllib : list string;
  obj_v : list (list F);
  obj_vt : list (list F);
  obj_vn : list (list F);
  obj_vp : list (list F);
  obj_f : list (list (list Z));
  obj_o : list group;
  obj_s : list group;
  obj_usemtl : list group
}.

Definition empty_obj : obj :=
  {| obj_mtllib := []; obj_v := []; obj_vt := []; obj_vn := []; obj_vp := [];
     obj_f := []; obj_o := []; obj_s := []; obj_usemtl := [] |}.

(** [pad0 = lambda l: l + [0] * (3 - len(l))]; a repeat count below 1 gives
    the empty list. *)
Definition pad0 (l : list Z) : list Z := l ++ repeat 0%Z (3 - length l).

(** [int(i) if i else 0] *)
Definition index_of (i : string) : result Z :=
  match i with
  | EmptyString => Ok 0%Z
  | _ => PyStr.int i
  end.

(** [pad0([int(i) if i else 0 for i in e.split('/')])] *)
Definition corner (e : string) : result (list Z) :=
  match mapM index_of (PyStr.split_on "/" e) with
  | Ok l => Ok (pad0 l)
  | Err e => Err e
  end.

(** [sq = line.strip().split()] *)
Definition tokens (line : string) : list string :=
  PyStr.split (PyStr.strip line).

Definition len_between (lo hi : nat) (sq : list string) : bool :=
  (lo <=? length sq)%nat && (length sq <=? hi)%nat.

(** [sq[1]] *)
Definition second (sq : list string) : result string :=
  match sq with
  | _ :: x :: _ => Ok x
  | _ => Err IndexError
  end.

(** The directives handled by a branch of their own. *)
Definition keywords : list string :=
  ["v"; "vt"; "vn"; "vp"; "f"; "usemtl"; "o"; "s"; "mtllib"].

(** One iteration of the loop body on the accumulators. *)
Definition step (ignore_unknown : bool) (st : obj) (line : string)
  : result obj :=
  let sq := tokens line in
  match sq with
  | [] => Err IndexError
  | kw :: args =>
      if kw =? "v" then
        match py_assert (len_between 4 5 sq) "" with
        | Err e => Err e
        | Ok _ =>
            match mapM float args with
            | Err e => Err e
            | Ok xs =>
                Ok {| obj_mtllib := obj_mtllib st; obj_v := obj_v st ++ [xs];
                      obj_vt := obj_vt st; obj_vn := obj_vn st;
                      obj_vp := obj_vp st; obj_f := obj_f st;
                      obj_o := obj_o st; obj_s := obj_s st;
                      obj_usemtl := obj_usemtl st |}
            end
        end
      else if kw =? "vt" then
        match py_assert (len_between 2 4 sq) "" with
        | Err e => Err e
        | Ok _ =>
            match mapM float args with
            | Err e => Err e
            | Ok xs =>
                Ok {| obj_mtllib := obj_mtllib st; obj_v := obj_v st;
                      obj_vt := obj_vt st ++ [xs]; obj_vn := obj_vn st;
                      obj_vp := obj_vp st; obj_f := obj_f st;
                      obj_o := obj_o st; obj_s := obj_s st;
                      obj_usemtl := obj_usemtl st |}
            end
        end
      else if kw =? "vn" then
        match py_assert (length sq =? 4)%nat "" with
        | Err e => Err e
        | Ok _ =>
            match mapM float args with
            | Err e => Err e
            | Ok xs =>
                Ok {| obj_mtllib := obj_mtllib st; obj_v := obj_v st;
                      obj_vt := obj_vt st; obj_vn := obj_vn st ++ [xs];
                      obj_vp := obj_vp st; obj_f := obj_f st;
                      obj_o := obj_o st; obj_s := obj_s st;
                      obj_usemtl := obj_usemtl st |}
            end
        end
      else if kw =? "vp" then
        match py_assert (len_between 2 4 sq) "" with
        | Err e => Err e
        | Ok _ =>
            match mapM float args with
            | Err e => Err e
            | Ok xs =>
                Ok {| obj_mtllib := obj_mtllib st; obj_v := obj_v st;
                      obj_vt := obj_vt st; obj_vn := obj_vn st;
                      obj_vp := obj_vp st ++ [xs]; obj_f := obj_f st;
                      obj_o := obj_o st; obj_s := obj_s st;
                      obj_usemtl := obj_usemtl st |}
            end
        end
      else if kw =? "f" then
        match mapM corner args with
        | Err e => Err e
        | Ok face =>
            Ok {| obj_mtllib := obj_mtllib st; obj_v := obj_v st;
                  obj_vt := obj_vt st; obj_vn := obj_vn st;
                  obj_vp := obj_vp st; obj_f := obj_f st ++ [face];
                  obj_o := obj_o st; obj_s := obj_s st;
                  obj_usemtl := obj_usemtl st |}
        end
      else if kw =? "usemtl" then
        match py_assert (length sq =? 2)%nat "" with
        | Err e => Err e
        | Ok _ =>
            match second sq with
            | Err e => Err e
            | Ok n =>
                Ok {| obj_mtllib := obj_mtllib st; obj_v := obj_v st;
                      obj_vt := obj_vt st; obj_vn := obj_vn st;
                      obj_vp := obj_vp st; obj_f := obj_f st;
                      obj_o := obj_o st; obj_s := obj_s st;
                      obj_usemtl := obj_usemtl st
                        ++ [{| name := n; f_count := length (obj_f st) |}] |}
            end
        end
      else if kw =? "o" then
        match py_assert (length sq =? 2)%nat "" with
        | Err e => Err e
        | Ok _ =>
            match second sq with
            | Err e => Err e
            | Ok n =>
                Ok {| obj_mtllib := obj_mtllib st; obj_v := obj_v st;
                      obj_vt := obj_vt st; obj_vn := obj_vn st;
                      obj_vp := obj_vp st; obj_f := obj_f st;
                      obj_o := obj_o st
                        ++ [{| name := n; f_count := length (obj_f st) |}];
                      obj_s := obj_s st; obj_usemtl := obj_usemtl st |}
            end
        end
      else if kw =? "s" then
        match second sq with
        | Err e => Err e
        | Ok n =>
            Ok {| obj_mtllib := obj_mtllib st; obj_v := obj_v st;
                  obj_vt := obj_vt st; obj_vn := obj_vn st;
                  obj_vp := obj_vp st; obj_f := obj_f st;
                  obj_o := obj_o st;
                  obj_s := obj_s st
                    ++ [{| name := n; f_count := length (obj_f st) |}];
                  obj_usemtl := obj_usemtl st |}
        end
      else if kw =? "mtllib" then
        match py_assert (length sq =? 2)%nat "" with
        | Err e => Err e
        | Ok _ =>
            match second sq with
            | Err e => Err e
            | Ok n =>
                Ok {| obj_mtllib := obj_mtllib st ++ [n]; obj_v := obj_v st;
                      obj_vt := obj_vt st; obj_vn := obj_vn st;
                      obj_vp := obj_vp st; obj_f := obj_f st;
                      obj_o := obj_o st; obj_s := obj_s st;
                      obj_usemtl := obj_usemtl st |}
            end
        end
      else
        match kw with
        | EmptyString => Err IndexError
        | String c _ =>
            if Ascii.eqb c "#" then Ok st
            else if ignore_unknown then Ok st
            else Err (PyException ("Unknown keyword " ++ kw))
        end
  end.

(** [read_obj] on the list [lines] that [readlines()] returned. *)
Definition read_obj (ignore_unknown : bool) (lines : list string)
  : result obj :=
  foldM (step ignore_unknown) empty_obj lines.

(** The first token is a directive or opens a comment. *)
Definition known (kw : string) : bool :=
  existsb (String.eqb kw) keywords
  || match kw with String c _ => Ascii.eqb c "#" | EmptyString => false end.

(** The line's first token is the directive [k]. *)
Definition is_kw (k : string) (line : string) : bool :=
  match tokens line with
  | kw :: _ => kw =? k
  | [] => false
  end.

(** [sq[1:]] *)
Definition line_args (line : string) : list string := tl (tokens line).

(** The face a line [f ...] denotes: one index list per corner. *)
Definition face_of_line (line : string) : result (list (list Z)) :=
  mapM corner (line_args line).

(** The coordinate row a line [v ...] denotes. *)
Definition row_of_line (line : string) : result (list F) :=
  mapM float (line_args line).

End ReadObj.

Arguments obj_mtllib {F} _.
Arguments obj_v {F} _.
Arguments obj_vt {F} _.
Arguments obj_vn {F} _.
Arguments obj_vp {F} _.
Arguments obj_f {F} _.
Arguments obj_o {F} _.
Arguments obj_s {F} _.
Arguments obj_usemtl {F} _.

End Obj.


(** ** Tensors

    A tensor is a rectangular nested list, one list level per axis, of
    rationals (exact arithmetic stands for the float dtype) or booleans.
    A size along an axis is read on the first element of the enclosing axes
    and element-wise operations ask for equal shapes. *)

Module Tensor.

Definition T1 : Type := list Q.
Definition T2 : Type := list T1.
Definition T3 : Type := list T2.
Definition T4 : Type := list T3.
Definition B3 : Type := list (list (list bool)).

Definition dim1 {A : Type} (t : list (list A)) : nat :=
  match t with r :: _ => length r | [] => 0 end.
Definition dim2 {A : Type} (t : list (list (list A))) : nat :=
  match t with r :: _ => dim1 r | [] => 0 end.
Definition dim3 {A : Type} (t : list (list (list (list A)))) : nat :=
  match t with r :: _ => dim2 r | [] => 0 end.

Definition map2 {A B : Type} (g : A -> B) : list (list A) -> list (list B) :=
  map (map g).
Definition map3 {A B : Type} (g : A -> B)
  : list (list (list A)) -> list (list (list B)) := map (map2 g).

(** Pairing two axes of equal length; a length mismatch raises. *)
Fixpoint zipM {A B C : Type} (g : A -> B -> result C)
  (xs : list A) (ys : list B) : result (list C) :=
  match xs, ys with
  | [], [] => Ok []
  | x :: xs', y :: ys' =>
      match g x y with
      | Ok z => match zipM g xs' ys' with
                | Ok zs => Ok (z :: zs)
                | Err e => Err e
                end
      | Err e => Err e
      end
  | _, _ => Err (RuntimeError "The size of tensor a must match the size of tensor b")
  end.

Definition zip1 {A B C : Type} (g : A -> B -> C) :=
  zipM (fun x y => Ok (g x y)).
Definition zip2 {A B C : Type} (g : A -> B -> C) := zipM (zip1 g).
Definition zip3 {A B C : Type} (g : A -> B -> C) := zipM (zip2 g).

(** [Tensor.float()] of a boolean. *)
Definition of_bool (b : bool) : Q := if b then 1%Q else 0%Q.

(** [x < y] and [x == y] on scalars. *)
Definition ltb (x y : Q) : bool := negb (Qle_bool y x).
Definition eqb (x y : Q) : bool := Qeq_bool x y.

(** [t.flip(1)] on a tensor whose axis 0 is the batch. *)
Definition flip1 {A : Type} (t : list (list A)) : list (list A) :=
  map (@rev A) t.

(** One sample [(H, W, C)] as [(C, H, W)]; [C] read on the first pixel. *)
Definition channels_first (hwc : T3) : T3 :=
  map (fun c => map2 (fun px => nth c px 0%Q) hwc) (seq 0 (dim2 hwc)).

(** One sample [(C, H, W)] as [(H * W, C)], row-major. *)
Definition pixels_of (h w : nat) (chw : T3) : T2 :=
  flat_map (fun i =>
    map (fun j => map (fun ch => nth j (nth i ch []) 0%Q) chw) (seq 0 w))
    (seq 0 h).

(** [k] consecutive rows of [n] elements. *)
Fixpoint chunks {A : Type} (n k : nat) (l : list A) : list (list A) :=
  match k with
  | O => []
  | S k' => firstn n l :: chunks n k' (skipn n l)
  end.

(** [t.reshape(rows, cols, ...)] of a list of items; a size of -1 is
    inferred from the other one. *)
Definition reshape_grid {A : Type} (rows cols : Z) (l : list A)
  : result (list (list A)) :=
  let n := Z.of_nat (length l) in
  let bad := Err (RuntimeError "shape is invalid for input size") in
  if (rows =? -1)%Z then
    if ((1 <=? cols) && (n mod cols =? 0))%Z
    then Ok (chunks (Z.to_nat cols) (Z.to_nat (n / cols)) l)
    else bad
  else if (cols =? -1)%Z then
    if ((1 <=? rows) && (n mod rows =? 0))%Z
    then Ok (chunks (Z.to_nat (n / rows)) (Z.to_nat rows) l)
    else bad
  else if ((0 <=? rows) && (0 <=? cols) && (n =? rows * cols))%Z
  then Ok (chunks (Z.to_nat cols) (Z.to_nat rows) l)
  else bad.

(** [t.reshape(-1, height, width)] of a three-axis tensor. *)
Definition reshape3 {A : Type} (height width : Z) (t : list (list (list A)))
  : result (list (list (list A))) :=
  let flat := concat (concat t) in
  if ((1 <=? height) && (1 <=? width)
      && (Z.of_nat (length flat) mod (height * width) =? 0))%Z
  then
    let rows := chunks (Z.to_nat width)
                  (length flat / Z.to_nat width) flat in
    Ok (chunks (Z.to_nat height) (length rows / Z.to_nat height) rows)
  else Err (RuntimeError "shape is invalid for input size").

(** Edge replication by one element at both ends of an axis. *)
Definition pad_replicate1 {A : Type} (row : list A) : result (list A) :=
  match row with
  | [] => Err (RuntimeError "Expected non-zero size for input")
  | x :: _ => Ok (x :: row ++ [last row x])
  end.

(** [F.pad(t, [1, 1, 1, 1], mode='replicate')] on the last two axes. *)
Definition pad_replicate2 {A : Type} (t : list (list A))
  : result (list (list A)) :=
  match mapM pad_replicate1 t with
  | Ok rows => pad_replicate1 rows
  | Err e => Err e
  end.

(** [t[..., :-1, :, :]] and [t[..., -1, :, :]] on one sample. *)
Definition split_last {A : Type} (chans : list A) : result (list A * A) :=
  match chans with
  | [] => Err IndexError
  | c :: _ => Ok (removelast chans, last chans c)
  end.

(** [t[..., :-2, :, :]] on one sample. *)
Definition drop_last2 {A : Type} (chans : list A) : list A :=
  firstn (length chans - 2) chans.

(** Apply [g] to the first, then to the last element of an axis. *)
Definition on_first {A : Type} (g : A -> A) (l : list A) : list A :=
  match l with
  | [] => []
  | x :: l' => g x :: l'
  end.
Definition on_last {A : Type} (g : A -> A) (l : list A) : list A :=
  rev (on_first g (rev l)).

(** Element [(i, j)] of a two-axis tensor. *)
Definition at2 {A : Type} (t : list (list A)) (i j : nat) : option A :=
  match nth_error t i with
  | Some r => nth_error r j
  | None => None
  end.

(** Every sample of the tensor has [h] rows of [w] elements. *)
Definition has_shape {A : Type} (h w : nat) (t : list (list (list A)))
  : Prop :=
  Forall (fun s => length s = h /\ Forall (fun r => length r = w) s) t.

(** [t[..., -1, :, :]]: the last channel of every sample. *)
Definition last_channel {A : Type} (t : list (list (list (list A))))
  : list (list (list A)) :=
  map (fun chans => last chans []) t.

(** Element [(b, i, j)] of a three-axis tensor. *)
Definition at3 {A : Type} (t : list (list (list A))) (b i j : nat) : option A :=
  match nth_error t b with
  | Some s => match nth_error s i with
              | Some r => nth_error r j
              | None => None
              end
  | None => None
  end.

(** Element [(b, c, i, j)] of a four-axis tensor. *)
Definition at4 {A : Type} (t : list (list (list (list A)))) (b c i j : nat)
  : option A :=
  match nth_error t b with
  | Some s => at3 s c i j
  | None => None
  end.

End Tensor.

(** ** rasterization.py *)

Module Rast.
Import Tensor.

(** One pixel of nvdiffrast's raster [(u, v, z/w, triangle_id)]. *)
Record RastPixel : Type := { px_u : Q; px_v : Q; px_zw : Q; px_tri : Q }.

Definition Raster : Type := list (list (list RastPixel)).
Definition Faces : Type := list (list Z).
Definition UV : Type := list (Q * Q).

(** [(depth * 0.5 + 0.5) * (depth > 0).float() + (depth == 0).float()] *)
Definition depth_remap (depth : Q) : Q :=
  ((depth * (1 # 2) + (1 # 2)) * of_bool (ltb 0 depth)
   + of_bool (eqb depth 0))%Q.

(** Lines 96-97 of [rasterize_vertex_attr]: the depth raster of a raster. *)
Definition raster_depth (rast_out : Raster) : T3 :=
  map3 depth_remap (flip1 (map3 px_zw rast_out)).

(** [(x - a) * b] on both coordinates of every lattice point. *)
Definition uv_affine (a b : Q) (uv : UV) : UV :=
  map (fun p => ((fst p - a) * b, (snd p - a) * b)%Q) uv.

Definition shift_u (d : Q) (p : Q * Q) : Q * Q := (fst p + d, snd p)%Q.
Definition shift_v (d : Q) (p : Q * Q) : Q * Q := (fst p, snd p + d)%Q.

(** [x / y] on Python integers. *)
Definition int_div (x y : Z) : result Q :=
  if (y =? 0)%Z then Err ZeroDivisionError
  else Ok (inject_Z x / inject_Z y)%Q.

(** [uv.expand(batch_size, -1, -1)] as an attribute tensor. *)
Definition expand_uv (batch_size : nat) (uv : UV) : T3 :=
  repeat (map (fun p => [fst p; snd p]) uv) batch_size.

(** [torch.cat([a, b], dim=-1)] on [(B, N, _)] tensors. *)
Definition cat_last (a b : T3) : result T3 := zip2 (@app Q) a b.

(** [mask.float().flatten(1, 2).unsqueeze(-1)] *)
Definition mask_attr (mask : B3) : T3 :=
  map (fun s => map (fun m => [of_bool m]) (concat s)) mask.

(** [torch.where(mask, depth, far)] *)
Definition where_far (mask : B3) (depth : T3) (far : Q) : result T3 :=
  zip3 (fun (m : bool) d => if m then d else far) mask depth.

(** [vertices] in homogeneous coordinates, by the size of the last axis. *)
Definition homogeneous (vertices : T3) : result T3 :=
  match dim2 vertices with
  | 2 => Ok (map2 (fun p => p ++ [0; 1]%Q) vertices)
  | 3 => Ok (map2 (fun p => p ++ [1%Q]) vertices)
  | 4 => Ok vertices
  | _ => Err (ValueError "Wrong shape of vertices")
  end.

(** The target width and height of a warp. *)
Definition target_width (depth : T3) (width : option Z) : Z :=
  match width with Some w => w | None => Z.of_nat (dim2 depth) end.
Definition target_height (depth : T3) (height : option Z) : Z :=
  match height with Some h => h | None => Z.of_nat (dim1 depth) end.

Definition given {A : Type} (x : option A) : bool :=
  match x with Some _ => true | None => false end.

(** The image after the helper channels are cut off: the mask channel when
    a mask was given, then the two uv channels when derivatives of an image
    were asked for. *)
Definition color_channels (mask_given image_given return_dr : bool)
  (rimg : T4) : T4 :=
  let im := if mask_given then map (@removelast _) rimg else rimg in
  if return_dr && image_given then map drop_last2 im else im.

(** How many trailing channels of the raster are helpers. *)
Definition helper_channels (mask_given image_given return_dr : bool) : nat :=
  (if mask_given then 1 else 0) + (if return_dr && image_given then 2 else 0).

(** The validity of a pixel from its screen depth and mask channel. *)
Definition valid_pixel (mask_given : bool) (d : Q) (x : Q) : bool :=
  if mask_given then ltb d 1 && ltb (9999 # 10000) x else ltb d 1.

Section Pipeline.

(** Camera matrices, torch's products on them, the contexts of nvdiffrast
    and its three operations are taken as given. *)
Variable Mat : Type.
Variable eye4 : Mat.
Variable matmul : Mat -> Mat -> result Mat.
Variable transform : T3 -> Mat -> result T3.

Variable NvdCtx : Type.
Variable Device : Type.
Variable RasterizeGLContext : option Device -> result NvdCtx.
Variable RasterizeCudaContext : option Device -> result NvdCtx.

Variable RastDb : Type.
Variable dr_rasterize :
  NvdCtx -> T3 -> Faces -> Z * Z -> result (Raster * RastDb).
Variable dr_interpolate :
  T3 -> Raster -> Faces -> RastDb -> option (list Z) -> result (T4 * T4).
Variable dr_antialias : T4 -> Raster -> T3 -> Faces -> result T4.

(** The functions of [utils], [transforms] and [mesh] the pipeline calls. *)
Variable extrinsics_to_view : Mat -> result Mat.
Variable intrinsics_to_perspective : Mat -> Q -> Q -> result Mat.
Variable image_mesh : Z -> Z -> result (UV * Faces).
Variable unproject_cv : UV -> T2 -> Mat -> Mat -> result T3.
Variable triangulate : Faces -> option T2 -> option bool -> result Faces.
Variable linearize_depth : T3 -> Q -> Q -> result T3.

Record RastContext : Type := { nvd_ctx : NvdCtx }.

(** [RastContext.__init__] *)
Definition RastContext_init (nvd : option NvdCtx) (backend : string)
  (device : option Device) : result RastContext :=
  match nvd with
  | Some c => Ok {| nvd_ctx := c |}
  | None =>
      if backend =? "gl" then
        match RasterizeGLContext device with
        | Ok c => Ok {| nvd_ctx := c |}
        | Err e => Err e
        end
      else if backend =? "cuda" then
        match RasterizeCudaContext device with
        | Ok c => Ok {| nvd_ctx := c |}
        | Err e => Err e
        end
      else Err (ValueError ("Unknown backend: " ++ backend))
  end.

(** Calls out of this module, in the order they are made. *)
Inductive Call : Type :=
| call_extrinsics_to_view (extrinsics : Mat)
| call_intrinsics_to_perspective (intrinsics : Mat) (near far : Q)
| call_image_mesh (width height : Z)
| call_unproject_cv (uv : UV) (depth : T2) (extrinsics intrinsics : Mat)
| call_triangulate (faces : Faces) (vertices : option T2)
    (backslash : option bool)
| call_rasterize (pos_clip : T3) (faces : Faces) (resolution : Z * Z)
| call_interpolate (attr : T3) (diff_attrs : option (list Z))
| call_antialias (image : T4)
| call_linearize_depth (depth : T3) (near far : Q).

(** The depth arguments of the calls to [unproject_cv] in a log. *)
Fixpoint unprojected_depths (tr : list Call) : list T2 :=
  match tr with
  | [] => []
  | call_unproject_cv _ depth _ _ :: tr' => depth :: unprojected_depths tr'
  | _ :: tr' => unprojected_depths tr'
  end.

(** Computations that raise and that log their calls. *)
Definition M (A : Type) : Type := list Call -> result A * list Call.

Definition ret {A : Type} (a : A) : M A := fun tr => (Ok a, tr).
Definition lift {A : Type} (r : result A) : M A := fun tr => (r, tr).
Definition call {A : Type} (ev : Call) (r : result A) : M A :=
  fun tr => (r, tr ++ [ev]).
Definition bind {A B : Type} (m : M A) (k : A -> M B) : M B :=
  fun tr =>
    match m tr with
    | (Ok a, tr') => k a tr'
    | (Err e, tr') => (Err e, tr')
    end.

(** Every run of [m] appends to the log, and only calls satisfying [P]. *)
Definition emits {A : Type} (P : Call -> Prop) (m : M A) : Prop :=
  forall tr r tr', m tr = (r, tr') ->
    exists new, tr' = tr ++ new /\ Forall P new.

(** From a log satisfying [Pre], [m] ends in a result and a log satisfying
    [Post]. *)
Definition hoare {A : Type} (Pre : list Call -> Prop) (m : M A)
  (Post : result A -> list Call -> Prop) : Prop :=
  forall tr r tr', Pre tr -> m tr = (r, tr') -> Post r tr'.

(** The call is not one to [triangulate]. *)
Definition not_triangulate (ev : Call) : Prop :=
  match ev with
  | call_triangulate _ _ _ => False
  | _ => True
  end.

(** The arguments a call to [triangulate] may have after the log [tr], for
    a batch size and a backslash flag. *)
Definition chosen (batch_size : nat) (backslash : bool) (tr : list Call)
  (v : option T2) (b : option bool) : Prop :=
  if (batch_size =? 1)%nat
  then b = None
       /\ exists uv d e k pts0 rest,
            In (call_unproject_cv uv d e k) tr
            /\ unproject_cv uv d e k = Ok (pts0 :: rest)
            /\ v = Some pts0
  else v = None /\ b = Some backslash.

Definition triangulation_policy (batch_size : nat) (backslash : bool)
  (tr : list Call) : Prop :=
  forall faces v b,
    In (call_triangulate faces v b) tr -> chosen batch_size backslash tr v b.

Declare Scope call_scope.
Delimit Scope call_scope with call.
Notation "x <- m ;; k" := (bind m (fun x => k))
  (at level 61, m at next level, right associativity) : call_scope.
Local Open Scope call_scope.

(** [rasterize_vertex_attr]; the third component is [image_dr], returned
    when [diff_attrs] is given. *)
Definition rasterize_vertex_attr (ctx : RastContext) (vertices : T3)
  (faces : Faces) (attr : T3) (width height : Z)
  (model view perspective : option Mat) (antialiasing : bool)
  (diff_attrs : option (list Z)) : M (T4 * T3 * option T4) :=
  vertices <- lift (homogeneous vertices) ;;
  let mvp := match perspective with Some p => p | None => eye4 end in
  mvp <- lift (match view with Some v => matmul mvp v | None => Ok mvp end) ;;
  mvp <- lift (match model with Some m => matmul mvp m | None => Ok mvp end) ;;
  pos_clip <- lift (transform vertices mvp) ;;
  rast <- call (call_rasterize pos_clip faces (height, width))
            (dr_rasterize (nvd_ctx ctx) pos_clip faces (height, width)) ;;
  let rast_out := fst rast in
  let rast_db := snd rast in
  interp <- call (call_interpolate attr diff_attrs)
              (dr_interpolate attr rast_out faces rast_db diff_attrs) ;;
  let image_dr := snd interp in
  image <- (if antialiasing
            then call (call_antialias (fst interp))
                   (dr_antialias (fst interp) rast_out pos_clip faces)
            else ret (fst interp)) ;;
  let image := map channels_first (flip1 image) in
  let depth := raster_depth rast_out in
  match diff_attrs with
  | Some _ => ret (image, depth, Some (map channels_first (flip1 image_dr)))
  | None => ret (image, depth, None)
  end.

(** Lines 170-179 of [warp_image_by_depth]: defaults of the cameras. *)
Definition resolve_cameras
  (extrinsics_src extrinsics_tgt intrinsics_src intrinsics_tgt : option Mat)
  : result (Mat * Mat * Mat * Mat) :=
  let extrinsics_src :=
    match extrinsics_src with Some e => e | None => eye4 end in
  let extrinsics_tgt :=
    match extrinsics_tgt with Some e => e | None => eye4 end in
  let intrinsics_src :=
    match intrinsics_src with Some k => Some k | None => intrinsics_tgt end in
  let intrinsics_tgt :=
    match intrinsics_tgt with Some k => Some k | None => intrinsics_src end in
  match intrinsics_src, intrinsics_tgt with
  | Some ks, Some kt => Ok (extrinsics_src, extrinsics_tgt, ks, kt)
  | _, _ =>
      Err (AssertionError
             "Make sure you have provided all the necessary camera parameters.")
  end.

(** The lattice a warp unprojects: [uv], [faces], the depth and the image
    as they go on, and the unprojected points. *)
Record Lattice : Type := {
  lat_uv : UV;
  lat_faces : Faces;
  lat_depth : T3;
  lat_image : option T4;
  lat_pts : T3
}.

(** Lines 184-213: the [padding > 0] branch. *)
Definition padded_lattice (depth : T3) (image : option T4)
  (width height : Z) (extrinsics_src intrinsics_src : Mat) (padding : Z)
  : M Lattice :=
  mesh <- call (call_image_mesh (width + 2) (height + 2))
            (image_mesh (width + 2) (height + 2)) ;;
  let faces := snd mesh in
  a <- lift (int_div 1 (width + 2)) ;;
  b <- lift (int_div (width + 2) width) ;;
  let uv := uv_affine a b (fst mesh) in
  uv_ <- lift (reshape_grid (height + 2) (width + 2) uv) ;;
  dv <- lift (match uv_ with
              | [] => Err IndexError
              | _ :: _ => int_div padding height
              end) ;;
  let uv_ := on_first (map (shift_v (- dv))) uv_ in
  let uv_ := on_last (map (shift_v dv)) uv_ in
  du <- lift (match dim1 uv_ with
              | O => Err IndexError
              | S _ => int_div padding width
              end) ;;
  let uv_ := map (on_first (shift_u (- du))) uv_ in
  let uv_ := map (on_last (shift_u du)) uv_ in
  let uv_ := concat uv_ in
  depth <- lift (mapM pad_replicate2 depth) ;;
  image <- lift (match image with
                 | Some img =>
                     match mapM (mapM pad_replicate2) img with
                     | Ok img' => Ok (Some img')
                     | Err e => Err e
                     end
                 | None => Ok None
                 end) ;;
  pts <- call (call_unproject_cv uv_ (map (@concat Q) depth)
                 extrinsics_src intrinsics_src)
           (unproject_cv uv_ (map (@concat Q) depth)
              extrinsics_src intrinsics_src) ;;
  ret {| lat_uv := uv; lat_faces := faces; lat_depth := depth;
         lat_image := image; lat_pts := pts |}.

(** Lines 184-213: the other branch. *)
Definition plain_lattice (depth : T3) (image : option T4) (mask : option B3)
  (extrinsics_src intrinsics_src : Mat) (far : Q) : M Lattice :=
  mesh <- call (call_image_mesh (Z.of_nat (dim2 depth)) (Z.of_nat (dim1 depth)))
            (image_mesh (Z.of_nat (dim2 depth)) (Z.of_nat (dim1 depth))) ;;
  depth <- lift (match mask with
                 | Some m => where_far m depth far
                 | None => Ok depth
                 end) ;;
  pts <- call (call_unproject_cv (fst mesh) (map (@concat Q) depth)
                 extrinsics_src intrinsics_src)
           (unproject_cv (fst mesh) (map (@concat Q) depth)
              extrinsics_src intrinsics_src) ;;
  ret {| lat_uv := fst mesh; lat_faces := snd mesh; lat_depth := depth;
         lat_image := image; lat_pts := pts |}.

Definition build_lattice (depth : T3) (image : option T4) (mask : option B3)
  (width height : Z) (extrinsics_src intrinsics_src : Mat) (far : Q)
  (padding : Z) : M Lattice :=
  if (0 <? padding)%Z
  then padded_lattice depth image width height extrinsics_src intrinsics_src
         padding
  else plain_lattice depth image mask extrinsics_src intrinsics_src far.

(** Lines 215-219: the choice of the triangulation. *)
Definition triangulate_lattice (batch_size : nat) (faces : Faces) (pts : T3)
  (backslash : bool) : M Faces :=
  if (batch_size =? 1)%nat then
    match pts with
    | [] => lift (Err IndexError)
    | pts0 :: _ =>
        call (call_triangulate faces (Some pts0) None)
          (triangulate faces (Some pts0) None)
    end
  else
    call (call_triangulate faces None (Some backslash))
      (triangulate faces None (Some backslash)).

(** Lines 221-234: the attributes carried through the rasterizer. *)
Definition build_attrs (batch_size : nat) (lat : Lattice) (mask : option B3)
  (return_dr : bool) : result (T3 * option (list Z)) :=
  let uv := expand_uv batch_size (lat_uv lat) in
  match
    match lat_image lat with
    | Some image =>
        let attr :=
          map (pixels_of (dim1 (lat_depth lat)) (dim2 (lat_depth lat))) image in
        if return_dr then
          match cat_last attr uv with
          | Ok attr' =>
              Ok (attr', Some [Z.of_nat (dim1 image);
                               (Z.of_nat (dim1 image) + 1)%Z])
          | Err e => Err e
          end
        else Ok (attr, None)
    | None => Ok (uv, if return_dr then Some [0%Z; 1%Z] else None)
    end
  with
  | Ok (attr, diff_attrs) =>
      match mask with
      | Some m =>
          match cat_last attr (mask_attr m) with
          | Ok attr' => Ok (attr', diff_attrs)
          | Err e => Err e
          end
      | None => Ok (attr, diff_attrs)
      end
  | Err e => Err e
  end.

(** What [warp_image_by_depth] returns: image, linear depth, mask and, when
    asked for, the derivatives. *)
Record Warped : Type := {
  output_image : T4;
  output_depth : T3;
  output_mask : B3;
  output_dr : option T4
}.

(** Lines 248-266: from the rasters to the outputs. *)
Definition composite (mask_given image_given return_dr : bool)
  (width height : Z) (near far : Q) (rast : T4 * T3 * option T4) : M Warped :=
  let screen_depth := snd (fst rast) in
  dr <- lift (match return_dr, snd rast with
              | true, Some d => Ok (Some d)
              | false, None => Ok None
              | true, None => Err (ValueError "not enough values to unpack")
              | false, Some _ => Err (ValueError "too many values to unpack")
              end) ;;
  let mask0 := map3 (fun d => ltb d 1) screen_depth in
  im <- lift (if mask_given then
                match mapM split_last (fst (fst rast)) with
                | Ok parts =>
                    match reshape3 height width
                            (map3 (fun x => ltb (9999 # 10000) x)
                               (map snd parts)) with
                    | Ok m =>
                        match zip3 andb mask0 m with
                        | Ok mask1 => Ok (map fst parts, mask1)
                        | Err e => Err e
                        end
                    | Err e => Err e
                    end
                | Err e => Err e
                end
              else Ok (fst (fst rast), mask0)) ;;
  let mask1 := snd im in
  let image :=
    if return_dr && image_given then map drop_last2 (fst im) else fst im in
  linear <- call (call_linearize_depth screen_depth near far)
              (linearize_depth screen_depth near far) ;;
  depth <- lift (zip3 (fun x (m : bool) => (x * of_bool m)%Q) linear mask1) ;;
  image <- lift (zipM (fun chans m =>
                   mapM (fun ch =>
                     zip2 (fun x (b : bool) => (x * of_bool b)%Q) ch m) chans)
                   image mask1) ;;
  ret {| output_image := image; output_depth := depth; output_mask := mask1;
         output_dr := dr |}.

(** Lines 160-247 of [warp_image_by_depth]: everything up to the rasters
    [rasterize_vertex_attr] returns. *)
Definition warp_rasters (ctx : RastContext) (depth : T3)
  (image : option T4) (mask : option B3) (width height : option Z)
  (extrinsics_src extrinsics_tgt intrinsics_src intrinsics_tgt : option Mat)
  (near far : Q) (antialiasing backslash : bool) (padding : Z)
  (return_dr : bool) : M (T4 * T3 * option T4) :=
  let batch_size := length depth in
  let width :=
    match width with Some w => w | None => Z.of_nat (dim2 depth) end in
  let height :=
    match height with Some h => h | None => Z.of_nat (dim1 depth) end in
  _ <- lift (match image with
             | Some img =>
                 py_assert ((dim2 img =? dim1 depth)%nat
                            && (dim3 img =? dim2 depth)%nat)
                   "Shape of image does not match shape of depth"
             | None => Ok tt
             end) ;;
  cams <- lift (resolve_cameras extrinsics_src extrinsics_tgt
                  intrinsics_src intrinsics_tgt) ;;
  let extrinsics_src := fst (fst (fst cams)) in
  let extrinsics_tgt := snd (fst (fst cams)) in
  let intrinsics_src := snd (fst cams) in
  let intrinsics_tgt := snd cams in
  view_tgt <- call (call_extrinsics_to_view extrinsics_tgt)
                (extrinsics_to_view extrinsics_tgt) ;;
  perspective_tgt <-
    call (call_intrinsics_to_perspective intrinsics_tgt near far)
      (intrinsics_to_perspective intrinsics_tgt near far) ;;
  lat <- build_lattice depth image mask width height extrinsics_src
           intrinsics_src far padding ;;
  faces <- triangulate_lattice batch_size (lat_faces lat) (lat_pts lat)
             backslash ;;
  attrs <- lift (build_attrs batch_size lat mask return_dr) ;;
  rasterize_vertex_attr ctx (lat_pts lat) faces (fst attrs)
    width height None (Some view_tgt) (Some perspective_tgt)
    antialiasing (snd attrs).

(** [warp_image_by_depth] *)
Definition warp_image_by_depth (ctx : RastContext) (depth : T3)
  (image : option T4) (mask : option B3) (width height : option Z)
  (extrinsics_src extrinsics_tgt intrinsics_src intrinsics_tgt : option Mat)
  (near far : Q) (antialiasing backslash : bool) (padding : Z)
  (return_dr : bool) : M Warped :=
  rast <- warp_rasters ctx depth image mask width height extrinsics_src
            extrinsics_tgt intrinsics_src intrinsics_tgt near far
            antialiasing backslash padding return_dr ;;
  composite (match mask with Some _ => true | None => false end)
    (match image with Some _ => true | None => false end)
    return_dr
    (match width with Some w => w | None => Z.of_nat (dim2 depth) end)
    (match height with Some h => h | None => Z.of_nat (dim1 depth) end)
    near far rast.

End Pipeline.

Arguments emits {Mat A} P m.
Arguments hoare {Mat A} Pre m Post.

End Rast.

(** ** A grid rasterizer to run the pipeline on examples

    Every pixel [(i, j)] of the target shows vertex [i * width + j] of the
    mesh: its third coordinate, divided by 8, as raw depth and its
    attributes as they are. *)

Module Demo.
Import Tensor Rast.

Definition image_mesh (width height : Z) : result (UV * Faces) :=
  let w := Z.to_nat width in
  let h := Z.to_nat height in
  Ok (flat_map (fun i =>
        map (fun j =>
          (((inject_Z (Z.of_nat j) + (1 # 2)) / inject_Z width)%Q,
           ((inject_Z (Z.of_nat i) + (1 # 2)) / inject_Z height)%Q))
          (seq 0 w)) (seq 0 h),
      []).

Definition unproject_cv (uv : UV) (depth : T2) (e k : unit) : result T3 :=
  zipM (fun (_ : unit) row =>
          zip1 (fun (p : Q * Q) d => [fst p * d; snd p * d; d]%Q) uv row)
    (repeat tt (length depth)) depth.

Definition triangulate (faces : Faces) (vertices : option T2)
  (backslash : option bool) : result Faces := Ok faces.

Definition vertex_z (sample : T2) (n : nat) : Q :=
  (nth 2 (nth n sample []) 0 / 8)%Q.

Definition dr_rasterize (ctx : unit) (pos_clip : T3) (faces : Faces)
  (resolution : Z * Z) : result (Raster * unit) :=
  let h := Z.to_nat (fst resolution) in
  let w := Z.to_nat (snd resolution) in
  Ok (map (fun sample =>
        map (fun i =>
          map (fun j =>
            {| px_u := 0; px_v := 0;
               px_zw := vertex_z sample (i * w + j); px_tri := 1 |})
            (seq 0 w)) (rev (seq 0 h))) pos_clip,
      tt).

Definition dr_interpolate (attr : T3) (rast_out : Raster) (faces : Faces)
  (db : unit) (diff_attrs : option (list Z)) : result (T4 * T4) :=
  let h := dim1 rast_out in
  let w := dim2 rast_out in
  let image :=
    map (fun sample =>
      map (fun i => map (fun j => nth (i * w + j) sample []) (seq 0 w))
        (rev (seq 0 h))) attr in
  Ok (image, image).

Definition dr_antialias (image : T4) (rast_out : Raster) (pos_clip : T3)
  (faces : Faces) : result T4 := Ok image.

Definition linearize_depth (depth : T3) (near far : Q) : result T3 :=
  Ok (map3 (fun d => (near * far / (far - (far - near) * d))%Q) depth).

Definition ctx : RastContext unit := {| nvd_ctx := tt |}.

(** The pipeline on this rasterizer, cameras being of no effect. *)
Definition warp (depth : T3) (image : option T4) (mask : option B3)
  (intrinsics_src intrinsics_tgt : option unit) (near far : Q)
  (backslash : bool) (padding : Z) (return_dr : bool)
  : result (Warped) * list (Call unit) :=
  warp_image_by_depth unit tt (fun _ _ => Ok tt) (fun v _ => Ok v)
    unit unit dr_rasterize dr_interpolate dr_antialias
    (fun e => Ok e) (fun k _ _ => Ok k) image_mesh unproject_cv triangulate
    linearize_depth ctx depth image mask None None None None
    intrinsics_src intrinsics_tgt near far false backslash padding return_dr
    [].

(** The rasters of that run. *)
Definition rasters (depth : T3) (image : option T4) (mask : option B3)
  (intrinsics_src intrinsics_tgt : option unit) (near far : Q)
  (backslash : bool) (padding : Z) (return_dr : bool)
  : result (T4 * T3 * option T4) * list (Call unit) :=
  warp_rasters unit tt (fun _ _ => Ok tt) (fun v _ => Ok v)
    unit unit dr_rasterize dr_interpolate dr_antialias
    (fun e => Ok e) (fun k _ _ => Ok k) image_mesh unproject_cv triangulate
    ctx depth image mask None None None None
    intrinsics_src intrinsics_tgt near far false backslash padding return_dr
    [].

(** [rasterize_vertex_attr] alone on this rasterizer. *)
Definition rasterize (vertices : T3) (attr : T3) (width height : Z)
  : result (T4 * T3 * option T4) * list (Call unit) :=
  rasterize_vertex_attr unit tt (fun _ _ => Ok tt) (fun v _ => Ok v)
    unit unit dr_rasterize dr_interpolate dr_antialias ctx vertices []
    attr width height None None None false None [].

(** A pixel no triangle covers. *)
Definition miss : RastPixel :=
  {| px_u := 0; px_v := 0; px_zw := 0; px_tri := 0 |}.

(** A one-row depth map whose second pixel ends on the far plane of the
    raster, with the rasters and the outputs of its warp. *)
Definition sample_depth : T3 := [[[5; 0]]]%Q.
Definition sample_mask : B3 := [[[true; true]]].
Definition sample_rimg : T4 :=
  [[[[1 # 4; 3 # 4]]; [[1 # 2; 1 # 2]]; [[1; 1]]]]%Q.
Definition sample_sd : T3 := [[[26 # 32; 32 # 32]]]%Q.
Definition sample_out : Warped :=
  {| output_image := [[[[1 # 4; 0 # 4]]; [[1 # 2; 0 # 2]]]]%Q;
     output_depth := [[[32000 # 60260; 0 # 320]]]%Q;
     output_mask := [[[true; false]]];
     output_dr := None |}.

End Demo.

(** ** A file to run [read_obj] on *)

Module ObjDemo.
Import Obj.

(** A stand-in for [float]: decimal integers only. *)
Definition int_float (s : string) : result Z := PyStr.int s.

(** What [read_obj] returns on two vertices and two faces. *)
Definition sample_obj : obj Z :=
  {| obj_mtllib := []; obj_v := [[0; 0; 1]; [1; 0; 0]]%Z;
     obj_vt := []; obj_vn := []; obj_vp := [];
     obj_f := [[[1; 2; 3]; [2; 0; 1]; [1; 0; 0]]; [[2; 1; 0]]]%Z;
     obj_o := []; obj_s := []; obj_usemtl := [] |}.

End ObjDemo.

From Stdlib Require Import Lqa.

(** ** Joining the results of [read_obj] *)

Module ObjExt.
Import Obj.

(** A group entry whose face count is moved by [n] faces. *)
Definition shift (n : nat) (g : group) : group :=
  {| name := name g; f_count := n + f_count g |}.

(** [sq[1]] of a line, the name a group directive gives. *)
Definition group_name (line : string) : string := nth 1 (tokens line) "".

Section Merge.

Variable F : Type.

(** The dictionary of a file followed by the dictionary of another: the
    lists one after the other, the face counts of the second moved by the
    faces of the first. *)
Definition merge (a d : obj F) : obj F :=
  {| obj_mtllib := obj_mtllib a ++ obj_mtllib d;
     obj_v := obj_v a ++ obj_v d;
     obj_vt := obj_vt a ++ obj_vt d;
     obj_vn := obj_vn a ++ obj_vn d;
     obj_vp := obj_vp a ++ obj_vp d;
     obj_f := obj_f a ++ obj_f d;
     obj_o := obj_o a ++ map (shift (length (obj_f a))) (obj_o d);
     obj_s := obj_s a ++ map (shift (length (obj_f a))) (obj_s d);
     obj_usemtl :=
       obj_usemtl a ++ map (shift (length (obj_f a))) (obj_usemtl d) |}.

(** The lengths the assertions of [read_obj] allow for the rows. *)
Definition rows_well_sized (o : obj F) : Prop :=
  Forall (fun r => length r = 3 \/ length r = 4) (obj_v o)
  /\ Forall (fun r => 1 <= length r <= 3) (obj_vt o)
  /\ Forall (fun r => length r = 3) (obj_vn o)
  /\ Forall (fun r => 1 <= length r <= 3) (obj_vp o).

End Merge.

End ObjExt.

(** ** The other function of rasterization.py, and the kinds of calls *)

Module RastExt.
Import Tensor Rast.

Section Texture.

Variable NvdCtx : Type.
Variable Tex : Type.
Variable Sampled : Type.

(** [dr.texture], as it is called: the context first. *)
Variable dr_texture : NvdCtx -> T4 -> Tex -> result Sampled.

(** [texture]: the value of [dr.texture] is dropped, so that [None] is
    returned, and [uv_da] is not passed on. *)
Definition texture (ctx : RastContext NvdCtx) (uv uv_da : T4) (tex : Tex)
  : result unit :=
  match dr_texture (nvd_ctx NvdCtx ctx) uv tex with
  | Ok _ => Ok tt
  | Err e => Err e
  end.

End Texture.

Inductive CallKind : Type :=
| k_extrinsics_to_view
| k_intrinsics_to_perspective
| k_image_mesh
| k_unproject_cv
| k_triangulate
| k_rasterize
| k_interpolate
| k_antialias
| k_linearize_depth.

Definition kind_of {Mat : Type} (ev : Call Mat) : CallKind :=
  match ev with
  | call_extrinsics_to_view _ _ => k_extrinsics_to_view
  | call_intrinsics_to_perspective _ _ _ _ => k_intrinsics_to_perspective
  | call_image_mesh _ _ _ => k_image_mesh
  | call_unproject_cv _ _ _ _ _ => k_unproject_cv
  | call_triangulate _ _ _ _ => k_triangulate
  | call_rasterize _ _ _ _ => k_rasterize
  | call_interpolate _ _ _ => k_interpolate
  | call_antialias _ _ => k_antialias
  | call_linearize_depth _ _ _ _ => k_linearize_depth
  end.

(** The calls of a warp that returns, in order. *)
Definition warp_protocol (antialiasing : bool) : list CallKind :=
  [k_extrinsics_to_view; k_intrinsics_to_perspective; k_image_mesh;
   k_unproject_cv; k_triangulate; k_rasterize; k_interpolate]
  ++ (if antialiasing then [k_antialias] else [])
  ++ [k_linearize_depth].

(** Every channel of every sample has [h] rows of [w] values. *)
Definition channels_shaped (h w : nat) (img : T4) : Prop :=
  Forall (Forall (fun ch => length ch = h
                            /\ Forall (fun r => length r = w) ch)) img.

End RastExt.

(** ** A file with groups to run [read_obj] on *)

Module GroupDemo.
Import Obj.

Definition grouped_lines : list string :=
  ["f 1 2 3"; "usemtl a"; "o left"; "f 1 2 3"; "usemtl b"; "s 1";
   "f 3 2 1"].

(** What [read_obj] returns on it. *)
Definition grouped_obj : obj Z :=
  {| obj_mtllib := []; obj_v := []; obj_vt := []; obj_vn := [];
     obj_vp := [];
     obj_f := [[[1; 0; 0]; [2; 0; 0]; [3; 0; 0]];
               [[1; 0; 0]; [2; 0; 0]; [3; 0; 0]];
               [[3; 0; 0]; [2; 0; 0]; [1; 0; 0]]]%Z;
     obj_o := [{| name := "left"; f_count := 1 |}];
     obj_s := [{| name := "1"; f_count := 2 |}];
     obj_usemtl := [{| name := "a"; f_count := 1 |};
                    {| name := "b"; f_count := 2 |}] |}.

End GroupDemo.

(** ** Lines 248-266 on values that need not be finite

    A float tensor holds infinities and NaN besides finite values, and the
    outputs of a warp are products with the mask.  The pipeline above reads
    every float as a rational, that is as a finite value; here the last
    stage is read again on values that may be infinite or NaN.  The sign of
    a zero is left out: [-0.0 == 0.0] holds in Python. *)

Module Ieee.
Import Tensor Rast.

Inductive fl : Type :=
| fin (q : Q)
| inf (negative : bool)
| nan.

Definition X3 : Type := list (list (list fl)).
Definition X4 : Type := list X3.

(** [x < c] and [x > c] for a finite constant [c]: false on NaN. *)
Definition lt_const (x : fl) (c : Q) : bool :=
  match x with
  | fin q => ltb q c
  | inf negative => negative
  | nan => false
  end.
Definition gt_const (x : fl) (c : Q) : bool :=
  match x with
  | fin q => ltb c q
  | inf negative => negb negative
  | nan => false
  end.

(** [x * m] where [m] is the float of a boolean, 0.0 or 1.0.  Such a
    product does not round: by 1.0 it is [x]; by 0.0 it is a zero for a
    finite [x] and NaN for an infinity; NaN stays NaN. *)
Definition mul_mask (x : fl) (m : bool) : fl :=
  match x with
  | fin q => fin (q * of_bool m)
  | inf negative => if m then inf negative else nan
  | nan => nan
  end.



(** The image after the helper channels are cut off. *)
Definition color_channels (mask_given image_given return_dr : bool)
  (rimg : X4) : X4 :=
  let im := if mask_given then map (@removelast _) rimg else rimg in
  if return_dr && image_given then map drop_last2 im else im.

Record Outputs : Type := {
  out_image : X4;
  out_depth : X3;
  out_mask : B3;
  out_dr : option X4
}.

Definition rmap {A B : Type} (g : A -> B) (r : result A) : result B :=
  match r with
  | Ok a => Ok (g a)
  | Err e => Err e
  end.

Section Composite.

Variable linearize_depth : X3 -> Q -> Q -> result X3.

(** Lines 248-266: from the rasters to the outputs. *)
Definition composite (mask_given image_given return_dr : bool)
  (width height : Z) (near far : Q) (rast : X4 * X3 * option X4)
  : result Outputs :=
  let screen_depth := snd (fst rast) in
  rbind (match return_dr, snd rast with
         | true, Some d => Ok (Some d)
         | false, None => Ok None
         | true, None => Err (ValueError "not enough values to unpack")
         | false, Some _ => Err (ValueError "too many values to unpack")
         end) (fun dr =>
  let mask0 := map3 (fun d => lt_const d 1) screen_depth in
  rbind (if mask_given then
           match mapM split_last (fst (fst rast)) with
           | Ok parts =>
               match reshape3 height width
                       (map3 (fun x => gt_const x (9999 # 10000))
                          (map snd parts)) with
               | Ok m =>
                   match zip3 andb mask0 m with
                   | Ok mask1 => Ok (map fst parts, mask1)
                   | Err e => Err e
                   end
               | Err e => Err e
               end
           | Err e => Err e
           end
         else Ok (fst (fst rast), mask0)) (fun im =>
  let mask1 := snd im in
  let image :=
    if return_dr && image_given then map drop_last2 (fst im) else fst im in
  rbind (linearize_depth screen_depth near far) (fun linear =>
  rbind (zip3 mul_mask linear mask1) (fun depth =>
  rbind (zipM (fun chans m => mapM (fun ch => zip2 mul_mask ch m) chans)
           image mask1) (fun image =>
  Ok {| out_image := image; out_depth := depth; out_mask := mask1;
        out_dr := dr |}))))).

End Composite.

(** Tensors of rationals as tensors of finite floats. *)
Definition embed3 (t : T3) : X3 := map3 fin t.
Definition embed4 (t : T4) : X4 := map embed3 t.
Definition embed_out (w : Warped) : Outputs :=
  {| out_image := embed4 (output_image w);
     out_depth := embed3 (output_depth w);
     out_mask := output_mask w;
     out_dr := option_map embed4 (output_dr w) |}.

End Ieee.

(** ** Rasters with NaN to run the last stage on *)

Module IeeeDemo.
Import Tensor Rast Ieee.

(** [near * far / (far - (far - near) * d)] element by element, NaN where
    [d] is NaN. *)
Definition linearize_depth (depth : X3) (near far : Q) : result X3 :=
  Ok (map3 (fun d =>
        match d with
        | fin q =>
            let den := (far - (far - near) * q)%Q in
            if Qeq_bool den 0 then inf false
            else fin (near * far / den)%Q
        | inf negative => fin 0
        | nan => nan
        end) depth).



End IeeeDemo.

(** ** Cameras that tell their intrinsics apart

    Matrices are integers; the unprojection scales the lattice by the
    intrinsics it is given. *)

Module CamDemo.
Import Tensor Rast.

Definition unproject_cv (uv : UV) (depth : T2) (e k : Z) : result T3 :=
  zipM (fun (_ : unit) row =>
          zip1 (fun (p : Q * Q) d =>
                  [fst p * d * inject_Z k; snd p * d * inject_Z k; d]%Q)
            uv row)
    (repeat tt (length depth)) depth.

Definition warp (depth : T3) (intrinsics_src intrinsics_tgt : option Z)
  : result Warped * list (Call Z) :=
  warp_image_by_depth Z 1%Z (fun a b => Ok (a * b)%Z) (fun v _ => Ok v)
    unit unit Demo.dr_rasterize Demo.dr_interpolate Demo.dr_antialias
    (fun e => Ok e) (fun k _ _ => Ok k) Demo.image_mesh unproject_cv
    Demo.triangulate Demo.linearize_depth Demo.ctx depth None None None None
    None None intrinsics_src intrinsics_tgt (1 # 10) 100 false false 0 false
    [].

End CamDemo.

(** ** Examples *)

Example split_example :
  PyStr.split (PyStr.strip "  f 1/2/3   4//5 6
") = ["f"; "1/2/3"; "4//5"; "6"].
Proof. reflexivity. Qed.

Example split_on_example : PyStr.split_on "/" "4//5" = ["4"; ""; "5"].
Proof. reflexivity. Qed.

Example int_examples :
  PyStr.int "12" = Ok 12%Z /\ PyStr.int "-7" = Ok (-7)%Z
  /\ PyStr.int "1_000" = Ok 1000%Z /\ is_ok (PyStr.int "1__0") = false
  /\ is_ok (PyStr.int "") = false /\ is_ok (PyStr.int "1.5") = false.
Proof. repeat split; reflexivity. Qed.

Example read_obj_example :
  Obj.read_obj Z ObjDemo.int_float false
    ["# cube"; "v 0 0 1"; "v 1 0 0"; "usemtl m"; "f 1/2/3 2//1 1"]
  = Ok {| Obj.obj_mtllib := []; Obj.obj_v := [[0; 0; 1]; [1; 0; 0]]%Z;
          Obj.obj_vt := []; Obj.obj_vn := []; Obj.obj_vp := [];
          Obj.obj_f := [[[1; 2; 3]; [2; 0; 1]; [1; 0; 0]]]%Z;
          Obj.obj_o := []; Obj.obj_s := [];
          Obj.obj_usemtl := [{| Obj.name := "m"; Obj.f_count := 0 |}] |}.
Proof. reflexivity. Qed.

Example read_obj_blank_line :
  Obj.read_obj Z ObjDemo.int_float true ["v 0 0 1"; "   "; "v 1 0 0"]
  = Err IndexError.
Proof. reflexivity. Qed.


Example corner_examples :
  Obj.corner "7" = Ok [7; 0; 0]%Z /\ Obj.corner "7/8" = Ok [7; 8; 0]%Z
  /\ Obj.corner "7//9" = Ok [7; 0; 9]%Z
  /\ Obj.corner "-1/2/3" = Ok [-1; 2; 3]%Z
  /\ Obj.corner "1/2/3/4" = Ok [1; 2; 3; 4]%Z.
Proof. repeat split; reflexivity. Qed.

Example depth_remap_examples :
  (Rast.depth_remap 0 == 1)%Q /\ (Rast.depth_remap (-1) == 0)%Q
  /\ (Rast.depth_remap (1 # 2) == 3 # 4)%Q /\ (Rast.depth_remap 1 == 1)%Q.
Proof. repeat split; reflexivity. Qed.

Example pad_replicate2_example :
  Tensor.pad_replicate2 [[1; 2]; [3; 4]]%Z
  = Ok [[1; 1; 2; 2]; [1; 1; 2; 2]; [3; 3; 4; 4]; [3; 3; 4; 4]]%Z.
Proof. reflexivity. Qed.

Example reshape3_example :
  Tensor.reshape3 2 2 [[[1; 2; 3; 4]]; [[5; 6; 7; 8]]]%Z
  = Ok [[[1; 2]; [3; 4]]; [[5; 6]; [7; 8]]]%Z.
Proof. reflexivity. Qed.

Example channels_first_example :
  Tensor.channels_first [[[1; 10]; [2; 20]]; [[3; 30]; [4; 40]]]%Q
  = [[[1; 2]; [3; 4]]; [[10; 20]; [30; 40]]]%Q.
Proof. reflexivity. Qed.
(** ** Facts about the string primitives *)

Module PyStrFacts.
Import PyStr.

Lemma split_head_nonspace c s :
  isspace c = false -> split (String c s) <> [].
Proof.
  intros Hc. simpl. rewrite Hc.
  destruct s as [|c' s']; [discriminate|].
  destruct (isspace c'); [discriminate|].
  destruct (split (String c' s')); discriminate.
Qed.

Lemma split_all_space s : all_space s = true -> split s = [].
Proof.
  induction s as [|c s IH]; simpl; [reflexivity|].
  intros H. apply andb_prop in H as [Hc Hs]. rewrite Hc. auto.
Qed.

Lemma split_nil_all_space s : split s = [] -> all_space s = true.
Proof.
  induction s as [|c s IH]; [reflexivity|].
  intros H. destruct (isspace c) eqn:Hc.
  - simpl in H. rewrite Hc in H. simpl. rewrite Hc. simpl. auto.
  - exfalso. revert H. apply split_head_nonspace. assumption.
Qed.

Lemma split_tokens_nonempty s : Forall (fun t => t <> EmptyString) (split s).
Proof.
  induction s as [|c s IH]; simpl; [constructor|].
  destruct (isspace c); [assumption|].
  destruct s as [|c' s']; [constructor; [discriminate|constructor]|].
  destruct (isspace c').
  - constructor; [discriminate|assumption].
  - destruct (split (String c' s')) as [|t ts].
    + constructor; [discriminate|constructor].
    + inversion IH; subst. constructor; [discriminate|assumption].
Qed.

Lemma lstrip_all_space s : all_space s = true -> lstrip s = EmptyString.
Proof.
  induction s as [|c s IH]; simpl; [reflexivity|].
  intros H. apply andb_prop in H as [Hc Hs]. rewrite Hc. auto.
Qed.

Lemma lstrip_empty_all_space s : lstrip s = EmptyString -> all_space s = true.
Proof.
  induction s as [|c s IH]; simpl; [reflexivity|].
  destruct (isspace c); simpl; [assumption|discriminate].
Qed.

Lemma rstrip_all_space s : all_space s = true -> rstrip s = EmptyString.
Proof.
  induction s as [|c s IH]; simpl; [reflexivity|].
  intros H. apply andb_prop in H as [Hc Hs]. rewrite (IH Hs), Hc. reflexivity.
Qed.

Lemma all_space_rstrip s : all_space (rstrip s) = all_space s.
Proof.
  induction s as [|c s IH]; simpl; [reflexivity|].
  destruct (rstrip s) as [|c' r] eqn:Hr.
  - simpl in IH. rewrite <- IH.
    destruct (isspace c) eqn:Hc; simpl; rewrite ?Hc; reflexivity.
  - change (all_space (String c (String c' r)))
      with (isspace c && all_space (String c' r)).
    rewrite IH. reflexivity.
Qed.

(** A line strips to the empty string exactly when it is whitespace only. *)
Lemma strip_empty_iff s : strip s = EmptyString <-> all_space s = true.
Proof.
  unfold strip. split.
  - intros H. apply lstrip_empty_all_space in H.
    rewrite all_space_rstrip in H. assumption.
  - intros H. rewrite (rstrip_all_space s H). reflexivity.
Qed.

Lemma lstrip_head s :
  match lstrip s with
  | EmptyString => True
  | String c _ => isspace c = false
  end.
Proof.
  induction s as [|c s IH]; simpl; [exact I|].
  destruct (isspace c) eqn:Hc; [assumption|]. simpl. assumption.
Qed.

(** [line.strip().split()] is empty exactly when the line strips to nothing. *)
Lemma split_strip_nil_iff s :
  split (strip s) = [] <-> strip s = EmptyString.
Proof.
  split.
  - intros H. unfold strip in *.
    pose proof (lstrip_head (rstrip s)) as Hh.
    destruct (lstrip (rstrip s)) as [|c r]; [reflexivity|].
    exfalso. revert H. apply split_head_nonspace. assumption.
  - intros H. rewrite H. reflexivity.
Qed.

Lemma split_on_free sep s : free_of sep s = true -> split_on sep s = [s].
Proof.
  induction s as [|c s IH]; simpl; [reflexivity|].
  intros H. apply andb_prop in H as [Hc Hs].
  apply negb_true_iff in Hc. rewrite Hc, (IH Hs). reflexivity.
Qed.

Lemma split_on_app sep a r :
  free_of sep a = true ->
  split_on sep (a ++ String sep r) = a :: split_on sep r.
Proof.
  induction a as [|c a IH]; simpl.
  - intros _. rewrite Ascii.eqb_refl. reflexivity.
  - intros H. apply andb_prop in H as [Hc Ha].
    apply negb_true_iff in Hc. rewrite Hc, (IH Ha). reflexivity.
Qed.

Lemma split_on_length sep s :
  length (split_on sep s) = S (count_of sep s).
Proof.
  induction s as [|c s IH]; simpl; [reflexivity|].
  destruct (Ascii.eqb c sep); simpl.
  - rewrite IH. reflexivity.
  - destruct (split_on sep s); simpl in *; [discriminate|assumption].
Qed.

End PyStrFacts.

(** ** Properties of [read_obj] *)

Lemma foldM_app {A S : Type} (step : S -> A -> result S) st xs ys :
  foldM step st (xs ++ ys) =
  match foldM step st xs with
  | Ok st' => foldM step st' ys
  | Err e => Err e
  end.
Proof.
  revert st. induction xs as [|x xs IH]; intros st; simpl; [reflexivity|].
  destruct (step st x); [apply IH|reflexivity].
Qed.

Lemma foldM_fails_at {A S : Type} (step : S -> A -> result S) x xs :
  (forall st, is_ok (step st x) = false) -> In x xs ->
  forall st, is_ok (foldM step st xs) = false.
Proof.
  intros Hx. induction xs as [|y ys IH]; intros Hin st; [destruct Hin|].
  simpl. destruct Hin as [->|Hin].
  - specialize (Hx st). destruct (step st x); [discriminate|reflexivity].
  - destruct (step st y); [apply IH; assumption|reflexivity].
Qed.

Lemma foldM_ok_forall {A S : Type} (step : S -> A -> result S) (P : A -> Prop) :
  (forall st x st', step st x = Ok st' -> P x) ->
  forall xs st st', foldM step st xs = Ok st' -> Forall P xs.
Proof.
  intros HP. induction xs as [|x xs IH]; intros st st' H; [constructor|].
  simpl in H. destruct (step st x) as [st1|] eqn:Hs; [|discriminate].
  constructor; [eapply HP; eassumption|eapply IH; eassumption].
Qed.

Module ObjFacts.
Import PyStr PyStrFacts Obj.

Section ReadObjFacts.

Variable F : Type.
Variable float : string -> result F.

Local Notation "'step'" := (Obj.step F float).
Local Notation "'read_obj'" := (Obj.read_obj F float).

Lemma step_blank ign st line :
  tokens line = [] -> step ign st line = Err IndexError.
Proof. intros H. unfold Obj.step. rewrite H. reflexivity. Qed.

Lemma step_ok_tokens ign st line st' :
  step ign st line = Ok st' -> tokens line <> [].
Proof.
  intros H Ht. rewrite (step_blank ign st line Ht) in H. discriminate.
Qed.

Lemma tokens_head_nonempty line kw args :
  tokens line = kw :: args -> kw <> EmptyString.
Proof.
  intros H. pose proof (split_tokens_nonempty (strip line)) as Hall.
  unfold tokens in H. rewrite H in Hall. inversion Hall; assumption.
Qed.

Ltac step_branch H :=
  repeat match type of H with
  | match ?m with Ok _ => _ | Err _ => _ end = Ok _ =>
      let E := fresh "E" in destruct m eqn:E; [|discriminate H]
  end;
  try (injection H as <-).

(** What one iteration does to the face list. *)
Lemma step_faces ign st line st' :
  step ign st line = Ok st' ->
  if is_kw "f" line
  then exists face, face_of_line line = Ok face
                    /\ obj_f st' = obj_f st ++ [face]
  else obj_f st' = obj_f st.
Proof.
  intros H. unfold is_kw, face_of_line, line_args.
  destruct (tokens line) as [|kw args] eqn:Ht;
    [rewrite (step_blank ign st line Ht) in H; discriminate|].
  unfold Obj.step in H. rewrite Ht in H. simpl tl.
  repeat match type of H with
  | context [String.eqb kw ?k] =>
      destruct (String.eqb_spec kw k); [subst kw|]
  end; simpl String.eqb; step_branch H; simpl; try reflexivity.
  - eexists; split; [reflexivity|reflexivity].
  - destruct (String.eqb_spec kw "f"); [contradiction|].
    destruct kw as [|c k]; [discriminate|].
    destruct (Ascii.eqb c "#"); [injection H as <-; reflexivity|].
    destruct ign; [injection H as <-; reflexivity|discriminate].
Qed.

(** What one iteration does to the vertex list. *)
Lemma step_vertices ign st line st' :
  step ign st line = Ok st' ->
  if is_kw "v" line
  then exists row, row_of_line F float line = Ok row
                   /\ obj_v st' = obj_v st ++ [row]
  else obj_v st' = obj_v st.
Proof.
  intros H. unfold is_kw, row_of_line, line_args.
  destruct (tokens line) as [|kw args] eqn:Ht;
    [rewrite (step_blank ign st line Ht) in H; discriminate|].
  unfold Obj.step in H. rewrite Ht in H. simpl tl.
  repeat match type of H with
  | context [String.eqb kw ?k] =>
      destruct (String.eqb_spec kw k); [subst kw|]
  end; simpl String.eqb; step_branch H; simpl; try reflexivity.
  - eexists; split; [reflexivity|reflexivity].
  - destruct (String.eqb_spec kw "v"); [contradiction|].
    destruct kw as [|c k]; [discriminate|].
    destruct (Ascii.eqb c "#"); [injection H as <-; reflexivity|].
    destruct ign; [injection H as <-; reflexivity|discriminate].
Qed.


Lemma fold_faces ign lines : forall st st',
  foldM (step ign) st lines = Ok st' ->
  exists faces, mapM face_of_line (filter (is_kw "f") lines) = Ok faces
                /\ obj_f st' = obj_f st ++ faces.
Proof.
  induction lines as [|l ls IH]; intros st st' H; simpl in H.
  - injection H as <-. exists []. rewrite app_nil_r. split; reflexivity.
  - destruct (step ign st l) as [st1|] eqn:Hs; [|discriminate].
    apply step_faces in Hs. destruct (IH _ _ H) as (faces & Hm & Hf).
    simpl. destruct (is_kw "f" l).
    + destruct Hs as (face & Hface & Hst1). exists (face :: faces).
      simpl. rewrite Hface, Hm, Hf, Hst1, <- app_assoc. split; reflexivity.
    + exists faces. rewrite Hf, Hs. split; [assumption|reflexivity].
Qed.

Lemma fold_vertices ign lines : forall st st',
  foldM (step ign) st lines = Ok st' ->
  exists rows, mapM (row_of_line F float) (filter (is_kw "v") lines) = Ok rows
               /\ obj_v st' = obj_v st ++ rows.
Proof.
  induction lines as [|l ls IH]; intros st st' H; simpl in H.
  - injection H as <-. exists []. rewrite app_nil_r. split; reflexivity.
  - destruct (step ign st l) as [st1|] eqn:Hs; [|discriminate].
    apply step_vertices in Hs. destruct (IH _ _ H) as (rows & Hm & Hf).
    simpl. destruct (is_kw "v" l).
    + destruct Hs as (row & Hrow & Hst1). exists (row :: rows).
      simpl. rewrite Hrow, Hm, Hf, Hst1, <- app_assoc. split; reflexivity.
    + exists rows. rewrite Hf, Hs. split; [assumption|reflexivity].
Qed.

(** The three ways a corner is written, [a], [a/b] and [a/b/c]. *)
Lemma corner_one a :
  free_of "/" a = true ->
  corner a = rbind (index_of a) (fun i => Ok [i; 0; 0]%Z).
Proof.
  intros Ha. unfold corner. rewrite (split_on_free _ _ Ha). simpl.
  destruct (index_of a); reflexivity.
Qed.

Lemma corner_two a b :
  free_of "/" a = true -> free_of "/" b = true ->
  corner (a ++ "/" ++ b) =
  rbind (index_of a) (fun i => rbind (index_of b) (fun j => Ok [i; j; 0]%Z)).
Proof.
  intros Ha Hb. unfold corner. simpl append.
  rewrite (split_on_app _ _ _ Ha), (split_on_free _ _ Hb). simpl.
  destruct (index_of a); [|reflexivity].
  destruct (index_of b); reflexivity.
Qed.

Lemma corner_three a b c :
  free_of "/" a = true -> free_of "/" b = true -> free_of "/" c = true ->
  corner (a ++ "/" ++ b ++ "/" ++ c) =
  rbind (index_of a) (fun i => rbind (index_of b) (fun j =>
    rbind (index_of c) (fun k => Ok [i; j; k]))).
Proof.
  intros Ha Hb Hc. unfold corner. simpl append.
  rewrite (split_on_app _ _ _ Ha), (split_on_app _ _ _ Hb),
    (split_on_free _ _ Hc). simpl.
  destruct (index_of a); [|reflexivity].
  destruct (index_of b); [|reflexivity].
  destruct (index_of c); reflexivity.
Qed.

Lemma mapM_length {A B : Type} (g : A -> result B) xs ys :
  mapM g xs = Ok ys -> length ys = length xs.
Proof.
  revert ys. induction xs as [|x xs IH]; intros ys H; simpl in H.
  - injection H as <-. reflexivity.
  - destruct (g x); [|discriminate]. destruct (mapM g xs); [|discriminate].
    injection H as <-. simpl. f_equal. apply IH. reflexivity.
Qed.

Lemma corner_length e t :
  corner e = Ok t -> length t = Nat.max 3 (S (count_of "/" e)).
Proof.
  unfold corner. destruct (mapM index_of (split_on "/" e)) as [l|] eqn:Hm;
    [|discriminate].
  intros H. injection H as <-. apply mapM_length in Hm.
  rewrite split_on_length in Hm. unfold pad0.
  rewrite length_app, repeat_length, Hm. lia.
Qed.

End ReadObjFacts.
End ObjFacts.

Module ObjSpec.
Import PyStr PyStrFacts Obj ObjFacts.

Lemma known_false kw :
  known kw = false ->
  (kw =? "v") = false /\ (kw =? "vt") = false /\ (kw =? "vn") = false
  /\ (kw =? "vp") = false /\ (kw =? "f") = false /\ (kw =? "usemtl") = false
  /\ (kw =? "o") = false /\ (kw =? "s") = false /\ (kw =? "mtllib") = false
  /\ match kw with String c _ => Ascii.eqb c "#" | EmptyString => false end
     = false.
Proof.
  unfold known, keywords. simpl existsb. intros H.
  repeat match goal with
  | H0 : (_ || _) = false |- _ =>
      apply orb_false_elim in H0; destruct H0 as [? ?]
  end.
  repeat split; assumption.
Qed.

(** On a line with an unknown first token the loop body raises or does
    nothing, by the flag. *)
Lemma step_unknown (F : Type) (float : string -> result F) ign st line kw args :
  tokens line = kw :: args -> known kw = false ->
  step F float ign st line =
  if ign then Ok st else Err (PyException ("Unknown keyword " ++ kw)).
Proof.
  intros Ht Hk. pose proof (tokens_head_nonempty _ _ _ Ht) as Hne.
  apply known_false in Hk.
  destruct Hk as (H1 & H2 & H3 & H4 & H5 & H6 & H7 & H8 & H9 & H10).
  unfold step. rewrite Ht, H1, H2, H3, H4, H5, H6, H7, H8, H9.
  destruct kw as [|c k]; [contradiction|]. rewrite H10. reflexivity.
Qed.

(** C7: read_obj turns a face corner written [i], [i/j] or [i/j/k] into a
    list of exactly three integers, a missing or empty component being 0
    and the others the integers as written (no offset); the returned face
    list and vertex list hold one entry per [f] line and per [v] line, in
    the order of the lines. *)
Theorem read_obj_corners_and_order
  (F : Type) (float : string -> result F) (ign : bool)
  (lines : list string) (o : obj F) :
  read_obj F float ign lines = Ok o ->
  mapM face_of_line (filter (is_kw "f") lines) = Ok (obj_f o)
  /\ mapM (row_of_line F float) (filter (is_kw "v") lines) = Ok (obj_v o)
  /\ (forall a b c,
        free_of "/" a = true -> free_of "/" b = true ->
        free_of "/" c = true ->
        corner a = rbind (index_of a) (fun i => Ok [i; 0; 0]%Z)
        /\ corner (a ++ "/" ++ b) =
           rbind (index_of a) (fun i => rbind (index_of b) (fun j =>
             Ok [i; j; 0]%Z))
        /\ corner (a ++ "/" ++ b ++ "/" ++ c) =
           rbind (index_of a) (fun i => rbind (index_of b) (fun j =>
             rbind (index_of c) (fun k => Ok [i; j; k]))))
  /\ (forall e t, count_of "/" e <= 2 -> corner e = Ok t -> length t = 3).
Proof.
  intros H. unfold read_obj in H.
  destruct (fold_faces F float ign lines _ _ H) as (faces & Hf & Ef).
  destruct (fold_vertices F float ign lines _ _ H) as (rows & Hv & Ev).
  simpl in Ef, Ev. subst faces rows.
  split; [assumption|]. split; [assumption|]. split.
  - intros a b c Ha Hb Hc. split; [apply corner_one; assumption|].
    split; [apply corner_two; assumption|apply corner_three; assumption].
  - intros e t Hc Ht. rewrite (corner_length e t Ht). lia.
Qed.

(** C8: a line whose first token is neither a directive nor a comment makes
    read_obj raise when ignore_unknown is false (the unknown-keyword
    exception once the lines before it went through), and is skipped, the
    result being that of the file without the line, when ignore_unknown is
    true. *)
Theorem read_obj_unknown_directive
  (F : Type) (float : string -> result F)
  (line kw : string) (args : list string) :
  tokens line = kw :: args -> known kw = false ->
  (forall lines, In line lines ->
     is_ok (read_obj F float false lines) = false)
  /\ (forall l1 l2 st, read_obj F float false l1 = Ok st ->
        read_obj F float false (l1 ++ line :: l2)
        = Err (PyException ("Unknown keyword " ++ kw)))
  /\ (forall l1 l2,
        read_obj F float true (l1 ++ line :: l2)
        = read_obj F float true (l1 ++ l2)).
Proof.
  intros Ht Hk. split; [|split].
  - intros lines Hin. unfold read_obj.
    apply foldM_fails_at with (x := line); [|assumption].
    intros st. rewrite (step_unknown F float false st line kw args Ht Hk).
    reflexivity.
  - intros l1 l2 st H. unfold read_obj in *. rewrite foldM_app, H. simpl.
    rewrite (step_unknown F float false st line kw args Ht Hk). reflexivity.
  - intros l1 l2. unfold read_obj. rewrite !foldM_app.
    destruct (foldM (step F float true) (empty_obj F) l1) as [st|];
      [|reflexivity].
    simpl. rewrite (step_unknown F float true st line kw args Ht Hk).
    reflexivity.
Qed.

(** C10: on a blank or whitespace-only line read_obj raises (IndexError, once
    the lines before it went through) instead of skipping it; hence a
    successful read_obj means every line is non-empty after stripping. *)
Theorem read_obj_blank_line_raises
  (F : Type) (float : string -> result F) (ign : bool) (lines : list string) :
  (forall b, In b lines -> all_space b = true ->
     is_ok (read_obj F float ign lines) = false)
  /\ (forall l1 b l2 st, lines = l1 ++ b :: l2 -> all_space b = true ->
        read_obj F float ign l1 = Ok st ->
        read_obj F float ign lines = Err IndexError)
  /\ (forall o, read_obj F float ign lines = Ok o ->
        Forall (fun l => strip l <> EmptyString) lines).
Proof.
  assert (Hblank : forall b, all_space b = true -> tokens b = []).
  { intros b Hb. unfold tokens. apply split_strip_nil_iff.
    apply strip_empty_iff. assumption. }
  split; [|split].
  - intros b Hin Hb. unfold read_obj.
    apply foldM_fails_at with (x := b); [|assumption].
    intros st. rewrite (step_blank F float ign st b (Hblank b Hb)).
    reflexivity.
  - intros l1 b l2 st -> Hb H. unfold read_obj in *.
    rewrite foldM_app, H. simpl.
    rewrite (step_blank F float ign st b (Hblank b Hb)). reflexivity.
  - intros o H. unfold read_obj in H.
    eapply foldM_ok_forall; [|exact H].
    intros st l st' Hs Hl. apply (step_ok_tokens F float ign st l st' Hs).
    unfold tokens. rewrite Hl. reflexivity.
Qed.

Lemma read_obj_corners_and_order_witness :
  read_obj Z ObjDemo.int_float false
    ["v 0 0 1"; "f 1/2/3 2//1 1"; "v 1 0 0"; "f 2/1"] = Ok ObjDemo.sample_obj
  /\ mapM face_of_line
       (filter (is_kw "f") ["v 0 0 1"; "f 1/2/3 2//1 1"; "v 1 0 0"; "f 2/1"])
     = Ok (obj_f ObjDemo.sample_obj).
Proof.
  split; [reflexivity|].
  apply (read_obj_corners_and_order Z ObjDemo.int_float false
           ["v 0 0 1"; "f 1/2/3 2//1 1"; "v 1 0 0"; "f 2/1"] ObjDemo.sample_obj).
  reflexivity.
Defined.

Lemma read_obj_unknown_directive_witness :
  is_ok (read_obj Z ObjDemo.int_float false ["v 0 0 1"; "g grp"; "v 1 0 0"]) = false
  /\ read_obj Z ObjDemo.int_float true ["v 0 0 1"; "g grp"; "v 1 0 0"]
     = read_obj Z ObjDemo.int_float true ["v 0 0 1"; "v 1 0 0"].
Proof.
  pose proof (read_obj_unknown_directive Z ObjDemo.int_float "g grp" "g" ["grp"]
                eq_refl eq_refl) as H.
  split.
  - apply (proj1 H). simpl. right. left. reflexivity.
  - exact (proj2 (proj2 H) ["v 0 0 1"] ["v 1 0 0"]).
Defined.

Lemma read_obj_blank_line_raises_witness :
  read_obj Z ObjDemo.int_float true ["v 0 0 1"; "   "; "v 1 0 0"] = Err IndexError.
Proof.
  apply (proj1 (proj2 (read_obj_blank_line_raises Z ObjDemo.int_float true
                         ["v 0 0 1"; "   "; "v 1 0 0"]))
           ["v 0 0 1"] "   " ["v 1 0 0"]
           {| obj_mtllib := []; obj_v := [[0; 0; 1]]%Z; obj_vt := [];
              obj_vn := []; obj_vp := []; obj_f := []; obj_o := [];
              obj_s := []; obj_usemtl := [] |});
    reflexivity.
Defined.

End ObjSpec.

(** ** Facts about tensors *)

Module TensorFacts.
Import Tensor.

Lemma mapM_nth {A B : Type} (g : A -> result B) xs ys :
  mapM g xs = Ok ys ->
  forall n,
    (nth_error xs n = None /\ nth_error ys n = None)
    \/ (exists x y, nth_error xs n = Some x /\ nth_error ys n = Some y
                    /\ g x = Ok y).
Proof.
  revert ys. induction xs as [|x xs IH]; intros ys H n; simpl in H.
  - injection H as <-. left. destruct n; split; reflexivity.
  - destruct (g x) as [y|] eqn:Hg; [|discriminate].
    destruct (mapM g xs) as [ys'|] eqn:Hm; [|discriminate].
    injection H as <-. destruct n as [|n]; simpl.
    + right. exists x, y. repeat split; assumption.
    + apply IH. reflexivity.
Qed.

Lemma zipM_nth {A B C : Type} (g : A -> B -> result C) xs ys zs :
  zipM g xs ys = Ok zs ->
  forall n,
    (nth_error xs n = None /\ nth_error ys n = None
     /\ nth_error zs n = None)
    \/ (exists x y z, nth_error xs n = Some x /\ nth_error ys n = Some y
                      /\ nth_error zs n = Some z /\ g x y = Ok z).
Proof.
  revert ys zs. induction xs as [|x xs IH]; intros [|y ys] zs H n;
    simpl in H; try discriminate.
  - injection H as <-. left. destruct n; repeat split; reflexivity.
  - destruct (g x y) as [z|] eqn:Hg; [|discriminate].
    destruct (zipM g xs ys) as [zs'|] eqn:Hz; [|discriminate].
    injection H as <-. destruct n as [|n]; simpl.
    + right. exists x, y, z. repeat split; assumption.
    + eapply IH. eassumption.
Qed.

Lemma zip1_nth {A B C : Type} (g : A -> B -> C) xs ys zs :
  zip1 g xs ys = Ok zs ->
  forall n,
    (nth_error xs n = None /\ nth_error ys n = None
     /\ nth_error zs n = None)
    \/ (exists x y, nth_error xs n = Some x /\ nth_error ys n = Some y
                    /\ nth_error zs n = Some (g x y)).
Proof.
  intros H n. destruct (zipM_nth _ _ _ _ H n) as [Hn|(x & y & z & Hx & Hy & Hz & E)].
  - left. assumption.
  - right. injection E as <-. exists x, y. repeat split; assumption.
Qed.

Lemma zip2_at2 {A B C : Type} (g : A -> B -> C) a b c :
  zip2 g a b = Ok c ->
  forall i j,
    (at2 a i j = None /\ at2 b i j = None /\ at2 c i j = None)
    \/ (exists x y, at2 a i j = Some x /\ at2 b i j = Some y
                    /\ at2 c i j = Some (g x y)).
Proof.
  intros H i j. unfold at2.
  destruct (zipM_nth _ _ _ _ H i) as [(-> & -> & ->)|(ra & rb & rc & -> & -> & -> & E)].
  - left. repeat split; reflexivity.
  - apply (zip1_nth g ra rb rc E j).
Qed.

Lemma at3_at2 {A : Type} (t : list (list (list A))) b i j :
  at3 t b i j = match nth_error t b with
                | Some s => at2 s i j
                | None => None
                end.
Proof. reflexivity. Qed.

Lemma zip3_at3 {A B C : Type} (g : A -> B -> C) a b c :
  zip3 g a b = Ok c ->
  forall n i j,
    (at3 a n i j = None /\ at3 b n i j = None /\ at3 c n i j = None)
    \/ (exists x y, at3 a n i j = Some x /\ at3 b n i j = Some y
                    /\ at3 c n i j = Some (g x y)).
Proof.
  intros H n i j. rewrite !at3_at2.
  destruct (zipM_nth _ _ _ _ H n) as [(-> & -> & ->)|(sa & sb & sc & -> & -> & -> & E)].
  - left. repeat split; reflexivity.
  - apply (zip2_at2 g sa sb sc E i j).
Qed.

Lemma length_concat_uniform {A : Type} n (rows : list (list A)) :
  Forall (fun r => length r = n) rows ->
  length (concat rows) = length rows * n.
Proof.
  induction 1 as [|r rows Hr _ IH]; simpl; [reflexivity|].
  rewrite length_app, IH, Hr. reflexivity.
Qed.

(** Cutting the concatenation of rows of one length gives the rows back. *)
Lemma chunks_concat {A : Type} n (rows : list (list A)) :
  Forall (fun r => length r = n) rows ->
  chunks n (length rows) (concat rows) = rows.
Proof.
  induction 1 as [|r rows Hr _ IH]; simpl; [reflexivity|].
  assert (Hf : firstn n r = r) by (rewrite <- Hr; apply firstn_all).
  assert (Hk : skipn n r = []) by (rewrite <- Hr; apply skipn_all).
  rewrite firstn_app, skipn_app, Hf, Hk, Hr, Nat.sub_diag. simpl.
  rewrite app_nil_r, IH. reflexivity.
Qed.

Lemma has_shape_rows {A : Type} h w (t : list (list (list A))) :
  has_shape h w t ->
  Forall (fun r => length r = w) (concat t)
  /\ Forall (fun s => length s = h) t.
Proof.
  induction 1 as [|s t [Hs Hr] _ [IH1 IH2]]; simpl.
  - split; constructor.
  - split; [apply Forall_app; split; assumption|constructor; assumption].
Qed.

Lemma has_shape_map3 {A B : Type} (g : A -> B) h w t :
  has_shape h w t -> has_shape h w (map3 g t).
Proof.
  unfold has_shape, map3, map2. intros H. apply Forall_map.
  eapply Forall_impl; [|exact H]. intros s [Hs Hr]. simpl.
  rewrite length_map. split; [assumption|].
  apply Forall_map. eapply Forall_impl; [|exact Hr].
  intros r Hw. simpl. rewrite length_map. assumption.
Qed.

(** A tensor that has the shape asked for is left as it is. *)
Lemma reshape3_shaped {A : Type} height width (t t' : list (list (list A))) :
  has_shape (Z.to_nat height) (Z.to_nat width) t ->
  reshape3 height width t = Ok t' -> t' = t.
Proof.
  intros Hshape. unfold reshape3.
  destruct ((1 <=? height)%Z && (1 <=? width)%Z && _) eqn:Hc; [|discriminate].
  apply andb_prop in Hc as [Hc _]. apply andb_prop in Hc as [Hh Hw].
  apply Z.leb_le in Hh, Hw.
  destruct (has_shape_rows _ _ _ Hshape) as [Hrows Hsamples].
  intros H. injection H as <-.
  rewrite (length_concat_uniform _ _ Hrows).
  rewrite Nat.div_mul by lia.
  rewrite (chunks_concat _ _ Hrows).
  rewrite (length_concat_uniform _ _ Hsamples).
  rewrite Nat.div_mul by lia.
  apply chunks_concat. assumption.
Qed.

Lemma last_cons_default {A : Type} (l : list A) a d d' :
  last (a :: l) d = last (a :: l) d'.
Proof.
  revert a. induction l as [|b l IH]; intros a; [reflexivity|].
  change (last (b :: l) d = last (b :: l) d'). apply IH.
Qed.

Lemma split_last_parts {A : Type} (t : list (list (list (list A)))) parts :
  mapM split_last t = Ok parts ->
  map snd parts = last_channel t
  /\ map fst parts = map (@removelast _) t.
Proof.
  revert parts. induction t as [|chans t IH]; intros parts H; simpl in H.
  - injection H as <-. split; reflexivity.
  - destruct chans as [|c chans]; [discriminate|]. simpl split_last in H.
    cbv iota in H.
    destruct (mapM split_last t) as [ps|] eqn:Hm; [|discriminate].
    injection H as <-. destruct (IH ps eq_refl) as [H1 H2].
    simpl map. rewrite H1, H2. unfold last_channel. simpl map.
    split; [|reflexivity]. f_equal. apply last_cons_default.
Qed.

Lemma at4_prefix {A : Type} (g : list (list (list A)) -> list (list (list A)))
  (k : list (list (list A)) -> nat) t b c i j v :
  (forall chans, g chans = firstn (k chans) chans) ->
  at4 (map g t) b c i j = Some v -> at4 t b c i j = Some v.
Proof.
  intros Hg. unfold at4. rewrite nth_error_map.
  destruct (nth_error t b) as [chans|]; simpl; [|discriminate].
  rewrite Hg, !at3_at2, nth_error_firstn.
  destruct (c <? k chans)%nat; [auto|discriminate].
Qed.

Lemma zipM_map {A B C D : Type} (g : A -> B -> result C)
  (p : C -> D) (q : A -> D) xs ys zs :
  (forall x y z, g x y = Ok z -> p z = q x) ->
  zipM g xs ys = Ok zs -> map p zs = map q xs.
Proof.
  intros Hg. revert ys zs.
  induction xs as [|x xs IH]; intros [|y ys] zs H; simpl in H;
    try discriminate.
  - injection H as <-. reflexivity.
  - destruct (g x y) as [z|] eqn:E; [|discriminate].
    destruct (zipM g xs ys) as [zs'|] eqn:Hz; [|discriminate].
    injection H as <-. simpl. rewrite (Hg _ _ _ E), (IH _ _ Hz).
    reflexivity.
Qed.

Lemma mapM_ok_length {A B : Type} (g : A -> result B) xs ys :
  mapM g xs = Ok ys -> length ys = length xs.
Proof.
  revert ys. induction xs as [|x xs IH]; intros ys H; simpl in H.
  - injection H as <-. reflexivity.
  - destruct (g x); [|discriminate]. destruct (mapM g xs); [|discriminate].
    injection H as <-. simpl. f_equal. apply IH. reflexivity.
Qed.

Lemma length_removelast' {A : Type} (l : list A) :
  length (removelast l) = length l - 1.
Proof.
  rewrite removelast_firstn_len, length_firstn. lia.
Qed.

Lemma length_drop_last2 {A : Type} (l : list A) :
  length (drop_last2 l) = length l - 2.
Proof. unfold drop_last2. rewrite length_firstn. lia. Qed.

End TensorFacts.

(** ** The depth raster of [rasterize_vertex_attr] *)

Module DepthFacts.
Import Tensor Rast.

Lemma ltb_lt x y : ltb x y = true <-> (x < y)%Q.
Proof.
  unfold ltb. rewrite negb_true_iff. split.
  - intros H. apply Qnot_le_lt. intros Hle.
    apply Qle_bool_iff in Hle. congruence.
  - intros H. destruct (Qle_bool y x) eqn:E; [|reflexivity].
    apply Qle_bool_iff in E. exfalso. revert E. apply Qlt_not_le. assumption.
Qed.

Lemma ltb_ge x y : ltb x y = false <-> (y <= x)%Q.
Proof.
  unfold ltb. rewrite negb_false_iff. apply Qle_bool_iff.
Qed.

Lemma eqb_eq x y : eqb x y = true <-> (x == y)%Q.
Proof. apply Qeq_bool_iff. Qed.

Lemma eqb_neq x y : ~ (x == y)%Q -> eqb x y = false.
Proof.
  intros H. destruct (eqb x y) eqn:E; [|reflexivity].
  apply eqb_eq in E. contradiction.
Qed.

(** The miss value 0 is sent to 1. *)
Lemma depth_remap_zero d : (d == 0)%Q -> (depth_remap d == 1)%Q.
Proof.
  intros H. unfold depth_remap.
  assert (E1 : ltb 0 d = false) by (apply ltb_ge; rewrite H; apply Qle_refl).
  assert (E2 : eqb d 0 = true) by (apply eqb_eq; assumption).
  rewrite E1, E2. simpl of_bool. ring.
Qed.

(** A negative depth is sent to 0. *)
Lemma depth_remap_negative d : (d < 0)%Q -> (depth_remap d == 0)%Q.
Proof.
  intros H. unfold depth_remap.
  assert (E1 : ltb 0 d = false) by (apply ltb_ge; apply Qlt_le_weak; exact H).
  assert (E2 : eqb d 0 = false) by (apply eqb_neq; apply Qlt_not_eq; exact H).
  rewrite E1, E2. simpl of_bool. ring.
Qed.

(** A positive depth goes through the affine remap. *)
Lemma depth_remap_positive d :
  (0 < d)%Q -> (depth_remap d == d * (1 # 2) + (1 # 2))%Q.
Proof.
  intros H. unfold depth_remap.
  assert (E1 : ltb 0 d = true) by (apply ltb_lt; exact H).
  assert (E2 : eqb d 0 = false).
  { apply eqb_neq. intros E. apply (Qlt_not_eq _ _ H). symmetry. exact E. }
  rewrite E1, E2. simpl of_bool. ring.
Qed.

Lemma depth_remap_range d :
  (d <= 1)%Q -> (0 <= depth_remap d)%Q /\ (depth_remap d <= 1)%Q.
Proof.
  intros Hd. destruct (Qlt_le_dec 0 d) as [Hpos|Hnonpos].
  - rewrite (depth_remap_positive d Hpos). split.
    + apply Qlt_le_weak.
      apply Qlt_trans with (y := (0 * (1 # 2) + (1 # 2))%Q); [reflexivity|].
      apply Qplus_lt_le_compat; [|apply Qle_refl].
      apply Qmult_lt_compat_r; [reflexivity|exact Hpos].
    + apply Qle_trans with (y := (1 * (1 # 2) + (1 # 2))%Q);
        [|apply Qle_lteq; right; reflexivity].
      apply Qplus_le_compat; [|apply Qle_refl].
      apply Qmult_le_compat_r; [exact Hd|discriminate].
  - apply Qle_lteq in Hnonpos. destruct Hnonpos as [Hneg|Hz].
    + rewrite (depth_remap_negative d Hneg). split; discriminate.
    + rewrite (depth_remap_zero d Hz). split; discriminate.
Qed.

Lemma at3_map3 {A B : Type} (g : A -> B) t b i j :
  at3 (map3 g t) b i j = option_map g (at3 t b i j).
Proof.
  unfold at3, map3, map2. rewrite nth_error_map.
  destruct (nth_error t b) as [s|]; simpl; [|reflexivity].
  rewrite nth_error_map. destruct (nth_error s i) as [r|]; simpl;
    [|reflexivity].
  apply nth_error_map.
Qed.

(** Row [i] of a flipped sample is row [H - 1 - i] of the sample. *)
Lemma at3_flip1 {A : Type} (t : list (list (list A))) b i j :
  at3 (flip1 t) b i j =
  match nth_error t b with
  | Some s =>
      if (i <? length s)%nat
      then at3 t b (length s - S i) j
      else None
  | None => None
  end.
Proof.
  unfold at3, flip1. rewrite nth_error_map.
  destruct (nth_error t b) as [s|]; simpl; [|reflexivity].
  rewrite nth_error_rev. destruct (i <? length s)%nat; reflexivity.
Qed.

(** Every value of the depth raster is the remap of the raw z of the pixel
    it shows, rows being counted from the other end. *)
Lemma raster_depth_at rast_out b i j v :
  at3 (raster_depth rast_out) b i j = Some v ->
  exists s px, nth_error rast_out b = Some s
               /\ (i < length s)%nat
               /\ at3 rast_out b (length s - S i) j = Some px
               /\ v = depth_remap (px_zw px).
Proof.
  unfold raster_depth. rewrite at3_map3, at3_flip1.
  unfold map3 at 1. rewrite nth_error_map.
  destruct (nth_error rast_out b) as [s|] eqn:Hs; simpl; [|discriminate].
  unfold map2. rewrite length_map.
  destruct (i <? length s)%nat eqn:Hi; simpl; [|discriminate].
  change (map (map (map px_zw)) rast_out) with (map3 px_zw rast_out).
  rewrite at3_map3.
  destruct (at3 rast_out b (length s - S i) j) as [px|] eqn:Hpx; simpl;
    [|discriminate].
  intros H. injection H as <-. exists s, px.
  apply Nat.ltb_lt in Hi. repeat split; assumption || reflexivity.
Qed.

End DepthFacts.

(** ** Reasoning on logged computations *)

Module CallLogic.
Import Tensor Rast.

Section Logic.

Variable Mat : Type.

Lemma bind_run {A B : Type} (m : M Mat A) (k : A -> M Mat B) tr r tr' :
  bind Mat m k tr = (r, tr') ->
  (exists e, m tr = (Err e, tr') /\ r = Err e)
  \/ (exists a tr1, m tr = (Ok a, tr1) /\ k a tr1 = (r, tr')).
Proof.
  unfold bind. destruct (m tr) as [[a|e] tr1]; intros H.
  - right. exists a, tr1. split; [reflexivity|assumption].
  - left. exists e. injection H as <- <-. split; reflexivity.
Qed.

Lemma bind_ok {A B : Type} (m : M Mat A) (k : A -> M Mat B) tr b tr' :
  bind Mat m k tr = (Ok b, tr') ->
  exists a tr1, m tr = (Ok a, tr1) /\ k a tr1 = (Ok b, tr').
Proof.
  intros H. apply bind_run in H. destruct H as [(e & _ & He)|H];
    [discriminate|assumption].
Qed.

Lemma lift_run {A : Type} (r0 : result A) tr r tr' :
  lift Mat r0 tr = (r, tr') -> r = r0 /\ tr' = tr.
Proof. unfold lift. intros H. injection H as <- <-. split; reflexivity. Qed.

Lemma call_run {A : Type} ev (r0 : result A) tr r tr' :
  call Mat ev r0 tr = (r, tr') -> r = r0 /\ tr' = tr ++ [ev].
Proof. unfold call. intros H. injection H as <- <-. split; reflexivity. Qed.

Lemma ret_run {A : Type} (a : A) tr r tr' :
  ret Mat a tr = (r, tr') -> r = Ok a /\ tr' = tr.
Proof. unfold ret. intros H. injection H as <- <-. split; reflexivity. Qed.

Lemma emits_ret {A : Type} P (a : A) : emits P (ret Mat a).
Proof.
  intros tr r tr' H. apply ret_run in H as [_ ->].
  exists []. rewrite app_nil_r. split; [reflexivity|constructor].
Qed.

Lemma emits_lift {A : Type} P (r0 : result A) : emits P (lift Mat r0).
Proof.
  intros tr r tr' H. apply lift_run in H as [_ ->].
  exists []. rewrite app_nil_r. split; [reflexivity|constructor].
Qed.

Lemma emits_call {A : Type} (P : Call Mat -> Prop) ev (r0 : result A) :
  P ev -> emits P (call Mat ev r0).
Proof.
  intros Hev tr r tr' H. apply call_run in H as [_ ->].
  exists [ev]. split; [reflexivity|]. constructor; [assumption|constructor].
Qed.

Lemma emits_bind {A B : Type} P (m : M Mat A) (k : A -> M Mat B) :
  emits P m -> (forall a, emits P (k a)) -> emits P (bind Mat m k).
Proof.
  intros Hm Hk tr r tr' H. apply bind_run in H.
  destruct H as [(e & H & _)|(a & tr1 & H1 & H2)].
  - apply Hm in H. assumption.
  - apply Hm in H1. destruct H1 as (n1 & -> & F1).
    apply Hk in H2. destruct H2 as (n2 & -> & F2).
    exists (n1 ++ n2). rewrite app_assoc. split; [reflexivity|].
    apply Forall_app. split; assumption.
Qed.

Lemma emits_weaken {A : Type} (P P' : Call Mat -> Prop) (m : M Mat A) :
  (forall ev, P ev -> P' ev) -> emits P m -> emits P' m.
Proof.
  intros HP Hm tr r tr' H. apply Hm in H. destruct H as (new & -> & F).
  exists new. split; [reflexivity|].
  eapply Forall_impl; [exact HP|exact F].
Qed.

Lemma hoare_bind {A B : Type} Pre Mid Post
  (m : M Mat A) (k : A -> M Mat B) :
  hoare Pre m Mid ->
  (forall a, hoare (Mid (Ok a)) (k a) Post) ->
  (forall e tr, Mid (Err e) tr -> Post (Err e) tr) ->
  hoare Pre (bind Mat m k) Post.
Proof.
  intros Hm Hk He tr r tr' Hpre H. apply bind_run in H.
  destruct H as [(e & H & ->)|(a & tr1 & H1 & H2)].
  - apply He. eapply Hm; eassumption.
  - eapply Hk; [|exact H2]. eapply Hm; eassumption.
Qed.

Lemma hoare_weaken {A : Type} (Pre Pre' : list (Call Mat) -> Prop)
  (Post Post' : result A -> list (Call Mat) -> Prop) (m : M Mat A) :
  (forall tr, Pre' tr -> Pre tr) ->
  (forall r tr, Post r tr -> Post' r tr) ->
  hoare Pre m Post -> hoare Pre' m Post'.
Proof.
  intros H1 H2 Hm tr r tr' Hpre H. apply H2. eapply Hm; [|exact H].
  apply H1. assumption.
Qed.

(** An invariant of the log kept by every call satisfying [P] is kept by a
    computation that emits such calls only. *)
Lemma emits_invariant {A : Type} (P : Call Mat -> Prop)
  (Inv : list (Call Mat) -> Prop) (m : M Mat A) :
  (forall tr ev, Inv tr -> P ev -> Inv (tr ++ [ev])) ->
  emits P m -> hoare Inv m (fun _ tr => Inv tr).
Proof.
  intros Hstep Hm tr r tr' Hinv H. apply Hm in H.
  destruct H as (new & -> & F). clear Hm.
  revert tr Hinv. induction F as [|ev new Hev _ IH]; intros tr Hinv.
  - rewrite app_nil_r. assumption.
  - change (ev :: new) with ([ev] ++ new). rewrite app_assoc.
    apply IH. apply Hstep; assumption.
Qed.

End Logic.


(** Discharges [emits P m] for a computation written with [bind], [lift],
    [call], [ret] and case analyses, leaving the conditions on its calls. *)
Ltac emits_steps :=
  repeat first
    [ progress cbv beta zeta
    | apply emits_ret
    | apply emits_lift
    | apply emits_bind; [|intros ?]
    | apply emits_call
    | match goal with
      | |- emits _ (if ?b then _ else _) => destruct b
      | |- emits _ (match ?x with _ => _ end) => destruct x
      end ].

(** Splits the run [H] of a successful computation into the runs of its
    steps. *)
Ltac invert_run H :=
  repeat (cbv beta zeta in H;
    match type of H with
    | bind _ _ _ _ = (Ok _, _) =>
        let a := fresh "a" in
        let tr := fresh "tr" in
        let E := fresh "E" in
        apply bind_ok in H; destruct H as (a & tr & E & H)
    end);
  repeat match goal with
  | E : lift _ _ _ = (_, _) |- _ =>
      apply lift_run in E; destruct E as [E ?]; symmetry in E; subst
  | E : call _ _ _ _ = (_, _) |- _ =>
      apply call_run in E; destruct E as [E ?]; symmetry in E; subst
  | E : ret _ _ _ = (_, _) |- _ =>
      apply ret_run in E; destruct E as [E ?]; subst
  end.

End CallLogic.

(** ** The stages of [warp_image_by_depth] *)

Module StageFacts.
Import Tensor Rast CallLogic TensorFacts DepthFacts.

Section Stages.

Variable Mat : Type.
Variable eye4 : Mat.
Variable matmul : Mat -> Mat -> result Mat.
Variable transform : T3 -> Mat -> result T3.
Variable NvdCtx : Type.
Variable RastDb : Type.
Variable dr_rasterize :
  NvdCtx -> T3 -> Faces -> Z * Z -> result (Raster * RastDb).
Variable dr_interpolate :
  T3 -> Raster -> Faces -> RastDb -> option (list Z) -> result (T4 * T4).
Variable dr_antialias : T4 -> Raster -> T3 -> Faces -> result T4.
Variable extrinsics_to_view : Mat -> result Mat.
Variable intrinsics_to_perspective : Mat -> Q -> Q -> result Mat.
Variable image_mesh : Z -> Z -> result (UV * Faces).
Variable unproject_cv : UV -> T2 -> Mat -> Mat -> result T3.
Variable triangulate : Faces -> option T2 -> option bool -> result Faces.
Variable linearize_depth : T3 -> Q -> Q -> result T3.

Local Notation "'rasterize_vertex_attr'" :=
  (Rast.rasterize_vertex_attr Mat eye4 matmul transform NvdCtx RastDb
     dr_rasterize dr_interpolate dr_antialias).
Local Notation "'build_lattice'" :=
  (Rast.build_lattice Mat image_mesh unproject_cv).
Local Notation "'padded_lattice'" :=
  (Rast.padded_lattice Mat image_mesh unproject_cv).
Local Notation "'plain_lattice'" :=
  (Rast.plain_lattice Mat image_mesh unproject_cv).
Local Notation "'triangulate_lattice'" :=
  (Rast.triangulate_lattice Mat triangulate).
Local Notation "'composite'" := (Rast.composite Mat linearize_depth).
Local Notation "'warp_rasters'" :=
  (Rast.warp_rasters Mat eye4 matmul transform NvdCtx RastDb
     dr_rasterize dr_interpolate dr_antialias extrinsics_to_view
     intrinsics_to_perspective image_mesh unproject_cv triangulate).
Local Notation "'warp_image_by_depth'" :=
  (Rast.warp_image_by_depth Mat eye4 matmul transform NvdCtx RastDb
     dr_rasterize dr_interpolate dr_antialias extrinsics_to_view
     intrinsics_to_perspective image_mesh unproject_cv triangulate
     linearize_depth).

Local Notation "'not_triangulate'" := (Rast.not_triangulate Mat).
Local Notation "'chosen'" := (Rast.chosen Mat unproject_cv).
Local Notation "'triangulation_policy'" :=
  (Rast.triangulation_policy Mat unproject_cv).

Lemma rasterize_emits ctx vertices faces attr width height model view
  perspective antialiasing diff_attrs :
  emits not_triangulate
    (rasterize_vertex_attr ctx vertices faces attr width height model view
       perspective antialiasing diff_attrs).
Proof. unfold Rast.rasterize_vertex_attr. emits_steps; exact I. Qed.

Lemma composite_emits mg ig rdr width height near far rast :
  emits not_triangulate (composite mg ig rdr width height near far rast).
Proof. unfold Rast.composite. emits_steps; exact I. Qed.

Lemma padded_lattice_emits depth image width height es ks padding :
  emits not_triangulate
    (padded_lattice depth image width height es ks padding).
Proof. unfold Rast.padded_lattice. emits_steps; exact I. Qed.

Lemma plain_lattice_emits depth image mask es ks far :
  emits not_triangulate (plain_lattice depth image mask es ks far).
Proof. unfold Rast.plain_lattice. emits_steps; exact I. Qed.

Lemma build_lattice_emits depth image mask width height es ks far padding :
  emits not_triangulate
    (build_lattice depth image mask width height es ks far padding).
Proof.
  unfold Rast.build_lattice. destruct (0 <? padding)%Z.
  - apply padded_lattice_emits.
  - apply plain_lattice_emits.
Qed.

(** A lattice built without padding: the mesh of the depth map, the
    depth with the far plane at the pixels the mask rejects, one call to
    [unproject_cv] on it. *)
Lemma plain_lattice_ok depth image mask es ks far tr lat tr' :
  plain_lattice depth image mask es ks far tr = (Ok lat, tr') ->
  exists mesh,
    image_mesh (Z.of_nat (dim2 depth)) (Z.of_nat (dim1 depth)) = Ok mesh
    /\ match mask with
       | Some m => where_far m depth far
       | None => Ok depth
       end = Ok (lat_depth lat)
    /\ unproject_cv (fst mesh) (map (@concat Q) (lat_depth lat)) es ks
       = Ok (lat_pts lat)
    /\ lat_uv lat = fst mesh /\ lat_faces lat = snd mesh
    /\ lat_image lat = image
    /\ tr' = tr ++ [call_image_mesh Mat (Z.of_nat (dim2 depth))
                     (Z.of_nat (dim1 depth));
                   call_unproject_cv Mat (fst mesh)
                     (map (@concat Q) (lat_depth lat)) es ks].
Proof.
  intros H. unfold Rast.plain_lattice in H. invert_run H.
  injection H as ->. simpl. exists a. rewrite <- app_assoc.
  repeat split; assumption || reflexivity.
Qed.

(** A lattice built with padding: the depth is the edge-replicated depth
    map, whatever the mask. *)
Lemma padded_lattice_ok depth image width height es ks padding tr lat tr' :
  padded_lattice depth image width height es ks padding tr = (Ok lat, tr') ->
  mapM pad_replicate2 depth = Ok (lat_depth lat)
  /\ exists uv_,
       unproject_cv uv_ (map (@concat Q) (lat_depth lat)) es ks
       = Ok (lat_pts lat)
       /\ tr' = tr ++ [call_image_mesh Mat (width + 2) (height + 2);
                      call_unproject_cv Mat uv_
                        (map (@concat Q) (lat_depth lat)) es ks].
Proof.
  intros H. unfold Rast.padded_lattice in H. invert_run H.
  injection H as ->. simpl. split; [assumption|].
  eexists. rewrite <- app_assoc. split; [eassumption|reflexivity].
Qed.

(** The points of a lattice are what a logged call to [unproject_cv] gave. *)
Lemma build_lattice_ok depth image mask width height es ks far padding
  tr lat tr' :
  build_lattice depth image mask width height es ks far padding tr
  = (Ok lat, tr') ->
  exists uv d,
    unproject_cv uv d es ks = Ok (lat_pts lat)
    /\ In (call_unproject_cv Mat uv d es ks) tr'.
Proof.
  unfold Rast.build_lattice. destruct (0 <? padding)%Z; intros H.
  - apply padded_lattice_ok in H. destruct H as (_ & uv_ & Hu & ->).
    exists uv_, (map (@concat Q) (lat_depth lat)). split; [assumption|].
    apply in_or_app. right. simpl. auto.
  - apply plain_lattice_ok in H.
    destruct H as (mesh & _ & _ & Hu & _ & _ & _ & ->).
    exists (fst mesh), (map (@concat Q) (lat_depth lat)).
    split; [assumption|]. apply in_or_app. right. simpl. auto.
Qed.

(** The one call the triangulation stage makes. *)
Lemma triangulate_lattice_run batch_size faces pts backslash tr r tr' :
  triangulate_lattice batch_size faces pts backslash tr = (r, tr') ->
  (batch_size = 1%nat /\ pts = [] /\ r = Err IndexError /\ tr' = tr)
  \/ (exists v b,
        tr' = tr ++ [call_triangulate Mat faces v b]
        /\ r = triangulate faces v b
        /\ if (batch_size =? 1)%nat
           then b = None /\ exists rest, pts = match v with
                                               | Some p => p :: rest
                                               | None => []
                                               end /\ v <> None
           else v = None /\ b = Some backslash).
Proof.
  unfold Rast.triangulate_lattice.
  destruct (batch_size =? 1)%nat eqn:Hb.
  - destruct pts as [|pts0 rest]; intros H.
    + apply lift_run in H as [-> ->]. left.
      apply Nat.eqb_eq in Hb. repeat split; assumption || reflexivity.
    + apply call_run in H as [-> ->]. right.
      exists (Some pts0), None. repeat split.
      exists rest. split; [reflexivity|discriminate].
  - intros H. apply call_run in H as [-> ->]. right.
    exists None, (Some backslash). repeat split.
Qed.


(** The rasters of a warp come out of every stage before them. *)
Lemma warp_rasters_ok ctx depth image mask width height es et ks kt near far
  antialiasing backslash padding return_dr tr0 rast tr :
  warp_rasters ctx depth image mask width height es et ks kt near far
    antialiasing backslash padding return_dr tr0 = (Ok rast, tr) ->
  exists cams view persp lat faces attrs tr1 tr2,
    resolve_cameras Mat eye4 es et ks kt = Ok cams
    /\ extrinsics_to_view (snd (fst (fst cams))) = Ok view
    /\ intrinsics_to_perspective (snd cams) near far = Ok persp
    /\ build_lattice depth image mask (target_width depth width)
         (target_height depth height) (fst (fst (fst cams))) (snd (fst cams))
         far padding
         (tr0 ++ [call_extrinsics_to_view Mat (snd (fst (fst cams)));
                  call_intrinsics_to_perspective Mat (snd cams) near far])
       = (Ok lat, tr1)
    /\ triangulate_lattice (length depth) (lat_faces lat) (lat_pts lat)
         backslash tr1 = (Ok faces, tr2)
    /\ build_attrs (length depth) lat mask return_dr = Ok attrs
    /\ rasterize_vertex_attr ctx (lat_pts lat) faces (fst attrs)
         (target_width depth width) (target_height depth height)
         None (Some view) (Some persp) antialiasing (snd attrs) tr2
       = (Ok rast, tr).
Proof.
  intros H. unfold Rast.warp_rasters in H. invert_run H.
  rewrite <- app_assoc in E3. simpl app in E3.
  exists a0, a1, a2, a3, a4, a5, tr5, tr6.
  repeat split; assumption.
Qed.

(** A warp that returns is the composite of the rasters. *)
Lemma warp_ok ctx depth image mask width height es et ks kt near far
  antialiasing backslash padding return_dr tr0 out tr :
  warp_image_by_depth ctx depth image mask width height es et ks kt near far
    antialiasing backslash padding return_dr tr0 = (Ok out, tr) ->
  exists rast tr1,
    warp_rasters ctx depth image mask width height es et ks kt near far
      antialiasing backslash padding return_dr tr0 = (Ok rast, tr1)
    /\ composite (given mask) (given image) return_dr
         (target_width depth width) (target_height depth height) near far
         rast tr1 = (Ok out, tr).
Proof.
  intros H. unfold Rast.warp_image_by_depth in H. apply bind_ok in H.
  exact H.
Qed.

Section Triangulation.

Variable batch_size : nat.
Variable backslash : bool.

Lemma chosen_mono tr new v b :
  chosen batch_size backslash tr v b ->
  chosen batch_size backslash (tr ++ new) v b.
Proof.
  unfold Rast.chosen. destruct (batch_size =? 1)%nat; [|tauto].
  intros (Hb & uv & d & e & k & pts0 & rest & Hin & Hu & Hv).
  split; [assumption|]. exists uv, d, e, k, pts0, rest.
  split; [apply in_or_app; left; assumption|]. split; assumption.
Qed.

Lemma policy_step tr ev :
  triangulation_policy batch_size backslash tr -> not_triangulate ev ->
  triangulation_policy batch_size backslash (tr ++ [ev]).
Proof.
  intros Hinv Hev faces v b Hin. apply in_app_or in Hin.
  destruct Hin as [Hin|[Heq|[]]].
  - apply chosen_mono. eapply Hinv. eassumption.
  - subst ev. destruct Hev.
Qed.

Lemma policy_quiet {A : Type} (m : M Mat A) :
  emits not_triangulate m ->
  hoare (triangulation_policy batch_size backslash) m
    (fun _ tr => triangulation_policy batch_size backslash tr).
Proof. apply emits_invariant. exact policy_step. Qed.

Lemma policy_seq {A B : Type} (m : M Mat A) (k : A -> M Mat B) :
  hoare (triangulation_policy batch_size backslash) m
    (fun _ tr => triangulation_policy batch_size backslash tr) ->
  (forall a,
     hoare (triangulation_policy batch_size backslash) (k a)
       (fun _ tr => triangulation_policy batch_size backslash tr)) ->
  hoare (triangulation_policy batch_size backslash) (bind Mat m k)
    (fun _ tr => triangulation_policy batch_size backslash tr).
Proof.
  intros Hm Hk.
  apply hoare_bind with
    (Mid := fun _ tr => triangulation_policy batch_size backslash tr);
    [assumption|assumption|auto].
Qed.

(** The triangulation stage keeps the policy once the points it is given
    come from a logged unprojection. *)
Lemma triangulate_lattice_policy faces pts :
  hoare (fun tr => triangulation_policy batch_size backslash tr
                   /\ exists uv d e k,
                        In (call_unproject_cv Mat uv d e k) tr
                        /\ unproject_cv uv d e k = Ok pts)
    (triangulate_lattice batch_size faces pts backslash)
    (fun _ tr => triangulation_policy batch_size backslash tr).
Proof.
  intros tr r tr' [Hinv (uv & d & e & k & Hin & Hu)] H.
  apply triangulate_lattice_run in H.
  destruct H as [(_ & _ & _ & ->)|(v & b & -> & _ & Hvb)]; [assumption|].
  intros faces' v' b' Hin'. apply in_app_or in Hin'.
  destruct Hin' as [Hin'|[Heq|[]]].
  - apply chosen_mono. eapply Hinv. eassumption.
  - injection Heq as _ <- <-. unfold Rast.chosen.
    destruct (batch_size =? 1)%nat; [|assumption].
    destruct Hvb as (Hb & rest & Hpts & Hv). split; [assumption|].
    destruct v as [p|]; [|contradiction].
    exists uv, d, e, k, p, rest.
    split; [apply in_or_app; left; assumption|].
    split; [rewrite <- Hpts; assumption|reflexivity].
Qed.

End Triangulation.

Lemma warp_policy ctx depth image mask width height es et ks kt near far
  antialiasing backslash padding return_dr :
  hoare (triangulation_policy (length depth) backslash)
    (warp_image_by_depth ctx depth image mask width height es et ks kt near
       far antialiasing backslash padding return_dr)
    (fun _ tr => triangulation_policy (length depth) backslash tr).
Proof.
  unfold Rast.warp_image_by_depth.
  apply policy_seq; [|intros rast; apply policy_quiet, composite_emits].
  unfold Rast.warp_rasters. cbv zeta.
  apply policy_seq; [apply policy_quiet, emits_lift|intros _].
  apply policy_seq; [apply policy_quiet, emits_lift|intros cams].
  apply policy_seq; [apply policy_quiet, emits_call; exact I|intros view].
  apply policy_seq; [apply policy_quiet, emits_call; exact I|intros persp].
  apply hoare_bind with
    (Mid := fun r tr =>
       triangulation_policy (length depth) backslash tr
       /\ forall lat, r = Ok lat ->
            exists uv d e k,
              In (call_unproject_cv Mat uv d e k) tr
              /\ unproject_cv uv d e k = Ok (lat_pts lat)).
  - intros tr r tr' Hinv H. split.
    + revert H. apply policy_quiet; [apply build_lattice_emits|assumption].
    + intros lat ->. apply build_lattice_ok in H.
      destruct H as (uv & d & Hu & Hin).
      exists uv, d, (fst (fst (fst cams))), (snd (fst cams)).
      split; assumption.
  - intros lat.
    apply hoare_bind with
      (Mid := fun _ tr => triangulation_policy (length depth) backslash tr).
    + eapply hoare_weaken; [| |apply triangulate_lattice_policy].
      * intros tr [Hinv Hlat]. split; [exact Hinv|].
        apply (Hlat lat eq_refl).
      * auto.
    + intros faces.
      apply policy_seq; [apply policy_quiet, emits_lift|intros attrs].
      apply policy_quiet, rasterize_emits.
    + auto.
  - intros e tr [Hinv _]. exact Hinv.
Qed.

(** C5: every call warp_image_by_depth makes to triangulate is chosen by the
    batch size alone: with a batch of one it passes the first sample of the
    points a logged call to unproject_cv returned and no backslash flag;
    with any other batch size it passes no vertices and the caller's
    backslash flag. A warp that returns has made such a call. *)
Theorem warp_triangulation_mode ctx depth image mask width height es et ks kt
  near far antialiasing backslash padding return_dr r tr :
  warp_image_by_depth ctx depth image mask width height es et ks kt near far
    antialiasing backslash padding return_dr [] = (r, tr) ->
  triangulation_policy (length depth) backslash tr
  /\ (is_ok r = true ->
      exists faces v b, In (call_triangulate Mat faces v b) tr).
Proof.
  intros H. split.
  - revert H. apply warp_policy. intros faces v b [].
  - intros Hok. destruct r as [out|]; [|discriminate]. apply warp_ok in H.
    destruct H as (rast & tr3 & H & Hc). apply warp_rasters_ok in H.
    destruct H as (cams & view & persp & lat & faces & attrs
                   & tr1 & tr2 & _ & _ & _ & _ & Ht & _ & Hr).
    apply triangulate_lattice_run in Ht.
    destruct Ht as [(_ & _ & Hf & _)|(v & b & -> & _ & _)]; [discriminate|].
    apply rasterize_emits in Hr. destruct Hr as (n1 & -> & _).
    apply composite_emits in Hc. destruct Hc as (n2 & -> & _).
    exists (lat_faces lat), v, b.
    apply in_or_app. left. apply in_or_app. left. apply in_or_app. right.
    simpl. auto.
Qed.

(** C6: when only one of intrinsics_src and intrinsics_tgt is given, the
    one that is missing takes the value of the one that is given: the
    cameras resolve to that value on both sides, a warp that returns has
    called intrinsics_to_perspective and unproject_cv with it, and the
    warp runs as if both were given that value; when neither is given it
    raises an assertion error with a log of calls left as it was, so before
    any unprojection, triangulation or rasterization. *)
Theorem warp_intrinsics_default ctx depth image mask width height es et
  near far antialiasing backslash padding return_dr :
  (forall k,
     resolve_cameras Mat eye4 es et (Some k) None
     = Ok (match es with Some e => e | None => eye4 end,
           match et with Some e => e | None => eye4 end, k, k)
     /\ resolve_cameras Mat eye4 es et None (Some k)
        = Ok (match es with Some e => e | None => eye4 end,
              match et with Some e => e | None => eye4 end, k, k))
  /\ (forall k ks kt tr0 out tr,
        (ks, kt) = (Some k, None) \/ (ks, kt) = (None, Some k) ->
        warp_image_by_depth ctx depth image mask width height es et ks kt
          near far antialiasing backslash padding return_dr tr0
        = (Ok out, tr) ->
        In (call_intrinsics_to_perspective Mat k near far) tr
        /\ exists uv d,
             In (call_unproject_cv Mat uv d
                   (match es with Some e => e | None => eye4 end) k) tr)
  /\ (forall k,
        warp_image_by_depth ctx depth image mask width height es et (Some k)
          None near far antialiasing backslash padding return_dr
        = warp_image_by_depth ctx depth image mask width height es et
            (Some k) (Some k) near far antialiasing backslash padding
            return_dr)
  /\ (forall k,
        warp_image_by_depth ctx depth image mask width height es et None
          (Some k) near far antialiasing backslash padding return_dr
        = warp_image_by_depth ctx depth image mask width height es et
            (Some k) (Some k) near far antialiasing backslash padding
            return_dr)
  /\ (forall tr, exists msg,
        warp_image_by_depth ctx depth image mask width height es et None
          None near far antialiasing backslash padding return_dr tr
        = (Err (AssertionError msg), tr)).
Proof.
  split; [|split; [|split; [|split]]].
  - intros k. split; reflexivity.
  - intros k ks kt tr0 out tr Hcase H. apply warp_ok in H.
    destruct H as (rast & tr3 & H & Hc). apply warp_rasters_ok in H.
    destruct H as (cams & view & persp & lat & faces & attrs
                   & tr1 & tr2 & Hcams & _ & _ & Hl & Ht & _ & Hr).
    assert (Hk : cams = (match es with Some e => e | None => eye4 end,
                         match et with Some e => e | None => eye4 end,
                         k, k)).
    { destruct Hcase as [E|E]; injection E as -> ->;
        unfold Rast.resolve_cameras in Hcams; injection Hcams as <-;
        reflexivity. }
    subst cams. simpl fst in Hl. simpl snd in Hl.
    destruct (build_lattice_ok _ _ _ _ _ _ _ _ _ _ _ _ Hl)
      as (uv & d & _ & Hin).
    apply build_lattice_emits in Hl. destruct Hl as (n0 & Hn0 & _).
    apply triangulate_lattice_run in Ht.
    destruct Ht as [(_ & _ & Hf & _)|(v & b & -> & _ & _)]; [discriminate|].
    apply rasterize_emits in Hr. destruct Hr as (n1 & -> & _).
    apply composite_emits in Hc. destruct Hc as (n2 & -> & _).
    split.
    + rewrite Hn0. do 4 (apply in_or_app; left).
      apply in_or_app. right. simpl. auto.
    + exists uv, d. do 3 (apply in_or_app; left). assumption.
  - intros k. reflexivity.
  - intros k. reflexivity.
  - intros tr. unfold Rast.warp_image_by_depth, Rast.warp_rasters, bind, lift.
    destruct image as [img|].
    + destruct (py_assert _ _) as [u|e] eqn:Ha.
      * eexists. reflexivity.
      * unfold py_assert in Ha.
        destruct (_ && _); [discriminate|]. injection Ha as <-.
        eexists. reflexivity.
    + eexists. reflexivity.
Qed.

(** What a composite that returns is made of. *)
Lemma composite_ok mg ig rdr width height near far rimg sd rd tr out tr' :
  composite mg ig rdr width height near far (rimg, sd, rd) tr
  = (Ok out, tr') ->
  (if mg
   then exists m,
          reshape3 height width
               (map3 (fun x => ltb (9999 # 10000) x) (last_channel rimg))
             = Ok m
          /\ zip3 andb (map3 (fun d => ltb d 1) sd) m = Ok (output_mask out)
   else output_mask out = map3 (fun d => ltb d 1) sd)
  /\ (exists linear,
        linearize_depth sd near far = Ok linear
        /\ zip3 (fun x (m : bool) => (x * of_bool m)%Q) linear
             (output_mask out) = Ok (output_depth out))
  /\ zipM (fun chans m =>
             mapM (fun ch =>
               zip2 (fun x (b : bool) => (x * of_bool b)%Q) ch m) chans)
       (color_channels mg ig rdr rimg) (output_mask out)
     = Ok (output_image out).
Proof.
  intros H. unfold Rast.composite in H. invert_run H.
  injection H as ->. simpl output_mask. simpl output_depth.
  simpl output_image. simpl fst in *. simpl snd in *.
  unfold color_channels. destruct mg.
  - destruct (mapM split_last rimg) as [parts|] eqn:Hp; [|discriminate].
    destruct (split_last_parts _ _ Hp) as [Hs Hf].
    cbv beta iota in E0. unfold T4, T3, T2, T1 in *. rewrite Hs in E0.
    destruct (reshape3 _ _ _) as [m|] eqn:Hm; [|discriminate].
    destruct (zip3 andb _ m) as [mask1|] eqn:Hz; [|discriminate].
    injection E0 as <-. simpl fst in *. simpl snd in *.
    rewrite Hf in E3. split; [|split].
    + exists m. split; [reflexivity|assumption].
    + exists a1. split; assumption.
    + assumption.
  - injection E0 as <-. simpl fst in *. simpl snd in *. split; [|split].
    + reflexivity.
    + exists a1. split; assumption.
    + assumption.
Qed.

Lemma color_channels_length mg ig rdr rimg :
  map (@length _) (color_channels mg ig rdr rimg)
  = map (fun chans => length chans - helper_channels mg ig rdr) rimg.
Proof.
  unfold color_channels, helper_channels.
  destruct mg, (rdr && ig); rewrite ?map_map; apply map_ext; intros chans;
    rewrite ?length_drop_last2, ?length_removelast'; lia.
Qed.

Lemma color_channels_at mg ig rdr rimg b c i j v :
  at4 (color_channels mg ig rdr rimg) b c i j = Some v ->
  at4 rimg b c i j = Some v.
Proof.
  unfold color_channels. intros H.
  assert (Hrl : forall t : T4,
            at4 (map (@removelast _) t) b c i j = Some v ->
            at4 t b c i j = Some v).
  { intros t. apply at4_prefix with (k := fun chans => pred (length chans)).
    intros chans. apply removelast_firstn_len. }
  assert (Hdl : forall t : T4,
            at4 (map drop_last2 t) b c i j = Some v ->
            at4 t b c i j = Some v).
  { intros t. apply at4_prefix with (k := fun chans => length chans - 2).
    reflexivity. }
  destruct mg, (rdr && ig); auto.
Qed.

(** C3: in a warp that returns, the validity of a pixel is decided by the
    screen depth being below 1 and, when a source mask was given (the mask
    channel of the raster having the target height and width), by the mask
    channel being above 0.9999; a mask value of 0.9999 fails the test and
    0.99991 passes it. *)
Theorem warp_output_mask ctx depth image mask width height es et ks kt
  near far antialiasing backslash padding return_dr tr0 rimg sd rd tr1
  out tr :
  warp_rasters ctx depth image mask width height es et ks kt near far
    antialiasing backslash padding return_dr tr0
  = (Ok (rimg, sd, rd), tr1) ->
  warp_image_by_depth ctx depth image mask width height es et ks kt near far
    antialiasing backslash padding return_dr tr0 = (Ok out, tr) ->
  (given mask = true ->
   has_shape (Z.to_nat (target_height depth height))
     (Z.to_nat (target_width depth width)) (last_channel rimg)) ->
  (forall b i j,
     at3 (output_mask out) b i j =
     match at3 sd b i j with
     | Some d =>
         if given mask
         then option_map (fun x => valid_pixel true d x)
                (at3 (last_channel rimg) b i j)
         else Some (valid_pixel false d 0)
     | None => None
     end)
  /\ (forall d x,
        (valid_pixel false d x = true <-> (d < 1)%Q)
        /\ (valid_pixel true d x = true
            <-> (d < 1)%Q /\ (9999 # 10000 < x)%Q))
  /\ (forall d, valid_pixel true d (9999 # 10000) = false)
  /\ (forall d, (d < 1)%Q -> valid_pixel true d (99991 # 100000) = true).
Proof.
  intros Hr Hw Hshape. apply warp_ok in Hw.
  destruct Hw as (rast & tr1' & Hr' & Hc). rewrite Hr in Hr'.
  injection Hr' as <- <-. apply composite_ok in Hc.
  destruct Hc as (Hmask & _ & _).
  split; [|split; [|split]].
  - intros b i j. destruct (given mask).
    + destruct Hmask as (m & Hm & Hz).
      apply reshape3_shaped in Hm;
        [|apply has_shape_map3, Hshape; reflexivity]. subst m.
      destruct (zip3_at3 _ _ _ _ Hz b i j)
        as [(H1 & H2 & ->)|(x & y & H1 & H2 & ->)];
        rewrite at3_map3 in H1, H2.
      * destruct (at3 sd b i j); [|reflexivity]. simpl in H1. discriminate.
      * destruct (at3 sd b i j) as [d|]; [|discriminate].
        destruct (at3 (last_channel rimg) b i j) as [x'|]; [|discriminate].
        simpl in *. injection H1 as <-. injection H2 as <-. reflexivity.
    + rewrite Hmask, at3_map3. destruct (at3 sd b i j); reflexivity.
  - intros d x. unfold valid_pixel. split.
    + apply ltb_lt.
    + rewrite andb_true_iff, !ltb_lt. reflexivity.
  - intros d. unfold valid_pixel. apply andb_false_r.
  - intros d Hd. unfold valid_pixel. apply andb_true_iff. split.
    + apply ltb_lt. assumption.
    + reflexivity.
Qed.

(** The whole warp on finite values: in a warp that returns, a pixel the
    output mask rejects has linear depth zero and every channel of the
    image zero; the image has the channels of the raster less the helper
    ones (the mask channel, and the two uv channels carried for the
    derivatives of an image), each being the raster channel times the
    mask.  Values that are not finite are the matter of [Ieee.composite]. *)
Theorem warp_invalid_pixels_zero ctx depth image mask width height es et ks
  kt near far antialiasing backslash padding return_dr tr0 rimg sd rd tr1
  out tr :
  warp_rasters ctx depth image mask width height es et ks kt near far
    antialiasing backslash padding return_dr tr0
  = (Ok (rimg, sd, rd), tr1) ->
  warp_image_by_depth ctx depth image mask width height es et ks kt near far
    antialiasing backslash padding return_dr tr0 = (Ok out, tr) ->
  (forall b i j,
     at3 (output_mask out) b i j = Some false ->
     (exists v, at3 (output_depth out) b i j = Some v /\ (v == 0)%Q)
     /\ (forall c chans,
           nth_error (output_image out) b = Some chans ->
           (c < length chans)%nat ->
           exists v, at4 (output_image out) b c i j = Some v /\ (v == 0)%Q))
  /\ map (@length _) (output_image out)
     = map (fun chans =>
              length chans
              - helper_channels (given mask) (given image) return_dr) rimg
  /\ (forall b c i j v,
        at4 (output_image out) b c i j = Some v ->
        exists x m,
          at4 rimg b c i j = Some x
          /\ at3 (output_mask out) b i j = Some m
          /\ v = (x * of_bool m)%Q).
Proof.
  intros Hr Hw. apply warp_ok in Hw.
  destruct Hw as (rast & tr1' & Hr' & Hc). rewrite Hr in Hr'.
  injection Hr' as <- <-. apply composite_ok in Hc.
  destruct Hc as (_ & (linear & _ & Hd) & Hi).
  assert (Hpix : forall b c i j,
            (at4 (output_image out) b c i j = None)
            \/ exists x m,
                 at4 (color_channels (given mask) (given image) return_dr
                        rimg) b c i j = Some x
                 /\ at3 (output_mask out) b i j = Some m
                 /\ at4 (output_image out) b c i j
                    = Some (x * of_bool m)%Q).
  { intros b c i j. unfold at4. rewrite !at3_at2.
    destruct (zipM_nth _ _ _ _ Hi b)
      as [(_ & _ & ->)|(chans & m & ochans & -> & -> & -> & Hm)];
      [left; reflexivity|].
    rewrite !at3_at2.
    destruct (mapM_nth _ _ _ Hm c)
      as [(_ & ->)|(ch & och & -> & -> & Hz)]; [left; reflexivity|].
    destruct (zip2_at2 _ _ _ _ Hz i j)
      as [(_ & _ & ->)|(x & y & -> & -> & ->)]; [left; reflexivity|].
    right. exists x, y. repeat split; reflexivity. }
  split; [|split].
  - intros b i j Hfalse. split.
    + destruct (zip3_at3 _ _ _ _ Hd b i j)
        as [(_ & H2 & _)|(x & y & _ & H2 & ->)]; [congruence|].
      exists (x * of_bool y)%Q. split; [reflexivity|].
      rewrite Hfalse in H2. injection H2 as <-. simpl. ring.
    + intros c chans Hb Hc.
      destruct (Hpix b c i j) as [Hnone|(x & m & _ & Hm & ->)].
      * exfalso. revert Hnone. unfold at4.
        unfold T4, T3, T2, T1 in *. rewrite Hb, at3_at2.
        destruct (nth_error chans c) as [och|] eqn:Hoch;
          [|apply nth_error_None in Hoch; lia].
        destruct (zipM_nth _ _ _ _ Hi b)
          as [(_ & _ & Hn)|(chans' & m & ochans & Hx & Hy & Hz' & Hm)];
          [congruence|].
        rewrite Hb in Hz'. injection Hz' as <-.
        destruct (mapM_nth _ _ _ Hm c)
          as [(_ & Hn)|(ch & och' & _ & Hoch' & Hz)]; [congruence|].
        rewrite Hoch in Hoch'. injection Hoch' as <-.
        rewrite at3_at2, Hy in Hfalse.
        destruct (zip2_at2 _ _ _ _ Hz i j)
          as [(_ & Hn & _)|(x & y & _ & _ & ->)]; [congruence|discriminate].
      * exists (x * of_bool m)%Q. split; [reflexivity|].
        rewrite Hfalse in Hm. injection Hm as <-. simpl. ring.
  - rewrite <- color_channels_length.
    eapply zipM_map; [|exact Hi].
    intros chans m ochans Hm. apply (mapM_ok_length _ _ _ Hm).
  - intros b c i j v Hv.
    destruct (Hpix b c i j) as [Hnone|(x & m & Hx & Hm & Ho)];
      [congruence|].
    rewrite Hv in Ho. injection Ho as ->.
    exists x, m. split; [|split; [assumption|reflexivity]].
    eapply color_channels_at. eassumption.
Qed.

(** What [rasterize_vertex_attr] returns as depth is the depth raster of
    the raster nvdiffrast gave. *)
Lemma rasterize_ok ctx vertices faces attr width height model view
  perspective antialiasing diff_attrs tr img depth dr tr' :
  rasterize_vertex_attr ctx vertices faces attr width height model view
    perspective antialiasing diff_attrs tr = (Ok (img, depth, dr), tr') ->
  exists pos_clip rast_out db,
    dr_rasterize (nvd_ctx NvdCtx ctx) pos_clip faces (height, width)
    = Ok (rast_out, db)
    /\ depth = raster_depth rast_out.
Proof.
  intros H. unfold Rast.rasterize_vertex_attr in H. invert_run H.
  exists a2, (fst a3), (snd a3). split.
  - rewrite E3. destruct a3; reflexivity.
  - destruct diff_attrs; apply ret_run in H as [H _]; injection H as _ <- _;
      reflexivity.
Qed.

(** C1, as the code has it: every value of the depth raster that
    rasterize_vertex_attr returns is the remap of the raw clip z of the
    raster pixel it shows; it is 1 when that z is 0 (the miss value), 0 when
    that z is negative, z * 0.5 + 0.5 when that z is positive, and lies in
    [0, 1] whenever that z is at most 1. *)
Theorem rasterize_depth_remap ctx vertices faces attr width height model
  view perspective antialiasing diff_attrs tr img depth dr tr' :
  rasterize_vertex_attr ctx vertices faces attr width height model view
    perspective antialiasing diff_attrs tr = (Ok (img, depth, dr), tr') ->
  forall b i j v,
    at3 depth b i j = Some v ->
    exists pos_clip rast_out db s px,
      dr_rasterize (nvd_ctx NvdCtx ctx) pos_clip faces (height, width)
      = Ok (rast_out, db)
      /\ nth_error rast_out b = Some s
      /\ at3 rast_out b (length s - S i) j = Some px
      /\ v = depth_remap (px_zw px)
      /\ ((px_zw px == 0)%Q -> (v == 1)%Q)
      /\ ((px_zw px < 0)%Q -> (v == 0)%Q)
      /\ ((0 < px_zw px)%Q -> (v == px_zw px * (1 # 2) + (1 # 2))%Q)
      /\ ((px_zw px <= 1)%Q -> (0 <= v)%Q /\ (v <= 1)%Q).
Proof.
  intros H b i j v Hv. apply rasterize_ok in H.
  destruct H as (pos_clip & rast_out & db & Hr & ->).
  apply raster_depth_at in Hv. destruct Hv as (s & px & Hs & _ & Hpx & ->).
  exists pos_clip, rast_out, db, s, px.
  split; [assumption|]. split; [assumption|]. split; [assumption|].
  split; [reflexivity|]. split; [apply depth_remap_zero|].
  split; [apply depth_remap_negative|].
  split; [apply depth_remap_positive|apply depth_remap_range].
Qed.

(** With padding the lattice is built without a look at the mask. *)
Lemma padded_lattice_mask_blind depth image mask width height es ks far
  padding :
  (0 < padding)%Z ->
  build_lattice depth image mask width height es ks far padding
  = build_lattice depth image None width height es ks far padding.
Proof.
  intros Hp. unfold Rast.build_lattice.
  apply Z.ltb_lt in Hp. rewrite Hp. reflexivity.
Qed.

(** Without padding the depth that is unprojected holds the far plane at
    every pixel the mask rejects and the depth map elsewhere, and has a
    value for every pixel. *)
Lemma plain_lattice_far depth image m es ks far tr lat tr' :
  plain_lattice depth image (Some m) es ks far tr = (Ok lat, tr') ->
  unprojected_depths Mat tr' =
  unprojected_depths Mat tr ++ [map (@concat Q) (lat_depth lat)]
  /\ forall b i j,
       at3 (lat_depth lat) b i j =
       match at3 m b i j, at3 depth b i j with
       | Some valid, Some d => Some (if valid then d else far)
       | _, _ => None
       end.
Proof.
  intros H. apply plain_lattice_ok in H.
  destruct H as (mesh & _ & Hw & _ & _ & _ & _ & ->). split.
  - clear. induction tr as [|ev tr IH]; [reflexivity|].
    destruct ev; simpl; rewrite IH; reflexivity.
  - intros b i j. unfold where_far in Hw.
    destruct (zip3_at3 _ _ _ _ Hw b i j)
      as [(-> & _ & ->)|(x & y & -> & -> & ->)]; reflexivity.
Qed.

End Stages.

(** C9: a pre-built context is stored whatever the backend name and the
    backends are; without one, a backend name other than gl and cuda makes
    the construction raise, whatever the backends would do. *)
Theorem RastContext_init_backend (NvdCtx Device : Type)
  (RasterizeGLContext RasterizeCudaContext : option Device -> result NvdCtx)
  (backend : string) (device : option Device) :
  (forall c,
     RastContext_init NvdCtx Device RasterizeGLContext RasterizeCudaContext
       (Some c) backend device = Ok {| nvd_ctx := c |})
  /\ (backend <> "gl" -> backend <> "cuda" ->
      RastContext_init NvdCtx Device RasterizeGLContext RasterizeCudaContext
        None backend device
      = Err (ValueError ("Unknown backend: " ++ backend))).
Proof.
  split; [reflexivity|]. intros Hgl Hcuda. unfold RastContext_init.
  destruct (String.eqb_spec backend "gl"); [contradiction|].
  destruct (String.eqb_spec backend "cuda"); [contradiction|].
  reflexivity.
Qed.

End StageFacts.

(** ** The pipeline on the grid rasterizer *)

Module RastExamples.
Import Tensor Rast StageFacts.

Lemma run_of_fst {A B : Type} (x : A * B) (r : A) :
  fst x = r -> x = (r, snd x).
Proof. intros <-. apply surjective_pairing. Qed.

Lemma ok_run {A B : Type} (x : result A * B) :
  is_ok (fst x) = true -> exists a, x = (Ok a, snd x).
Proof.
  destruct x as [[a|e] tr]; simpl; intros H; [|discriminate H].
  exists a. reflexivity.
Qed.

Lemma sample_rasters :
  fst (Demo.rasters Demo.sample_depth None (Some Demo.sample_mask) (Some tt)
         None (1 # 10) 100 false 0 false)
  = Ok (Demo.sample_rimg, Demo.sample_sd, None).
Proof. vm_compute. reflexivity. Qed.

Lemma sample_warp :
  fst (Demo.warp Demo.sample_depth None (Some Demo.sample_mask) (Some tt)
         None (1 # 10) 100 false 0 false)
  = Ok Demo.sample_out.
Proof. vm_compute. reflexivity. Qed.

Lemma sample_shape : has_shape 1 2 (last_channel Demo.sample_rimg).
Proof. repeat constructor. Qed.

(** The miss value 0 is not positive, and its depth is 1, not 0. *)
Lemma nonpositive_depth_counterexample :
  (px_zw Demo.miss <= 0)%Q
  /\ at3 (raster_depth [[[Demo.miss]]]) 0 0 0
     = Some (depth_remap (px_zw Demo.miss))
  /\ ~ (depth_remap (px_zw Demo.miss) == 0)%Q.
Proof.
  split; [discriminate|]. split; [reflexivity|]. discriminate.
Qed.

Lemma rasterize_depth_remap_witness :
  fst (Demo.rasterize [[[0; 0; 5]; [0; 0; 0]; [0; 0; -8]; [0; 0; 12]]]%Q
         [[[1]; [2]; [3]; [4]]]%Q 2 2)
  = Ok ([[[[1; 2]; [3; 4]]]]%Q,
        [[[26 # 32; 32 # 32]; [0 # 32; 40 # 32]]]%Q, None)
  /\ exists px,
       (32 # 32)%Q = depth_remap (px_zw px)
       /\ ((px_zw px == 0)%Q -> (32 # 32 == 1)%Q).
Proof.
  assert (H : fst (Demo.rasterize
                     [[[0; 0; 5]; [0; 0; 0]; [0; 0; -8]; [0; 0; 12]]]%Q
                     [[[1]; [2]; [3]; [4]]]%Q 2 2)
              = Ok ([[[[1; 2]; [3; 4]]]]%Q,
                    [[[26 # 32; 32 # 32]; [0 # 32; 40 # 32]]]%Q, None))
    by (vm_compute; reflexivity).
  split; [exact H|].
  destruct (rasterize_depth_remap unit tt (fun _ _ => Ok tt)
              (fun v _ => Ok v) unit unit Demo.dr_rasterize
              Demo.dr_interpolate Demo.dr_antialias Demo.ctx
              [[[0; 0; 5]; [0; 0; 0]; [0; 0; -8]; [0; 0; 12]]]%Q []
              [[[1]; [2]; [3]; [4]]]%Q 2%Z 2%Z None None None false None []
              _ _ _ _ (run_of_fst _ _ H) 0 0 1 (32 # 32)%Q eq_refl)
    as (_ & _ & _ & _ & px & _ & _ & _ & Hv & Hz & _).
  exists px. split; assumption.
Defined.

Lemma warp_output_mask_witness :
  at3 (output_mask Demo.sample_out) 0 0 1
  = Some (valid_pixel true (32 # 32) 1).
Proof.
  exact (proj1 (warp_output_mask unit tt (fun _ _ => Ok tt)
                  (fun v _ => Ok v) unit unit Demo.dr_rasterize
                  Demo.dr_interpolate Demo.dr_antialias (fun e => Ok e)
                  (fun k _ _ => Ok k) Demo.image_mesh Demo.unproject_cv
                  Demo.triangulate Demo.linearize_depth Demo.ctx
                  Demo.sample_depth None (Some Demo.sample_mask) None None
                  None None (Some tt) None (1 # 10)%Q 100%Q false false 0%Z
                  false [] Demo.sample_rimg Demo.sample_sd None _
                  Demo.sample_out _
                  (run_of_fst _ _ sample_rasters)
                  (run_of_fst _ _ sample_warp)
                  (fun _ => sample_shape)) 0 0 1).
Defined.

Lemma warp_invalid_pixels_zero_witness :
  at3 (output_mask Demo.sample_out) 0 0 1 = Some false
  /\ exists v, at3 (output_depth Demo.sample_out) 0 0 1 = Some v
               /\ (v == 0)%Q.
Proof.
  split; [reflexivity|].
  exact (proj1 (proj1 (warp_invalid_pixels_zero unit tt (fun _ _ => Ok tt)
                  (fun v _ => Ok v) unit unit Demo.dr_rasterize
                  Demo.dr_interpolate Demo.dr_antialias (fun e => Ok e)
                  (fun k _ _ => Ok k) Demo.image_mesh Demo.unproject_cv
                  Demo.triangulate Demo.linearize_depth Demo.ctx
                  Demo.sample_depth None (Some Demo.sample_mask) None None
                  None None (Some tt) None (1 # 10)%Q 100%Q false false 0%Z
                  false [] Demo.sample_rimg Demo.sample_sd None _
                  Demo.sample_out _
                  (run_of_fst _ _ sample_rasters)
                  (run_of_fst _ _ sample_warp)) 0 0 1 eq_refl)).
Defined.

Lemma warp_triangulation_mode_witness :
  triangulation_policy unit Demo.unproject_cv 1 false
    (snd (Demo.warp Demo.sample_depth None (Some Demo.sample_mask) (Some tt)
            None (1 # 10) 100 false 0 false))
  /\ exists faces v b,
       In (call_triangulate unit faces v b)
         (snd (Demo.warp Demo.sample_depth None (Some Demo.sample_mask)
                 (Some tt) None (1 # 10) 100 false 0 false)).
Proof.
  destruct (warp_triangulation_mode unit tt (fun _ _ => Ok tt)
              (fun v _ => Ok v) unit unit Demo.dr_rasterize
              Demo.dr_interpolate Demo.dr_antialias (fun e => Ok e)
              (fun k _ _ => Ok k) Demo.image_mesh Demo.unproject_cv
              Demo.triangulate Demo.linearize_depth Demo.ctx
              Demo.sample_depth None (Some Demo.sample_mask) None None
              None None (Some tt) None (1 # 10)%Q 100%Q false false 0%Z
              false _ _ (run_of_fst _ _ sample_warp)) as [Hp Hc].
  split; [exact Hp|]. apply Hc. reflexivity.
Defined.

Lemma RastContext_init_backend_witness :
  RastContext_init unit unit (fun _ => Ok tt) (fun _ => Ok tt) None "vulkan"
    None
  = Err (ValueError "Unknown backend: vulkan").
Proof.
  apply (proj2 (RastContext_init_backend unit unit (fun _ => Ok tt)
                  (fun _ => Ok tt) "vulkan" None)); discriminate.
Defined.

(** C2 at padding 1: the pixel the mask rejects is unprojected, with the
    padding around it, at its own depth 5 and not at the far plane 100;
    without padding the same call unprojects it at 100. *)
Theorem padded_warp_keeps_masked_depth :
  unprojected_depths unit
    (snd (Demo.warp [[[5]]]%Q None (Some [[[false]]]) (Some tt) None
            (1 # 10) 100 false 1 false))
  = [[[5; 5; 5; 5; 5; 5; 5; 5; 5]]]%Q
  /\ unprojected_depths unit
       (snd (Demo.warp [[[5]]]%Q None (Some [[[false]]]) (Some tt) None
               (1 # 10) 100 false 0 false))
     = [[[100]]]%Q.
Proof. split; vm_compute; reflexivity. Qed.

Lemma cam_run_src :
  is_ok (fst (CamDemo.warp [[[5; 3]]]%Q (Some 7%Z) None)) = true.
Proof. vm_compute. reflexivity. Qed.

Lemma cam_run_tgt :
  is_ok (fst (CamDemo.warp [[[5; 3]]]%Q None (Some 7%Z))) = true.
Proof. vm_compute. reflexivity. Qed.

Lemma warp_intrinsics_default_witness :
  In (call_intrinsics_to_perspective Z 7%Z (1 # 10) 100)
    (snd (CamDemo.warp [[[5; 3]]]%Q (Some 7%Z) None))
  /\ exists uv d,
       In (call_unproject_cv Z uv d 1%Z 7%Z)
         (snd (CamDemo.warp [[[5; 3]]]%Q None (Some 7%Z))).
Proof.
  destruct (ok_run _ cam_run_src) as [o1 H1].
  destruct (ok_run _ cam_run_tgt) as [o2 H2].
  destruct (warp_intrinsics_default Z 1%Z (fun a b => Ok (a * b)%Z)
              (fun v _ => Ok v) unit unit Demo.dr_rasterize
              Demo.dr_interpolate Demo.dr_antialias (fun e => Ok e)
              (fun k _ _ => Ok k) Demo.image_mesh CamDemo.unproject_cv
              Demo.triangulate Demo.linearize_depth Demo.ctx
              [[[5; 3]]]%Q None None None None None None (1 # 10)%Q 100%Q
              false false 0%Z false) as (_ & Hlog & _).
  split.
  - exact (proj1 (Hlog 7%Z (Some 7%Z) None [] o1 _ (or_introl eq_refl) H1)).
  - exact (proj2 (Hlog 7%Z None (Some 7%Z) [] o2 _ (or_intror eq_refl) H2)).
Defined.

End RastExamples.

(** ** The last stage on values that need not be finite *)

Module IeeeFacts.
Import Tensor Rast TensorFacts Ieee.





Section CompositeFacts.

Variable linearize_depth : X3 -> Q -> Q -> result X3.

Local Notation "'composite'" := (Ieee.composite linearize_depth).



End CompositeFacts.

(** *** The pipeline is the finite case *)

Lemma zipM_rmap {A A' B C C' : Type} (g : A -> B -> result C)
  (g' : A' -> B -> result C') (f : A -> A') (h : C -> C') xs ys :
  (forall x y, g' (f x) y = rmap h (g x y)) ->
  zipM g' (map f xs) ys = rmap (map h) (zipM g xs ys).
Proof.
  intros Hg. revert ys.
  induction xs as [|x xs IH]; intros [|y ys]; simpl; try reflexivity.
  rewrite Hg. destruct (g x y) as [z|]; simpl; [|reflexivity].
  rewrite IH. destruct (zipM g xs ys); reflexivity.
Qed.

Lemma mapM_rmap {A A' C C' : Type} (g : A -> result C)
  (g' : A' -> result C') (f : A -> A') (h : C -> C') xs :
  (forall x, g' (f x) = rmap h (g x)) ->
  mapM g' (map f xs) = rmap (map h) (mapM g xs).
Proof.
  intros Hg. induction xs as [|x xs IH]; simpl; [reflexivity|].
  rewrite Hg. destruct (g x) as [z|]; simpl; [|reflexivity].
  rewrite IH. destruct (mapM g xs); reflexivity.
Qed.

Lemma zip2_mul_finite (ch : T2) (m : list (list bool)) :
  zip2 mul_mask (map2 fin ch) m
  = rmap (map2 fin) (zip2 (fun x (b : bool) => (x * of_bool b)%Q) ch m).
Proof.
  unfold zip2, map2. apply zipM_rmap. intros row ms.
  unfold zip1. apply zipM_rmap. reflexivity.
Qed.

Lemma zip3_mul_finite (t : T3) (m : B3) :
  zip3 mul_mask (embed3 t) m
  = rmap embed3 (zip3 (fun x (b : bool) => (x * of_bool b)%Q) t m).
Proof.
  unfold zip3, embed3, map3. apply zipM_rmap. intros s ms.
  apply zip2_mul_finite.
Qed.

Lemma image_mul_finite (image : T4) (m : B3) :
  zipM (fun chans m => mapM (fun ch => zip2 mul_mask ch m) chans)
    (embed4 image) m
  = rmap embed4
      (zipM (fun chans m =>
               mapM (fun ch =>
                 zip2 (fun x (b : bool) => (x * of_bool b)%Q) ch m) chans)
         image m).
Proof.
  unfold embed4. apply zipM_rmap. intros chans ms.
  unfold embed3, map3. apply mapM_rmap. intros ch. apply zip2_mul_finite.
Qed.

Lemma map3_map3 {A B C : Type} (f : A -> B) (g : B -> C) t :
  map3 g (map3 f t) = map3 (fun x => g (f x)) t.
Proof.
  unfold map3, map2. rewrite map_map. apply map_ext. intros s.
  rewrite map_map. apply map_ext. intros r. apply map_map.
Qed.

Lemma last_map' {A B : Type} (g : A -> B) (l : list A) d :
  last (map g l) (g d) = g (last l d).
Proof.
  induction l as [|a l IH]; [reflexivity|].
  destruct l as [|b l]; [reflexivity|]. exact IH.
Qed.

Lemma removelast_map' {A B : Type} (g : A -> B) (l : list A) :
  removelast (map g l) = map g (removelast l).
Proof.
  induction l as [|a l IH]; [reflexivity|].
  destruct l as [|b l]; [reflexivity|].
  change (g a :: removelast (map g (b :: l))
          = g a :: map g (removelast (b :: l))).
  f_equal. exact IH.
Qed.

Lemma split_last_map {A B : Type} (g : A -> B) (chans : list A) :
  split_last (map g chans)
  = rmap (fun p => (map g (fst p), g (snd p))) (split_last chans).
Proof.
  destruct chans as [|c chans]; [reflexivity|].
  unfold split_last, rmap. simpl map at 1. cbv iota. simpl fst. simpl snd.
  change (g c :: map g chans) with (map g (c :: chans)).
  rewrite removelast_map', last_map'. reflexivity.
Qed.

Lemma drop_last2_map {A B : Type} (g : A -> B) (chans : list A) :
  drop_last2 (map g chans) = map g (drop_last2 chans).
Proof. unfold drop_last2. rewrite length_map. apply firstn_map. Qed.

Lemma split_embed (rimg : T4) :
  mapM split_last (embed4 rimg)
  = rmap (map (fun p => (embed3 (fst p), map2 fin (snd p))))
      (mapM split_last rimg).
Proof.
  unfold embed4. apply mapM_rmap. intros chans. unfold embed3, map3.
  apply split_last_map.
Qed.

Section Finite.

Variable Mat : Type.
Variable lin : T3 -> Q -> Q -> result T3.
Variable linearize_depth : X3 -> Q -> Q -> result X3.

(** On rasters of finite values, with a [linearize_depth] that keeps them
    finite, the last stage read on floats returns what the last stage of
    the pipeline returns. *)
Lemma composite_finite mg ig rdr width height near far rimg sd rd tr :
  (forall t, linearize_depth (embed3 t) near far
             = rmap embed3 (lin t near far)) ->
  Ieee.composite linearize_depth mg ig rdr width height near far
    (embed4 rimg, embed3 sd, option_map embed4 rd)
  = rmap embed_out
      (fst (Rast.composite Mat lin mg ig rdr width height near far
              (rimg, sd, rd) tr)).
Proof.
  intros Hlin. unfold Ieee.composite, Rast.composite, rbind, bind, lift,
    call, ret. simpl fst. simpl snd.
  assert (Hm0 : map3 (fun d => lt_const d 1) (embed3 sd)
                = map3 (fun d => ltb d 1) sd).
  { unfold embed3. apply map3_map3. }
  assert (Hparts : forall parts : list (T3 * T2),
            map3 (fun x => gt_const x (9999 # 10000))
              (map snd (map (fun p => (embed3 (fst p), map2 fin (snd p)))
                          parts))
            = map3 (fun x => ltb (9999 # 10000) x) (map snd parts)).
  { intros parts. rewrite map_map. simpl snd. unfold map3.
    rewrite !map_map. apply map_ext. intros p. unfold map2.
    rewrite map_map. apply map_ext. intros r. rewrite map_map.
    reflexivity. }
  assert (Hfst : forall parts : list (T3 * T2),
            map fst (map (fun p => (embed3 (fst p), map2 fin (snd p)))
                       parts)
            = embed4 (map fst parts)).
  { intros parts. unfold embed4. rewrite !map_map. reflexivity. }
  assert (Hdrop : forall im : T4,
            map drop_last2 (embed4 im) = embed4 (map drop_last2 im)).
  { intros im. unfold embed4. rewrite !map_map. apply map_ext.
    intros chans. unfold embed3, map3. apply drop_last2_map. }
  assert (Htail : forall (dr : option T4) (im : T4) (mask1 : B3) tr',
            match linearize_depth (embed3 sd) near far with
            | Ok linear =>
                match zip3 mul_mask linear mask1 with
                | Ok depth =>
                    match zipM (fun chans m =>
                                  mapM (fun ch => zip2 mul_mask ch m) chans)
                            (embed4 im) mask1 with
                    | Ok image =>
                        Ok {| out_image := image; out_depth := depth;
                              out_mask := mask1;
                              out_dr := option_map embed4 dr |}
                    | Err e => Err e
                    end
                | Err e => Err e
                end
            | Err e => Err e
            end
            = rmap embed_out
                (@fst (result Warped) (list (Call Mat))
                   match lin sd near far with
                   | Ok linear =>
                       match zip3 (fun x (m : bool) => (x * of_bool m)%Q)
                               linear mask1 with
                       | Ok depth =>
                           match zipM (fun chans m =>
                                    mapM (fun ch =>
                                      zip2 (fun x (b : bool) =>
                                              (x * of_bool b)%Q) ch m)
                                      chans) im mask1 with
                           | Ok image =>
                               (Ok {| output_image := image;
                                      output_depth := depth;
                                      output_mask := mask1;
                                      output_dr := dr |}, tr')
                           | Err e => (Err e, tr')
                           end
                       | Err e => (Err e, tr')
                       end
                   | Err e => (Err e, tr')
                   end)).
  { intros dr im mask1 tr'. rewrite Hlin.
    destruct (lin sd near far) as [linear|]; simpl rmap; cbv iota;
      [|reflexivity].
    rewrite zip3_mul_finite.
    destruct (zip3 _ linear mask1) as [depth|]; simpl rmap; cbv iota;
      [|reflexivity].
    rewrite image_mul_finite.
    match goal with
    | |- context [rmap embed4 ?z] => destruct z as [image|]; reflexivity
    end. }
  rewrite Hm0. unfold T4, T3, T2, T1, X4, X3 in *.
  destruct rdr, rd as [d|]; simpl option_map; cbv iota; try reflexivity.
  - destruct mg.
    + rewrite split_embed. unfold T4, T3, T2, T1, X4, X3 in *.
      destruct (mapM split_last rimg) as [parts|]; simpl rmap; cbv iota;
        [|reflexivity].
      rewrite Hparts.
      destruct (reshape3 height width _) as [m|]; [|reflexivity].
      destruct (zip3 andb _ m) as [mask1|]; [|reflexivity].
      simpl fst. simpl snd. rewrite Hfst.
      destruct ig; simpl andb; cbv iota; rewrite ?Hdrop;
        apply (Htail (Some d)).
    + simpl fst. simpl snd.
      destruct ig; simpl andb; cbv iota; rewrite ?Hdrop;
        apply (Htail (Some d)).
  - destruct mg.
    + rewrite split_embed. unfold T4, T3, T2, T1, X4, X3 in *.
      destruct (mapM split_last rimg) as [parts|]; simpl rmap; cbv iota;
        [|reflexivity].
      rewrite Hparts.
      destruct (reshape3 height width _) as [m|]; [|reflexivity].
      destruct (zip3 andb _ m) as [mask1|]; [|reflexivity].
      simpl fst. simpl snd. rewrite Hfst. apply (Htail None).
    + simpl fst. simpl snd. apply (Htail None).
Qed.

End Finite.

End IeeeFacts.

(** ** The last stage on the rasters with NaN *)

Module IeeeExamples.
Import Tensor Rast Ieee IeeeFacts.




End IeeeExamples.

(** ** More on [read_obj] *)

Module ObjExtra.
Import PyStr PyStrFacts Obj ObjFacts ObjExt.

Section ReadObjExtra.

Variable F : Type.
Variable float : string -> result F.

Local Notation "'step'" := (Obj.step F float).
Local Notation "'read_obj'" := (Obj.read_obj F float).

Lemma merge_empty_r (a : obj F) : merge F a (empty_obj F) = a.
Proof.
  destruct a. unfold merge. simpl. rewrite !app_nil_r. reflexivity.
Qed.

Lemma shift_shift n m g : shift n (shift m g) = shift (n + m) g.
Proof. unfold shift. simpl. rewrite Nat.add_assoc. reflexivity. Qed.

Lemma merge_assoc (a b c : obj F) :
  merge F (merge F a b) c = merge F a (merge F b c).
Proof.
  assert (Hs : forall n m (l1 l2 : list group),
            map (shift n) (l1 ++ map (shift m) l2)
            = map (shift n) l1 ++ map (shift (n + m)) l2).
  { intros n m l1 l2. rewrite map_app, map_map. f_equal.
    apply map_ext. intros g. apply shift_shift. }
  unfold merge. simpl. rewrite !length_app, !Hs, <- !app_assoc.
  reflexivity.
Qed.

(** One iteration from any accumulators is the iteration from empty ones,
    joined to them. *)
Lemma step_merge ign st line :
  step ign st line =
  match step ign (empty_obj F) line with
  | Ok d => Ok (merge F st d)
  | Err e => Err e
  end.
Proof.
  unfold Obj.step. destruct (tokens line) as [|kw args]; [reflexivity|].
  repeat match goal with
  | |- context [if String.eqb kw ?k then _ else _] =>
      destruct (String.eqb kw k)
  end;
  repeat match goal with
  | |- context [py_assert ?b ?m] => destruct (py_assert b m)
  | |- context [mapM ?g args] => destruct (mapM g args)
  | |- context [second ?l] => destruct (second l)
  end;
  try reflexivity;
  try (destruct st; unfold merge, shift; simpl;
       rewrite ?app_nil_r, ?Nat.add_0_r; reflexivity).
  destruct kw as [|c k]; [reflexivity|].
  destruct (Ascii.eqb c "#"), ign; try reflexivity;
    rewrite merge_empty_r; reflexivity.
Qed.

Lemma foldM_merge ign lines : forall st,
  foldM (step ign) st lines =
  match foldM (step ign) (empty_obj F) lines with
  | Ok d => Ok (merge F st d)
  | Err e => Err e
  end.
Proof.
  induction lines as [|l ls IH]; intros st; simpl.
  - rewrite merge_empty_r. reflexivity.
  - rewrite (step_merge ign st l).
    destruct (step ign (empty_obj F) l) as [d1|e]; [|reflexivity].
    rewrite (IH (merge F st d1)), (IH d1).
    destruct (foldM (step ign) (empty_obj F) ls) as [d2|e]; [|reflexivity].
    rewrite merge_assoc. reflexivity.
Qed.

(** X1: reading two files one after the other: read_obj on the lines of the
    first followed by the lines of the second raises what the first raises,
    else what the second raises, else returns the two dictionaries joined,
    the face counts of the groups of the second moved by the number of
    faces of the first. *)
Theorem read_obj_app (ign : bool) (l1 l2 : list string) :
  read_obj ign (l1 ++ l2) =
  match read_obj ign l1 with
  | Ok a =>
      match read_obj ign l2 with
      | Ok d => Ok (merge F a d)
      | Err e => Err e
      end
  | Err e => Err e
  end.
Proof.
  unfold Obj.read_obj. rewrite foldM_app.
  destruct (foldM (step ign) (empty_obj F) l1) as [a|e]; [|reflexivity].
  apply foldM_merge.
Qed.

(** On a comment line the loop body does nothing. *)
Lemma step_comment ign st line rest args :
  tokens line = String "#" rest :: args -> step ign st line = Ok st.
Proof. intros Ht. unfold Obj.step. rewrite Ht. reflexivity. Qed.

(** X2: a line whose first token begins with # is skipped, whatever comes
    after the # and whatever the ignore_unknown flag: the file reads as the
    file without the line. *)
Theorem read_obj_comment_skipped (ign : bool) (l1 l2 : list string)
  (line rest : string) (args : list string) :
  tokens line = String "#" rest :: args ->
  read_obj ign (l1 ++ line :: l2) = read_obj ign (l1 ++ l2).
Proof.
  intros Ht. unfold Obj.read_obj. rewrite !foldM_app.
  destruct (foldM (step ign) (empty_obj F) l1) as [st|]; [|reflexivity].
  simpl. rewrite (step_comment ign st line rest args Ht). reflexivity.
Qed.

(** X3: a file read with ignore_unknown off reads the same with it on. *)
Theorem read_obj_flag_monotone (lines : list string) (o : obj F) :
  read_obj false lines = Ok o -> read_obj true lines = Ok o.
Proof.
  unfold Obj.read_obj. generalize (empty_obj F) as st.
  induction lines as [|l ls IH]; intros st H; simpl in *; [assumption|].
  destruct (step false st l) as [st1|] eqn:Hs; [|discriminate].
  assert (Ht : step true st l = Ok st1).
  { revert Hs. unfold Obj.step.
    destruct (tokens l) as [|kw args]; [discriminate|].
    repeat match goal with
    | |- context [if String.eqb kw ?k then _ else _] =>
        destruct (String.eqb kw k)
    end; try (intros Hs; exact Hs).
    destruct kw as [|c k]; [discriminate|].
    destruct (Ascii.eqb c "#"); [intros Hs; exact Hs|discriminate]. }
  rewrite Ht. apply IH. assumption.
Qed.

Ltac ok_branches H :=
  repeat match type of H with
  | match ?m with Ok _ => _ | Err _ => _ end = Ok _ =>
      let E := fresh "E" in destruct m eqn:E; [|discriminate H]
  end;
  try (injection H as <-).

(** What one iteration does to the three lists of groups. *)
Lemma step_groups ign st line st' :
  step ign st line = Ok st' ->
  let entry k :=
    if is_kw k line
    then [{| name := group_name line; f_count := length (obj_f st) |}]
    else [] in
  obj_usemtl st' = obj_usemtl st ++ entry "usemtl"
  /\ obj_o st' = obj_o st ++ entry "o"
  /\ obj_s st' = obj_s st ++ entry "s".
Proof.
  intros H. unfold is_kw, group_name.
  destruct (tokens line) as [|kw args] eqn:Ht;
    [rewrite (step_blank F float ign st line Ht) in H; discriminate|].
  unfold Obj.step in H. rewrite Ht in H.
  repeat match type of H with
  | context [String.eqb kw ?k] =>
      destruct (String.eqb_spec kw k); [subst kw|]
  end; simpl String.eqb; ok_branches H; simpl;
    rewrite ?app_nil_r; try (repeat split; reflexivity).
  - destruct args as [|nm args]; [discriminate|]. injection E0 as <-.
    repeat split; reflexivity.
  - destruct args as [|nm args]; [discriminate|]. injection E0 as <-.
    repeat split; reflexivity.
  - destruct args as [|nm args]; [discriminate|]. injection E as <-.
    repeat split; reflexivity.
  - destruct (String.eqb_spec kw "usemtl"); [contradiction|].
    destruct (String.eqb_spec kw "o"); [contradiction|].
    destruct (String.eqb_spec kw "s"); [contradiction|].
    destruct kw as [|c k]; [discriminate|].
    destruct (Ascii.eqb c "#");
      [injection H as <-; repeat split; reflexivity|].
    destruct ign; [injection H as <-|discriminate].
    repeat split; reflexivity.
Qed.

Lemma fold_face_count ign lines : forall st st',
  foldM (step ign) st lines = Ok st' ->
  length (obj_f st') = length (obj_f st) + length (filter (is_kw "f") lines).
Proof.
  intros st st' H.
  destruct (fold_faces F float ign lines st st' H) as (faces & Hm & ->).
  rewrite length_app. f_equal. apply (mapM_length _ _ _ Hm).
Qed.

(** The groups of one kind grow by one entry per line of that kind. *)
Lemma fold_group_count (proj : obj F -> list group) (k : string) :
  (forall ign st line st',
     step ign st line = Ok st' ->
     proj st' = proj st ++
       (if is_kw k line
        then [{| name := group_name line; f_count := length (obj_f st) |}]
        else [])) ->
  forall ign lines st st',
    foldM (step ign) st lines = Ok st' ->
    exists gs, proj st' = proj st ++ gs
               /\ length gs = length (filter (is_kw k) lines).
Proof.
  intros Hstep ign lines. induction lines as [|l ls IH]; intros st st' H;
    simpl in H.
  - injection H as <-. exists []. rewrite app_nil_r. split; reflexivity.
  - destruct (step ign st l) as [st1|] eqn:Hs; [|discriminate].
    apply Hstep in Hs. destruct (IH _ _ H) as (gs & Hg & Hl).
    rewrite Hg, Hs, <- app_assoc. eexists. split; [reflexivity|].
    simpl. destruct (is_kw k l); simpl; rewrite Hl; reflexivity.
Qed.

Lemma group_at (proj : obj F -> list group) (k : string) :
  (forall ign st line st',
     step ign st line = Ok st' ->
     proj st' = proj st ++
       (if is_kw k line
        then [{| name := group_name line; f_count := length (obj_f st) |}]
        else [])) ->
  proj (empty_obj F) = [] ->
  forall ign l1 line l2 o,
    read_obj ign (l1 ++ line :: l2) = Ok o ->
    is_kw k line = true ->
    nth_error (proj o) (length (filter (is_kw k) l1))
    = Some {| name := group_name line;
              f_count := length (filter (is_kw "f") l1) |}.
Proof.
  intros Hstep Hempty ign l1 line l2 o H Hk. unfold Obj.read_obj in H.
  rewrite foldM_app in H.
  destruct (foldM (step ign) (empty_obj F) l1) as [o1|] eqn:H1;
    [|discriminate].
  simpl in H. destruct (step ign o1 line) as [o1'|] eqn:Hs; [|discriminate].
  destruct (fold_group_count proj k Hstep _ _ _ _ H1) as (g1 & Hg1 & Hl1).
  destruct (fold_group_count proj k Hstep _ _ _ _ H) as (g2 & Hg2 & _).
  apply Hstep in Hs. rewrite Hk in Hs.
  pose proof (fold_face_count _ _ _ _ H1) as Hf. simpl in Hf.
  rewrite Hempty in Hg1. simpl in Hg1.
  rewrite Hg2, Hs, Hg1, Hf, <- Hl1, <- app_assoc.
  rewrite nth_error_app2 by lia. rewrite Nat.sub_diag. reflexivity.
Qed.

(** X4: each usemtl, o and s entry holds the name on its line and, as f, the
    number of f lines before that line: in a file that reads, the entry of
    the n-th usemtl line (n-th o line, n-th s line) is at place n of its
    list. *)
Theorem read_obj_group_counts (ign : bool) (l1 l2 : list string)
  (line : string) (o : obj F) :
  read_obj ign (l1 ++ line :: l2) = Ok o ->
  let entry :=
    {| name := group_name line;
       f_count := length (filter (is_kw "f") l1) |} in
  (is_kw "usemtl" line = true ->
   nth_error (obj_usemtl o) (length (filter (is_kw "usemtl") l1))
   = Some entry)
  /\ (is_kw "o" line = true ->
      nth_error (obj_o o) (length (filter (is_kw "o") l1)) = Some entry)
  /\ (is_kw "s" line = true ->
      nth_error (obj_s o) (length (filter (is_kw "s") l1)) = Some entry).
Proof.
  intros H entry. split; [|split]; intros Hk.
  - apply (group_at (@obj_usemtl F) "usemtl") with (ign := ign) (l2 := l2);
      [|reflexivity|assumption|assumption].
    intros ign' st l st' Hs. apply (step_groups ign' st l st' Hs).
  - apply (group_at (@obj_o F) "o") with (ign := ign) (l2 := l2);
      [|reflexivity|assumption|assumption].
    intros ign' st l st' Hs. apply (step_groups ign' st l st' Hs).
  - apply (group_at (@obj_s F) "s") with (ign := ign) (l2 := l2);
      [|reflexivity|assumption|assumption].
    intros ign' st l st' Hs. apply (step_groups ign' st l st' Hs).
Qed.

Lemma foldM_invariant {A S : Type} (stp : S -> A -> result S)
  (Inv : S -> Prop) :
  (forall st x st', Inv st -> stp st x = Ok st' -> Inv st') ->
  forall xs st st', Inv st -> foldM stp st xs = Ok st' -> Inv st'.
Proof.
  intros Hstep. induction xs as [|x xs IH]; intros st st' Hinv H; simpl in H.
  - injection H as <-. assumption.
  - destruct (stp st x) as [st1|] eqn:Hs; [|discriminate].
    eapply IH; [|exact H]. eapply Hstep; eassumption.
Qed.

Lemma step_rows ign st line st' :
  rows_well_sized F st -> step ign st line = Ok st' ->
  rows_well_sized F st'.
Proof.
  intros (Hv & Hvt & Hvn & Hvp) H.
  destruct (tokens line) as [|kw args] eqn:Ht;
    [rewrite (step_blank F float ign st line Ht) in H; discriminate|].
  unfold Obj.step in H. rewrite Ht in H. unfold rows_well_sized.
  repeat match type of H with
  | context [String.eqb kw ?k] =>
      destruct (String.eqb_spec kw k); [subst kw|]
  end; ok_branches H; simpl;
    try (repeat split; assumption).
  - unfold py_assert, len_between in E.
    destruct (_ && _) eqn:Hb in E; [|discriminate].
    apply andb_prop in Hb as [Hlo Hhi].
    apply Nat.leb_le in Hlo, Hhi. simpl in Hlo, Hhi.
    apply mapM_length in E0.
    repeat split; try assumption. apply Forall_app. split; [assumption|].
    constructor; [lia|constructor].
  - unfold py_assert, len_between in E.
    destruct (_ && _) eqn:Hb in E; [|discriminate].
    apply andb_prop in Hb as [Hlo Hhi].
    apply Nat.leb_le in Hlo, Hhi. simpl in Hlo, Hhi.
    apply mapM_length in E0.
    repeat split; try assumption. apply Forall_app. split; [assumption|].
    constructor; [lia|constructor].
  - unfold py_assert in E.
    destruct (_ =? _)%nat eqn:Hb in E; [|discriminate].
    apply Nat.eqb_eq in Hb. simpl in Hb. apply mapM_length in E0.
    repeat split; try assumption. apply Forall_app. split; [assumption|].
    constructor; [lia|constructor].
  - unfold py_assert, len_between in E.
    destruct (_ && _) eqn:Hb in E; [|discriminate].
    apply andb_prop in Hb as [Hlo Hhi].
    apply Nat.leb_le in Hlo, Hhi. simpl in Hlo, Hhi.
    apply mapM_length in E0.
    repeat split; try assumption. apply Forall_app. split; [assumption|].
    constructor; [lia|constructor].
  - destruct kw as [|c k]; [discriminate|].
    destruct (Ascii.eqb c "#"); [injection H as <-; repeat split; assumption|].
    destruct ign; [injection H as <-; repeat split; assumption|discriminate].
Qed.

(** X5: in a file that reads, every v row has 3 or 4 numbers, every vn row
    has 3, and every vt and vp row has 1 to 3. *)
Theorem read_obj_rows_well_sized (ign : bool) (lines : list string)
  (o : obj F) :
  read_obj ign lines = Ok o -> rows_well_sized F o.
Proof.
  unfold Obj.read_obj.
  apply (foldM_invariant (step ign) (rows_well_sized F)).
  - intros st x st'. apply step_rows.
  - repeat split; constructor.
Qed.

Lemma mapM_Forall {A B : Type} (g : A -> result B) (P : B -> Prop) xs ys :
  (forall x y, g x = Ok y -> P y) -> mapM g xs = Ok ys -> Forall P ys.
Proof.
  intros Hg. revert ys. induction xs as [|x xs IH]; intros ys H; simpl in H.
  - injection H as <-. constructor.
  - destruct (g x) as [y|] eqn:E; [|discriminate].
    destruct (mapM g xs) as [ys'|]; [|discriminate].
    injection H as <-. constructor; [eapply Hg; eassumption|].
    apply IH. reflexivity.
Qed.

(** X6: in a file that reads, every corner of every face has at least three
    indices; a corner written with more than two slashes keeps one index
    per field, so it is not cut to three. *)
Theorem read_obj_corner_sizes (ign : bool) (lines : list string) (o : obj F) :
  read_obj ign lines = Ok o ->
  Forall (Forall (fun t => 3 <= length t)) (obj_f o)
  /\ (forall e t, corner e = Ok t ->
        2 < count_of "/" e -> length t = S (count_of "/" e)).
Proof.
  intros H. split.
  - unfold Obj.read_obj in H.
    destruct (fold_faces F float ign lines _ _ H) as (faces & Hm & ->).
    simpl. eapply mapM_Forall; [|exact Hm].
    intros line face Hf. unfold face_of_line in Hf.
    eapply mapM_Forall; [|exact Hf].
    intros e t Ht. rewrite (corner_length e t Ht). lia.
  - intros e t Ht Hc. rewrite (corner_length e t Ht). lia.
Qed.

(** X7: a v line with fewer than three or more than four numbers, and a
    vn line without exactly three, make read_obj raise an assertion error
    once the lines before went through; an s line without a name makes it
    raise IndexError, s being the one directive read without an
    assertion. *)
Theorem read_obj_malformed_directive (ign : bool) (l1 l2 : list string)
  (line : string) (args : list string) (st : obj F) :
  read_obj ign l1 = Ok st ->
  (tokens line = "v" :: args -> length args <> 3 -> length args <> 4 ->
   read_obj ign (l1 ++ line :: l2) = Err (AssertionError ""))
  /\ (tokens line = "vn" :: args -> length args <> 3 ->
      read_obj ign (l1 ++ line :: l2) = Err (AssertionError ""))
  /\ (tokens line = ["s"] ->
      read_obj ign (l1 ++ line :: l2) = Err IndexError).
Proof.
  intros H1. unfold Obj.read_obj in *.
  split; [|split]; intros Ht; rewrite foldM_app, H1; simpl;
    unfold Obj.step; rewrite Ht; simpl String.eqb; cbv iota.
  - intros H3 H4. unfold py_assert, len_between. simpl length.
    destruct ((4 <=? S (length args)) && (S (length args) <=? 5))%nat eqn:Hb;
      [|reflexivity].
    apply andb_prop in Hb as [Hlo Hhi]. apply Nat.leb_le in Hlo, Hhi. lia.
  - intros H3. unfold py_assert. simpl length.
    destruct (S (length args) =? 4)%nat eqn:Hb; [|reflexivity].
    apply Nat.eqb_eq in Hb. lia.
  - reflexivity.
Qed.

End ReadObjExtra.
End ObjExtra.

(** ** More on rasterization.py *)

Module RastExtra.
Import Tensor Rast CallLogic TensorFacts DepthFacts StageFacts RastExt.

Section StagesExtra.

Variable Mat : Type.
Variable eye4 : Mat.
Variable matmul : Mat -> Mat -> result Mat.
Variable transform : T3 -> Mat -> result T3.
Variable NvdCtx : Type.
Variable RastDb : Type.
Variable dr_rasterize :
  NvdCtx -> T3 -> Faces -> Z * Z -> result (Raster * RastDb).
Variable dr_interpolate :
  T3 -> Raster -> Faces -> RastDb -> option (list Z) -> result (T4 * T4).
Variable dr_antialias : T4 -> Raster -> T3 -> Faces -> result T4.
Variable extrinsics_to_view : Mat -> result Mat.
Variable intrinsics_to_perspective : Mat -> Q -> Q -> result Mat.
Variable image_mesh : Z -> Z -> result (UV * Faces).
Variable unproject_cv : UV -> T2 -> Mat -> Mat -> result T3.
Variable triangulate : Faces -> option T2 -> option bool -> result Faces.
Variable linearize_depth : T3 -> Q -> Q -> result T3.

Local Notation "'rasterize_vertex_attr'" :=
  (Rast.rasterize_vertex_attr Mat eye4 matmul transform NvdCtx RastDb
     dr_rasterize dr_interpolate dr_antialias).
Local Notation "'build_lattice'" :=
  (Rast.build_lattice Mat image_mesh unproject_cv).
Local Notation "'padded_lattice'" :=
  (Rast.padded_lattice Mat image_mesh unproject_cv).
Local Notation "'plain_lattice'" :=
  (Rast.plain_lattice Mat image_mesh unproject_cv).
Local Notation "'triangulate_lattice'" :=
  (Rast.triangulate_lattice Mat triangulate).
Local Notation "'composite'" := (Rast.composite Mat linearize_depth).
Local Notation "'warp_rasters'" :=
  (Rast.warp_rasters Mat eye4 matmul transform NvdCtx RastDb
     dr_rasterize dr_interpolate dr_antialias extrinsics_to_view
     intrinsics_to_perspective image_mesh unproject_cv triangulate).
Local Notation "'warp_image_by_depth'" :=
  (Rast.warp_image_by_depth Mat eye4 matmul transform NvdCtx RastDb
     dr_rasterize dr_interpolate dr_antialias extrinsics_to_view
     intrinsics_to_perspective image_mesh unproject_cv triangulate
     linearize_depth).

(** What a call of [rasterize_vertex_attr] that returns is made of. *)
Lemma rasterize_run ctx vertices faces attr width height model view
  perspective antialiasing diff_attrs tr img depth dr tr' :
  rasterize_vertex_attr ctx vertices faces attr width height model view
    perspective antialiasing diff_attrs tr = (Ok (img, depth, dr), tr') ->
  exists pos_clip rast_out db image1 image_dr image0,
    dr_rasterize (nvd_ctx NvdCtx ctx) pos_clip faces (height, width)
    = Ok (rast_out, db)
    /\ dr_interpolate attr rast_out faces db diff_attrs
       = Ok (image1, image_dr)
    /\ (if antialiasing
        then dr_antialias image1 rast_out pos_clip faces = Ok image0
        else image0 = image1)
    /\ img = map channels_first (flip1 image0)
    /\ depth = raster_depth rast_out
    /\ dr = match diff_attrs with
            | Some _ => Some (map channels_first (flip1 image_dr))
            | None => None
            end
    /\ tr' = tr ++ call_rasterize Mat pos_clip faces (height, width)
                :: call_interpolate Mat attr diff_attrs
                :: (if antialiasing then [call_antialias Mat image1]
                    else []).
Proof.
  intros H. unfold Rast.rasterize_vertex_attr in H.
  repeat (cbv beta zeta in H;
    match type of H with
    | bind _ _ _ _ = (Ok _, _) =>
        let a := fresh "a" in
        let t := fresh "tr" in
        let E := fresh "E" in
        apply bind_ok in H; destruct H as (a & t & E & H)
    end).
  apply lift_run in E as [E ->]. apply lift_run in E0 as [E0 ->].
  apply lift_run in E1 as [E1 ->]. apply lift_run in E2 as [E2 ->].
  apply call_run in E3 as [E3 ->]. apply call_run in E4 as [E4 ->].
  destruct a3 as [rast_out db]. destruct a4 as [image1 image_dr].
  simpl fst in *. simpl snd in *.
  exists a2, rast_out, db, image1, image_dr, a5.
  destruct antialiasing.
  - apply call_run in E5 as [E5 ->].
    destruct diff_attrs; apply ret_run in H as [H ->]; injection H as -> -> ->;
      rewrite <- ?app_assoc; simpl app; repeat split; auto.
  - apply ret_run in E5 as [E5 ->]. injection E5 as <-.
    destruct diff_attrs; apply ret_run in H as [H ->]; injection H as -> -> ->;
      rewrite <- ?app_assoc; simpl app; repeat split; auto.
Qed.

(** X8: a call of rasterize_vertex_attr that returns has called, in this
    order, dr.rasterize with the resolution [height, width], dr.interpolate
    with the caller's attributes and diff_attrs, and dr.antialias exactly
    when antialiasing is on; it returns the derivatives exactly when
    diff_attrs is given. *)
Theorem rasterize_calls ctx vertices faces attr width height model view
  perspective antialiasing diff_attrs tr img depth dr tr' :
  rasterize_vertex_attr ctx vertices faces attr width height model view
    perspective antialiasing diff_attrs tr = (Ok (img, depth, dr), tr') ->
  (exists pos_clip image1,
     tr' = tr ++ call_rasterize Mat pos_clip faces (height, width)
              :: call_interpolate Mat attr diff_attrs
              :: (if antialiasing then [call_antialias Mat image1] else []))
  /\ (dr = None <-> diff_attrs = None).
Proof.
  intros H. apply rasterize_run in H.
  destruct H as (pos_clip & rast_out & db & image1 & image_dr & image0
                 & _ & _ & _ & _ & _ & -> & ->).
  split.
  - exists pos_clip, image1. reflexivity.
  - destruct diff_attrs; split; intros; congruence.
Qed.

(** X9: vertices whose last axis has a size other than 2, 3 and 4 make
    rasterize_vertex_attr raise ValueError without a call to nvdiffrast. *)
Theorem rasterize_wrong_shape ctx vertices faces attr width height model view
  perspective antialiasing diff_attrs tr :
  dim2 vertices <> 2 -> dim2 vertices <> 3 -> dim2 vertices <> 4 ->
  rasterize_vertex_attr ctx vertices faces attr width height model view
    perspective antialiasing diff_attrs tr
  = (Err (ValueError "Wrong shape of vertices"), tr).
Proof.
  intros H2 H3 H4. unfold Rast.rasterize_vertex_attr, bind, lift, homogeneous.
  destruct (dim2 vertices) as [|[|[|[|[|n]]]]]; try reflexivity;
    contradiction.
Qed.

Lemma channels_first_at hwc c i j :
  at3 (channels_first hwc) c i j =
  if (c <? dim2 hwc)%nat
  then option_map (fun px => nth c px 0%Q) (at2 hwc i j)
  else None.
Proof.
  unfold channels_first, at3, at2. rewrite nth_error_map, nth_error_seq.
  destruct (c <? dim2 hwc)%nat; simpl; [|reflexivity].
  unfold map2, T3, T2, T1 in *. rewrite nth_error_map.
  destruct (nth_error hwc i); simpl; [|reflexivity].
  apply nth_error_map.
Qed.

(** X10: the image rasterize_vertex_attr returns is channel-first and
    top-down: its value at (b, c, i, j) is channel c of the pixel that
    nvdiffrast (dr.antialias when antialiasing is on, else dr.interpolate)
    gave at row H - 1 - i and column j of sample b, H being the number of
    rows of that sample. *)
Theorem rasterize_image_layout ctx vertices faces attr width height model
  view perspective antialiasing diff_attrs tr img depth dr tr' :
  rasterize_vertex_attr ctx vertices faces attr width height model view
    perspective antialiasing diff_attrs tr = (Ok (img, depth, dr), tr') ->
  exists pos_clip rast_out db image1 image_dr image0,
    dr_interpolate attr rast_out faces db diff_attrs = Ok (image1, image_dr)
    /\ (if antialiasing
        then dr_antialias image1 rast_out pos_clip faces = Ok image0
        else image0 = image1)
    /\ forall b c i j v,
         at4 img b c i j = Some v ->
         exists s px,
           nth_error image0 b = Some s
           /\ (i < length s)%nat
           /\ at2 s (length s - S i) j = Some px
           /\ (c < dim2 (rev s))%nat
           /\ v = nth c px 0%Q.
Proof.
  intros H. apply rasterize_run in H.
  destruct H as (pos_clip & rast_out & db & image1 & image_dr & image0
                 & _ & Hi & Ha & -> & _ & _ & _).
  exists pos_clip, rast_out, db, image1, image_dr, image0.
  split; [assumption|]. split; [assumption|].
  intros b c i j v. unfold at4, flip1. rewrite !nth_error_map.
  unfold T4, T3, T2, T1 in *.
  destruct (nth_error image0 b) as [s|]; simpl; [|discriminate].
  rewrite channels_first_at.
  destruct (c <? dim2 (rev s))%nat eqn:Hc; [|discriminate].
  unfold at2 at 1. rewrite nth_error_rev. unfold T4, T3, T2, T1 in *.
  destruct (i <? length s)%nat eqn:Hlt; [|discriminate].
  destruct (nth_error s (length s - S i)) as [row|] eqn:Hrow;
    [|intros Hv; discriminate Hv].
  destruct (nth_error row j) as [px|] eqn:Hpx;
    [|intros Hv; discriminate Hv].
  simpl. intros Hv. injection Hv as <-. exists s, px.
  apply Nat.ltb_lt in Hc, Hlt. unfold at2. rewrite Hrow.
  repeat split; assumption || reflexivity.
Qed.

Lemma has_shape_flip1 {A : Type} h w (t : list (list (list A))) :
  has_shape h w t -> has_shape h w (flip1 t).
Proof.
  unfold has_shape, flip1. intros H. apply Forall_map.
  eapply Forall_impl; [|exact H]. intros s [Hs Hr]. simpl.
  rewrite length_rev. split; [assumption|]. apply Forall_rev. assumption.
Qed.

Lemma channels_first_shaped h w (s : T3) :
  length s = h -> Forall (fun r => length r = w) s ->
  Forall (fun ch : T2 => length ch = h /\ Forall (fun r => length r = w) ch)
    (channels_first s).
Proof.
  intros Hs Hr. unfold channels_first. apply Forall_map.
  apply Forall_forall. intros c _. unfold map2.
  rewrite length_map. split; [assumption|].
  apply Forall_map. eapply Forall_impl; [|exact Hr].
  intros r Hw. simpl. rewrite length_map. assumption.
Qed.

Lemma last_in {A : Type} (l : list A) d : l <> [] -> In (last l d) l.
Proof.
  intros H. rewrite (app_removelast_last d H) at 2.
  apply in_or_app. right. left. reflexivity.
Qed.

(** X11: rasterize_vertex_attr keeps the resolution of what nvdiffrast
    returns: a raster of h rows and w columns gives a depth raster of h rows
    and w columns, and an image of h rows and w columns of pixels gives
    channels of h rows and w columns, the last channel of every sample that
    has a channel among them. *)
Theorem rasterize_shapes ctx vertices faces attr width height model view
  perspective antialiasing diff_attrs tr img depth dr tr' (h w : nat) :
  rasterize_vertex_attr ctx vertices faces attr width height model view
    perspective antialiasing diff_attrs tr = (Ok (img, depth, dr), tr') ->
  exists pos_clip rast_out db image1 image_dr image0,
    dr_rasterize (nvd_ctx NvdCtx ctx) pos_clip faces (height, width)
    = Ok (rast_out, db)
    /\ dr_interpolate attr rast_out faces db diff_attrs
       = Ok (image1, image_dr)
    /\ (if antialiasing
        then dr_antialias image1 rast_out pos_clip faces = Ok image0
        else image0 = image1)
    /\ (has_shape h w rast_out -> has_shape h w depth)
    /\ (has_shape h w image0 ->
        channels_shaped h w img
        /\ (Forall (fun chans => chans <> []) img ->
            has_shape h w (last_channel img))).
Proof.
  intros H. apply rasterize_run in H.
  destruct H as (pos_clip & rast_out & db & image1 & image_dr & image0
                 & Hr & Hi & Ha & -> & -> & _ & _).
  exists pos_clip, rast_out, db, image1, image_dr, image0.
  split; [assumption|]. split; [assumption|]. split; [assumption|].
  split.
  - intros Hs. unfold raster_depth.
    apply has_shape_map3, has_shape_flip1, has_shape_map3. assumption.
  - intros Hs.
    assert (Hc : channels_shaped h w (map channels_first (flip1 image0))).
    { unfold channels_shaped. apply Forall_map.
      apply has_shape_flip1 in Hs. eapply Forall_impl; [|exact Hs].
      intros s [Hl Hrows]. simpl. apply channels_first_shaped; assumption. }
    split; [assumption|]. intros Hne. unfold has_shape, last_channel.
    apply Forall_map. unfold channels_shaped in Hc.
    rewrite Forall_forall in Hc, Hne. apply Forall_forall.
    intros chans Hin. specialize (Hc chans Hin). specialize (Hne chans Hin).
    rewrite Forall_forall in Hc. simpl. apply Hc. apply last_in. assumption.
Qed.

Lemma remap_below_one z :
  ltb (depth_remap z) 1 = true <-> ~ (z == 0)%Q /\ (z < 1)%Q.
Proof.
  rewrite ltb_lt. destruct (Qlt_le_dec 0 z) as [Hpos|Hle].
  - rewrite (depth_remap_positive z Hpos). split.
    + intros H. split; [|lra]. intros Hz. rewrite Hz in Hpos. lra.
    + intros [_ H]. lra.
  - apply Qle_lteq in Hle. destruct Hle as [Hneg|Hz].
    + rewrite (depth_remap_negative z Hneg). split.
      * intros _. split; [|lra]. intros Hz. rewrite Hz in Hneg. lra.
      * intros _. reflexivity.
    + rewrite (depth_remap_zero z Hz). split.
      * intros H. lra.
      * intros [Hnz _]. contradiction.
Qed.

(** X12: without a source mask, a pixel that a warp that returns marks
    valid has a raw clip z from nvdiffrast (rows counted from the other
    end) that is not 0 and is below 1, so a miss and a pixel at or beyond
    the far plane are never valid; and a pixel behind the eye, of negative
    raw z, is marked valid.  Both hold as well where the remap rounds:
    nothing is said of a positive raw z just below 1. *)
Theorem warp_unmasked_validity ctx depth image width height es et ks kt near
  far antialiasing backslash padding return_dr tr0 out tr :
  warp_image_by_depth ctx depth image None width height es et ks kt near far
    antialiasing backslash padding return_dr tr0 = (Ok out, tr) ->
  forall b i j m,
    at3 (output_mask out) b i j = Some m ->
    exists pos_clip faces rast_out db s px,
      dr_rasterize (nvd_ctx NvdCtx ctx) pos_clip faces
        (target_height depth height, target_width depth width)
      = Ok (rast_out, db)
      /\ nth_error rast_out b = Some s
      /\ at3 rast_out b (length s - S i) j = Some px
      /\ (m = true -> ~ (px_zw px == 0)%Q /\ (px_zw px < 1)%Q)
      /\ ((px_zw px < 0)%Q -> m = true).
Proof.
  intros H b i j m Hm. apply warp_ok in H.
  destruct H as ([[rimg sd] rd] & tr1 & Hr & Hc).
  apply composite_ok in Hc. destruct Hc as (Hmask & _ & _).
  simpl in Hmask. rewrite Hmask, at3_map3 in Hm.
  apply warp_rasters_ok in Hr.
  destruct Hr as (cams & view & persp & lat & faces & attrs & tr2 & tr3
                  & _ & _ & _ & _ & _ & _ & Hr).
  apply rasterize_run in Hr.
  destruct Hr as (pos_clip & rast_out & db & image1 & image_dr & image0
                  & Hr & _ & _ & _ & -> & _ & _).
  destruct (at3 (raster_depth rast_out) b i j) as [d|] eqn:Hd;
    [|discriminate].
  simpl in Hm. injection Hm as <-. apply raster_depth_at in Hd.
  destruct Hd as (s & px & Hs & _ & Hpx & ->).
  exists pos_clip, faces, rast_out, db, s, px.
  split; [assumption|]. split; [assumption|]. split; [assumption|].
  split; [apply remap_below_one|].
  intros Hneg. apply remap_below_one. split; [|lra].
  intros Hz. rewrite Hz in Hneg. lra.
Qed.

(** The one call of the composite, and the derivatives it hands on. *)
Lemma composite_run mg ig rdr width height near far rimg sd rd tr out tr' :
  composite mg ig rdr width height near far (rimg, sd, rd) tr
  = (Ok out, tr') ->
  tr' = tr ++ [call_linearize_depth Mat sd near far]
  /\ output_dr out = rd
  /\ (rdr = true <-> rd <> None).
Proof.
  intros H. unfold Rast.composite in H. invert_run H.
  injection H as ->. simpl. split; [reflexivity|].
  simpl in E. destruct rdr, rd; try discriminate; injection E as <-;
    split; try reflexivity; split; intros; congruence.
Qed.

(** X13: a warp that returns gives the derivatives exactly when return_dr
    is on, and they are then what dr.interpolate gave as derivatives, made
    channel-first and top-down like the image. *)
Theorem warp_returns_derivatives ctx depth image mask width height es et ks
  kt near far antialiasing backslash padding return_dr tr0 out tr :
  warp_image_by_depth ctx depth image mask width height es et ks kt near far
    antialiasing backslash padding return_dr tr0 = (Ok out, tr) ->
  (return_dr = false -> output_dr out = None)
  /\ (return_dr = true ->
      exists attr rast_out faces db diff image1 image_dr,
        dr_interpolate attr rast_out faces db (Some diff)
        = Ok (image1, image_dr)
        /\ output_dr out = Some (map channels_first (flip1 image_dr))).
Proof.
  intros H. apply warp_ok in H.
  destruct H as ([[rimg sd] rd] & tr1 & Hr & Hc).
  apply composite_run in Hc. destruct Hc as (_ & Hdr & Hiff).
  apply warp_rasters_ok in Hr.
  destruct Hr as (cams & view & persp & lat & faces & attrs & tr2 & tr3
                  & _ & _ & _ & _ & _ & _ & Hr).
  apply rasterize_run in Hr.
  destruct Hr as (pos_clip & rast_out & db & image1 & image_dr & image0
                  & _ & Hi & _ & _ & _ & Hrd & _).
  split.
  - intros ->. rewrite Hdr. destruct rd; [|reflexivity].
    assert (false = true) by (apply Hiff; discriminate). discriminate.
  - intros ->. rewrite Hdr.
    destruct (snd attrs) as [diff|] eqn:Hd.
    + exists (fst attrs), rast_out, faces, db, diff, image1, image_dr.
      split; [assumption|]. assumption.
    + subst rd. exfalso. apply (proj1 Hiff); reflexivity.
Qed.

(** X14: an image whose height and width are not those of the depth map
    makes warp_image_by_depth raise an assertion error before any call. *)
Theorem warp_image_shape_mismatch ctx (depth : T3) (img : T4) mask width
  height es et ks kt near far antialiasing backslash padding return_dr tr0 :
  (dim2 img, dim3 img) <> (dim1 depth, dim2 depth) ->
  warp_image_by_depth ctx depth (Some img) mask width height es et ks kt
    near far antialiasing backslash padding return_dr tr0
  = (Err (AssertionError "Shape of image does not match shape of depth"),
     tr0).
Proof.
  intros Hne.
  unfold Rast.warp_image_by_depth, Rast.warp_rasters, bind, lift, py_assert.
  match goal with
  | |- context [if ?t then Ok tt else _] => destruct t eqn:Hb
  end; [|reflexivity].
  apply andb_prop in Hb as [H1 H2]. apply Nat.eqb_eq in H1, H2.
  exfalso. apply Hne. unfold T4, T3, T2, T1 in *. rewrite H1, H2.
  reflexivity.
Qed.

Lemma build_lattice_run depth image mask width height es ks far padding tr
  lat tr' :
  build_lattice depth image mask width height es ks far padding tr
  = (Ok lat, tr') ->
  exists e1 e2, tr' = tr ++ [e1; e2]
                /\ kind_of e1 = k_image_mesh /\ kind_of e2 = k_unproject_cv.
Proof.
  unfold Rast.build_lattice. destruct (0 <? padding)%Z; intros H.
  - apply padded_lattice_ok in H. destruct H as (_ & uv_ & _ & ->).
    eexists. eexists. split; [reflexivity|]. split; reflexivity.
  - apply plain_lattice_ok in H.
    destruct H as (mesh & _ & _ & _ & _ & _ & _ & ->).
    eexists. eexists. split; [reflexivity|]. split; reflexivity.
Qed.

(** X15: a warp that returns has made its calls in the order of the
    pipeline, each once: extrinsics_to_view, intrinsics_to_perspective,
    image_mesh, unproject_cv, triangulate, dr.rasterize, dr.interpolate,
    dr.antialias when antialiasing is on, linearize_depth. *)
Theorem warp_call_order ctx depth image mask width height es et ks kt near
  far antialiasing backslash padding return_dr tr0 out tr :
  warp_image_by_depth ctx depth image mask width height es et ks kt near far
    antialiasing backslash padding return_dr tr0 = (Ok out, tr) ->
  exists new, tr = tr0 ++ new
              /\ map kind_of new = warp_protocol antialiasing.
Proof.
  intros H. apply warp_ok in H.
  destruct H as ([[rimg sd] rd] & tr1 & Hr & Hc).
  apply composite_run in Hc. destruct Hc as (-> & _ & _).
  apply warp_rasters_ok in Hr.
  destruct Hr as (cams & view & persp & lat & faces & attrs & tr2 & tr3
                  & _ & _ & _ & Hl & Ht & _ & Hr).
  apply rasterize_run in Hr.
  destruct Hr as (pos_clip & rast_out & db & image1 & image_dr & image0
                  & _ & _ & _ & _ & _ & _ & ->).
  apply triangulate_lattice_run in Ht.
  destruct Ht as [(_ & _ & Hf & _)|(v & bk & -> & _ & _)]; [discriminate|].
  apply build_lattice_run in Hl. destruct Hl as (e1 & e2 & -> & K1 & K2).
  eexists. rewrite <- !app_assoc. split; [reflexivity|].
  simpl. rewrite K1, K2. unfold warp_protocol.
  destruct antialiasing; reflexivity.
Qed.

(** X16: without padding and with a mask, the lattice keeps every pixel of
    the depth map: the depth that is unprojected is the depth map where the
    mask accepts and the far plane where it rejects, and the points of the
    lattice are the unprojection of that depth on the mesh of image_mesh. *)
Theorem build_lattice_masked_far depth image m width height es ks far
  padding tr lat tr' :
  (padding <= 0)%Z ->
  build_lattice depth image (Some m) width height es ks far padding tr
  = (Ok lat, tr') ->
  (forall b i j,
     at3 (lat_depth lat) b i j =
     match at3 m b i j, at3 depth b i j with
     | Some valid, Some d => Some (if valid then d else far)
     | _, _ => None
     end)
  /\ unproject_cv (lat_uv lat) (map (@concat Q) (lat_depth lat)) es ks
     = Ok (lat_pts lat).
Proof.
  intros Hp H. unfold Rast.build_lattice in H.
  destruct (0 <? padding)%Z eqn:Hb; [apply Z.ltb_lt in Hb; lia|].
  apply plain_lattice_ok in H.
  destruct H as (mesh & _ & Hw & Hu & Huv & _ & _ & _). split.
  - intros b i j. unfold where_far in Hw.
    destruct (zip3_at3 _ _ _ _ Hw b i j)
      as [(-> & _ & ->)|(x & y & -> & -> & ->)]; reflexivity.
  - rewrite Huv. assumption.
Qed.

Lemma pad_replicate1_spec {A : Type} (row row' : list A) :
  pad_replicate1 row = Ok row' ->
  length row' = length row + 2
  /\ nth_error row' 0 = nth_error row 0
  /\ forall j v, nth_error row j = Some v -> nth_error row' (S j) = Some v.
Proof.
  unfold pad_replicate1. destruct row as [|x row]; [discriminate|].
  intros H. injection H as <-. split; [|split].
  - simpl. rewrite length_app. simpl. lia.
  - reflexivity.
  - intros j v Hj. change (nth_error ((x :: row) ++ [last (x :: row) x]) j
                           = Some v).
    rewrite nth_error_app1; [assumption|].
    apply nth_error_Some. congruence.
Qed.

Lemma pad_replicate2_spec {A : Type} (t t' : list (list A)) :
  pad_replicate2 t = Ok t' ->
  length t' = length t + 2
  /\ dim1 t' = dim1 t + 2
  /\ (forall i j v, at2 t i j = Some v -> at2 t' (S i) (S j) = Some v)
  /\ (forall j v, at2 t 0 j = Some v -> at2 t' 0 (S j) = Some v)
  /\ (forall i v, at2 t i 0 = Some v -> at2 t' (S i) 0 = Some v).
Proof.
  unfold pad_replicate2.
  destruct (mapM pad_replicate1 t) as [rows|] eqn:Hm; [|discriminate].
  intros H. pose proof (mapM_ok_length _ _ _ Hm) as Hlen.
  destruct (pad_replicate1_spec _ _ H) as (Hl & H0 & Hin).
  assert (Hrow : forall i r, nth_error t i = Some r ->
            exists r', nth_error t' (S i) = Some r'
                       /\ pad_replicate1 r = Ok r').
  { intros i r Hr.
    destruct (mapM_nth _ _ _ Hm i) as [(Hn & _)|(x & y & Hx & Hy & Hp)];
      [congruence|].
    rewrite Hr in Hx. injection Hx as <-. exists y.
    split; [apply Hin; assumption|assumption]. }
  assert (Hfirst : forall r, nth_error t 0 = Some r ->
            exists r', nth_error t' 0 = Some r' /\ pad_replicate1 r = Ok r').
  { intros r Hr.
    destruct (mapM_nth _ _ _ Hm 0) as [(Hn & _)|(x & y & Hx & Hy & Hp)];
      [congruence|].
    rewrite Hr in Hx. injection Hx as <-. exists y.
    split; [rewrite H0; assumption|assumption]. }
  split; [lia|]. split; [|split; [|split]].
  - destruct t as [|r t]; [simpl in Hm; injection Hm as <-; discriminate|].
    destruct (Hfirst r eq_refl) as (r' & Hr' & Hp).
    destruct t' as [|r0 t']; [discriminate|]. simpl in Hr'.
    injection Hr' as ->. simpl.
    apply (proj1 (pad_replicate1_spec _ _ Hp)).
  - intros i j v. unfold at2.
    destruct (nth_error t i) as [r|] eqn:Hr; [|discriminate].
    destruct (Hrow i r Hr) as (r' & -> & Hp).
    apply (pad_replicate1_spec _ _ Hp).
  - intros j v. unfold at2.
    destruct (nth_error t 0) as [r|] eqn:Hr; [|discriminate].
    destruct (Hfirst r eq_refl) as (r' & -> & Hp).
    apply (pad_replicate1_spec _ _ Hp).
  - intros i v. unfold at2.
    destruct (nth_error t i) as [r|] eqn:Hr; [|discriminate].
    destruct (Hrow i r Hr) as (r' & -> & Hp).
    destruct (pad_replicate1_spec _ _ Hp) as (_ & -> & _). auto.
Qed.


Lemma zipM_lengths {A B C : Type} (g : A -> B -> result C) xs ys zs :
  zipM g xs ys = Ok zs -> length xs = length ys /\ length zs = length xs.
Proof.
  revert ys zs. induction xs as [|x xs IH]; intros [|y ys] zs H; simpl in H;
    try discriminate.
  - injection H as <-. split; reflexivity.
  - destruct (g x y); [|discriminate].
    destruct (zipM g xs ys) as [zs'|] eqn:Hz; [|discriminate].
    injection H as <-. destruct (IH _ _ Hz) as [H1 H2]. simpl.
    split; congruence.
Qed.

(** The first rows of two tensors that concatenate on the last axis. *)
Lemma cat_last_head a b c :
  cat_last a b = Ok c ->
  (a = [] /\ b = [] /\ c = [])
  \/ exists a0 a' b0 b' c0 c',
       a = a0 :: a' /\ b = b0 :: b' /\ c = c0 :: c'
       /\ length a0 = length b0 /\ length c0 = length a0.
Proof.
  unfold cat_last, zip2. destruct a as [|a0 a'], b as [|b0 b']; simpl;
    try discriminate.
  - intros H. injection H as <-. left. repeat split; reflexivity.
  - destruct (zip1 (@app Q) a0 b0) as [c0|] eqn:Hz; [|discriminate].
    destruct (zipM (zip1 (@app Q)) a' b') as [c'|]; [|discriminate].
    intros H. injection H as <-. right.
    exists a0, a', b0, b', c0, c'.
    destruct (zipM_lengths _ _ _ _ Hz) as [H1 H2].
    repeat split; assumption.
Qed.

Lemma pixels_of_length h w chw : length (pixels_of h w chw) = h * w.
Proof.
  unfold pixels_of. generalize 0 at 2. induction h as [|h IH]; intros k;
    simpl; [reflexivity|].
  rewrite length_app, length_map, length_seq, IH. reflexivity.
Qed.

Lemma reshape_grid_length {A : Type} (h w : nat) (l : list A) g :
  reshape_grid (Z.of_nat h + 2) (Z.of_nat w + 2) l = Ok g ->
  length l = (h + 2) * (w + 2).
Proof.
  unfold reshape_grid.
  destruct (Z.of_nat h + 2 =? -1)%Z eqn:H1; [apply Z.eqb_eq in H1; lia|].
  destruct (Z.of_nat w + 2 =? -1)%Z eqn:H2; [apply Z.eqb_eq in H2; lia|].
  destruct (_ && _ && _)%bool eqn:Hc; [|discriminate].
  apply andb_prop in Hc as [_ Hn]. apply Z.eqb_eq in Hn. intros _. nia.
Qed.

(** What a lattice built with padding is made of. *)
Lemma padded_lattice_parts depth image width height es ks padding tr lat
  tr' :
  padded_lattice depth image width height es ks padding tr = (Ok lat, tr') ->
  (exists grid, reshape_grid (height + 2) (width + 2) (lat_uv lat) = Ok grid)
  /\ mapM pad_replicate2 depth = Ok (lat_depth lat)
  /\ match image with
     | Some img =>
         exists img', mapM (mapM pad_replicate2) img = Ok img'
                      /\ lat_image lat = Some img'
     | None => lat_image lat = None
     end.
Proof.
  intros H. unfold Rast.padded_lattice in H. invert_run H.
  injection H as ->. simpl. split; [eexists; eassumption|].
  split; [assumption|].
  unfold T4, T3, T2, T1 in *.
  destruct image as [img|].
  - destruct (mapM (mapM pad_replicate2) img) as [img'|] eqn:Hm;
      [|discriminate E6].
    injection E6 as <-. exists img'. split; reflexivity || assumption.
  - injection E6 as <-. reflexivity.
Qed.

(** X18: with padding, a non-empty batch and a mask of the shape of the
    depth map, warp_image_by_depth at its default target size never
    returns: the mask channel has one value per pixel of the depth map and
    cannot be joined to the attributes of the padded lattice. *)
Theorem warp_padding_with_mask_fails ctx depth image m es et ks kt near far
  antialiasing backslash padding return_dr tr0 :
  (0 < padding)%Z -> depth <> [] -> m <> [] ->
  has_shape (dim1 depth) (dim2 depth) m ->
  is_ok (fst (warp_image_by_depth ctx depth image (Some m) None None es et
                ks kt near far antialiasing backslash padding return_dr
                tr0)) = false.
Proof.
  intros Hp Hd Hm Hshape.
  destruct (warp_image_by_depth _ _ _ _ _ _ _ _ _ _ _ _ _ _ _ _ _)
    as [[out|e] tr] eqn:H; [|reflexivity].
  exfalso. apply warp_ok in H. destruct H as (rast & tr1 & Hr & _).
  apply warp_rasters_ok in Hr.
  destruct Hr as (cams & view & persp & lat & faces & attrs & tr2 & tr3
                  & _ & _ & _ & Hl & _ & Ha & _).
  unfold Rast.build_lattice in Hl. apply Z.ltb_lt in Hp. rewrite Hp in Hl.
  apply padded_lattice_parts in Hl. destruct Hl as ((grid & Hg) & Hpad & Hi).
  simpl target_width in Hg. simpl target_height in Hg.
  apply reshape_grid_length in Hg.
  (* the sizes of the padded depth *)
  destruct depth as [|d0 ds]; [contradiction|].
  simpl in Hpad. destruct (pad_replicate2 d0) as [d0'|] eqn:Hp0;
    [|discriminate].
  destruct (mapM pad_replicate2 ds) as [ds'|]; [|discriminate].
  injection Hpad as Hpad.
  destruct (pad_replicate2_spec _ _ Hp0) as (Hh & Hw & _).
  (* the first row of the mask channel *)
  destruct m as [|m0 ms]; [contradiction|].
  inversion Hshape as [|? ? [Hm0 Hrows] _]; subst.
  pose proof (length_concat_uniform _ _ Hrows) as Hmlen.
  simpl dim1 in *. simpl dim2 in *.
  (* the first row of the attributes *)
  assert (Hfirst : forall attr0 c,
            cat_last attr0 (mask_attr (m0 :: ms)) = Ok c ->
            forall a0 a', attr0 = a0 :: a' ->
            length a0 = length m0 * dim1 d0).
  { intros attr0 c Hc a0 a' ->.
    destruct (cat_last_head _ _ _ Hc)
      as [(Hn & _)|(x & x' & b0 & b' & c0 & c' & Hx & Hb & _ & Hlen & _)];
      [discriminate|].
    injection Hx as <- <-. simpl in Hb. injection Hb as <- _.
    rewrite Hlen, length_map. rewrite Hm0 in Hmlen. rewrite Hmlen, Hm0.
    reflexivity. }
  assert (Hne : forall attr0 c,
            cat_last attr0 (mask_attr (m0 :: ms)) = Ok c -> attr0 <> []).
  { intros attr0 c Hc ->.
    destruct (cat_last_head _ _ _ Hc)
      as [(_ & Hn & _)|(x & x' & b0 & b' & c0 & c' & Hx & _)];
      discriminate. }
  unfold build_attrs in Ha. rewrite <- Hpad in Ha.
  simpl dim1 in Ha. simpl dim2 in Ha. simpl length in Ha.
  destruct image as [img|].
  - destruct Hi as (img' & _ & Hi). rewrite Hi in Ha.
    assert (Hpix : forall a0 a',
              map (pixels_of (length d0') (dim1 d0')) img' = a0 :: a' ->
              length a0 = length d0' * dim1 d0').
    { intros a0 a' Hmap. destruct img' as [|i0 is']; [discriminate|].
      injection Hmap as <- _. apply pixels_of_length. }
    destruct return_dr.
    + destruct (cat_last _ (expand_uv _ _)) as [attr'|] eqn:Hc1;
        [|discriminate].
      destruct (cat_last attr' _) as [c|] eqn:Hc2; [|discriminate].
      destruct attr' as [|a0 a']; [exact (Hne _ _ Hc2 eq_refl)|].
      pose proof (Hfirst _ _ Hc2 a0 a' eq_refl) as Hlen.
      destruct (cat_last_head _ _ _ Hc1)
        as [(_ & _ & Hn)|(x & x' & b0 & b' & c0 & c' & Hx & _ & Hc0 & _ & Hl0)];
        [discriminate|].
      injection Hc0 as <- <-.
      rewrite (Hpix _ _ Hx) in Hl0. unfold T4, T3, T2, T1 in *. nia.
    + destruct (cat_last _ _) as [c|] eqn:Hc2; [|discriminate].
      destruct img' as [|i0 is'];
        [exact (Hne _ _ Hc2 eq_refl)|].
      pose proof (Hfirst _ _ Hc2 _ _ eq_refl) as Hlen.
      rewrite pixels_of_length in Hlen. unfold T4, T3, T2, T1 in *. nia.
  - rewrite Hi in Ha.
    destruct (cat_last _ _) as [c|] eqn:Hc2; [|discriminate].
    pose proof (Hfirst _ _ Hc2 _ _ eq_refl) as Hlen.
    rewrite length_map in Hlen. unfold T4, T3, T2, T1, UV in *. nia.
Qed.

End StagesExtra.
End RastExtra.

(** ** The further properties on the examples *)

Module ExtraExamples.
Import Tensor Rast StageFacts RastExt RastExtra Obj ObjExt ObjExtra.
Import RastExamples.

Lemma sample_read :
  read_obj Z ObjDemo.int_float false
    ["v 0 0 1"; "f 1/2/3 2//1 1"; "v 1 0 0"; "f 2/1"]
  = Ok ObjDemo.sample_obj.
Proof. vm_compute. reflexivity. Qed.

Lemma read_obj_comment_skipped_witness :
  read_obj Z ObjDemo.int_float false
    (["v 0 0 1"] ++ "#f 1 2 3" :: ["v 1 0 0"])
  = read_obj Z ObjDemo.int_float false (["v 0 0 1"] ++ ["v 1 0 0"]).
Proof.
  exact (read_obj_comment_skipped Z ObjDemo.int_float false ["v 0 0 1"]
           ["v 1 0 0"] "#f 1 2 3" "f" ["1"; "2"; "3"] eq_refl).
Defined.

Lemma read_obj_flag_monotone_witness :
  read_obj Z ObjDemo.int_float true
    ["v 0 0 1"; "f 1/2/3 2//1 1"; "v 1 0 0"; "f 2/1"]
  = Ok ObjDemo.sample_obj.
Proof.
  exact (read_obj_flag_monotone Z ObjDemo.int_float
           ["v 0 0 1"; "f 1/2/3 2//1 1"; "v 1 0 0"; "f 2/1"]
           ObjDemo.sample_obj sample_read).
Defined.

Lemma grouped_read :
  read_obj Z ObjDemo.int_float false GroupDemo.grouped_lines
  = Ok GroupDemo.grouped_obj.
Proof. vm_compute. reflexivity. Qed.

Lemma read_obj_group_counts_witness :
  nth_error (obj_usemtl GroupDemo.grouped_obj) 1
  = Some {| name := "b"; f_count := 2 |}.
Proof.
  exact (proj1 (read_obj_group_counts Z ObjDemo.int_float false
                  ["f 1 2 3"; "usemtl a"; "o left"; "f 1 2 3"]
                  ["s 1"; "f 3 2 1"] "usemtl b" GroupDemo.grouped_obj
                  grouped_read) eq_refl).
Defined.

Lemma read_obj_rows_well_sized_witness :
  rows_well_sized Z ObjDemo.sample_obj.
Proof.
  exact (read_obj_rows_well_sized Z ObjDemo.int_float false
           ["v 0 0 1"; "f 1/2/3 2//1 1"; "v 1 0 0"; "f 2/1"]
           ObjDemo.sample_obj sample_read).
Defined.

Lemma read_obj_corner_sizes_witness :
  Forall (Forall (fun t : list Z => 3 <= length t))
    (obj_f ObjDemo.sample_obj)
  /\ length [1; 2; 3; 4]%Z = 4.
Proof.
  destruct (read_obj_corner_sizes Z ObjDemo.int_float false
              ["v 0 0 1"; "f 1/2/3 2//1 1"; "v 1 0 0"; "f 2/1"]
              ObjDemo.sample_obj sample_read) as [Hf Hc].
  split; [exact Hf|].
  apply (Hc "1/2/3/4" [1; 2; 3; 4]%Z); [reflexivity|].
  vm_compute. lia.
Defined.

Lemma prefix_read :
  read_obj Z ObjDemo.int_float true ["v 0 0 1"]
  = Ok {| obj_mtllib := []; obj_v := [[0; 0; 1]]%Z; obj_vt := [];
          obj_vn := []; obj_vp := []; obj_f := []; obj_o := [];
          obj_s := []; obj_usemtl := [] |}.
Proof. vm_compute. reflexivity. Qed.

Lemma read_obj_malformed_directive_witness :
  read_obj Z ObjDemo.int_float true (["v 0 0 1"] ++ "v 1 2" :: ["v 1 0 0"])
  = Err (AssertionError "")
  /\ read_obj Z ObjDemo.int_float true (["v 0 0 1"] ++ "s" :: ["v 1 0 0"])
     = Err IndexError.
Proof.
  split.
  - apply (proj1 (read_obj_malformed_directive Z ObjDemo.int_float true
                    ["v 0 0 1"] ["v 1 0 0"] "v 1 2" ["1"; "2"] _ prefix_read));
      [reflexivity | discriminate | discriminate].
  - apply (proj2 (proj2 (read_obj_malformed_directive Z ObjDemo.int_float
                           true ["v 0 0 1"] ["v 1 0 0"] "s" [] _ prefix_read))).
    reflexivity.
Defined.

Lemma grid_rasterize :
  fst (Demo.rasterize [[[0; 0; 5]; [0; 0; 0]; [0; 0; -8]; [0; 0; 12]]]%Q
         [[[1]; [2]; [3]; [4]]]%Q 2 2)
  = Ok ([[[[1; 2]; [3; 4]]]]%Q,
        [[[26 # 32; 32 # 32]; [0 # 32; 40 # 32]]]%Q, None).
Proof. vm_compute. reflexivity. Qed.

Lemma rasterize_calls_witness :
  exists pos_clip,
    snd (Demo.rasterize [[[0; 0; 5]; [0; 0; 0]; [0; 0; -8]; [0; 0; 12]]]%Q
           [[[1]; [2]; [3]; [4]]]%Q 2 2)
    = [call_rasterize unit pos_clip [] (2%Z, 2%Z);
       call_interpolate unit [[[1]; [2]; [3]; [4]]]%Q None].
Proof.
  destruct (rasterize_calls unit tt (fun _ _ => Ok tt) (fun v _ => Ok v)
              unit unit Demo.dr_rasterize Demo.dr_interpolate
              Demo.dr_antialias Demo.ctx
              [[[0; 0; 5]; [0; 0; 0]; [0; 0; -8]; [0; 0; 12]]]%Q []
              [[[1]; [2]; [3]; [4]]]%Q 2%Z 2%Z None None None false None []
              _ _ _ _ (run_of_fst _ _ grid_rasterize))
    as [(pos_clip & image1 & Htr) _].
  exists pos_clip. exact Htr.
Defined.

Lemma rasterize_wrong_shape_witness :
  Demo.rasterize [[[1]]]%Q [[[1]]]%Q 1 1
  = (Err (ValueError "Wrong shape of vertices"), []).
Proof.
  apply (rasterize_wrong_shape unit tt (fun _ _ => Ok tt) (fun v _ => Ok v)
           unit unit Demo.dr_rasterize Demo.dr_interpolate
           Demo.dr_antialias Demo.ctx [[[1]]]%Q [] [[[1]]]%Q 1%Z 1%Z None
           None None false None []); discriminate.
Defined.

Lemma rasterize_image_layout_witness :
  exists (image0 : T4) s px,
    nth_error image0 0 = Some s
    /\ at2 s (length s - 1) 1 = Some px
    /\ 2%Q = nth 0 px 0%Q.
Proof.
  destruct (rasterize_image_layout unit tt (fun _ _ => Ok tt)
              (fun v _ => Ok v) unit unit Demo.dr_rasterize
              Demo.dr_interpolate Demo.dr_antialias Demo.ctx
              [[[0; 0; 5]; [0; 0; 0]; [0; 0; -8]; [0; 0; 12]]]%Q []
              [[[1]; [2]; [3]; [4]]]%Q 2%Z 2%Z None None None false None []
              _ _ _ _ (run_of_fst _ _ grid_rasterize))
    as (pos_clip & rast_out & db & image1 & image_dr & image0 & _ & _
        & Hall).
  destruct (Hall 0 0 0 1 2%Q eq_refl) as (s & px & Hs & _ & Hpx & _ & Hv).
  exists image0, s, px. split; [exact Hs|]. split; [exact Hpx|exact Hv].
Defined.

Lemma rasterize_shapes_witness :
  exists (rast_out : Raster) (image0 : T4),
    (has_shape 2 2 rast_out ->
     has_shape 2 2 [[[26 # 32; 32 # 32]; [0 # 32; 40 # 32]]]%Q)
    /\ (has_shape 2 2 image0 ->
        channels_shaped 2 2 [[[[1; 2]; [3; 4]]]]%Q).
Proof.
  destruct (rasterize_shapes unit tt (fun _ _ => Ok tt)
              (fun v _ => Ok v) unit unit Demo.dr_rasterize
              Demo.dr_interpolate Demo.dr_antialias Demo.ctx
              [[[0; 0; 5]; [0; 0; 0]; [0; 0; -8]; [0; 0; 12]]]%Q []
              [[[1]; [2]; [3]; [4]]]%Q 2%Z 2%Z None None None false None []
              _ _ _ _ 2 2 (run_of_fst _ _ grid_rasterize))
    as (pos_clip & rast_out & db & image1 & image_dr & image0 & _ & _ & _
        & Hd & Hi).
  exists rast_out, image0. split; [exact Hd|].
  intros Hs. exact (proj1 (Hi Hs)).
Defined.

(** A pixel in front of the eye and a pixel behind it, no mask. *)
Lemma behind_warp :
  fst (Demo.warp [[[5; -8]]]%Q None None (Some tt) None (1 # 10) 100 false
         0 false)
  = Ok {| output_image := [[[[1 # 4; 3 # 4]]; [[1 # 2; 1 # 2]]]]%Q;
          output_depth := [[[32000 # 60260; 32000 # 320000]]]%Q;
          output_mask := [[[true; true]]];
          output_dr := None |}.
Proof. vm_compute. reflexivity. Qed.

Lemma warp_unmasked_validity_witness :
  exists px : RastPixel, ~ (px_zw px == 0)%Q /\ (px_zw px < 1)%Q.
Proof.
  destruct (warp_unmasked_validity unit tt (fun _ _ => Ok tt)
              (fun v _ => Ok v) unit unit Demo.dr_rasterize
              Demo.dr_interpolate Demo.dr_antialias (fun e => Ok e)
              (fun k _ _ => Ok k) Demo.image_mesh Demo.unproject_cv
              Demo.triangulate Demo.linearize_depth Demo.ctx
              [[[5; -8]]]%Q None None None None None (Some tt) None
              (1 # 10)%Q 100%Q false false 0%Z false [] _ _
              (run_of_fst _ _ behind_warp) 0 0 1 true eq_refl)
    as (pos_clip & faces & rast_out & db & s & px & _ & _ & _ & Hval & _).
  exists px. exact (Hval eq_refl).
Defined.

Lemma warp_returns_derivatives_witness :
  output_dr Demo.sample_out = None.
Proof.
  exact (proj1 (warp_returns_derivatives unit tt (fun _ _ => Ok tt)
              (fun v _ => Ok v) unit unit Demo.dr_rasterize
              Demo.dr_interpolate Demo.dr_antialias (fun e => Ok e)
              (fun k _ _ => Ok k) Demo.image_mesh Demo.unproject_cv
              Demo.triangulate Demo.linearize_depth Demo.ctx
                  Demo.sample_depth None (Some Demo.sample_mask) None None
                  None None (Some tt) None (1 # 10)%Q 100%Q false false 0%Z
                  false [] Demo.sample_out _
                  (run_of_fst _ _ sample_warp)) eq_refl).
Defined.

Lemma warp_image_shape_mismatch_witness :
  Demo.warp [[[5; 0]]]%Q (Some [[[[1]]]]%Q) None (Some tt) None (1 # 10) 100
    false 0 false
  = (Err (AssertionError "Shape of image does not match shape of depth"),
     []).
Proof.
  apply (warp_image_shape_mismatch unit tt (fun _ _ => Ok tt)
              (fun v _ => Ok v) unit unit Demo.dr_rasterize
              Demo.dr_interpolate Demo.dr_antialias (fun e => Ok e)
              (fun k _ _ => Ok k) Demo.image_mesh Demo.unproject_cv
              Demo.triangulate Demo.linearize_depth Demo.ctx
           [[[5; 0]]]%Q [[[[1]]]]%Q None None None None None (Some tt) None
           (1 # 10)%Q 100%Q false false 0%Z false []).
  discriminate.
Defined.

Lemma warp_call_order_witness :
  exists new,
    snd (Demo.warp Demo.sample_depth None (Some Demo.sample_mask) (Some tt)
           None (1 # 10) 100 false 0 false) = new
    /\ map kind_of new
       = [k_extrinsics_to_view; k_intrinsics_to_perspective; k_image_mesh;
          k_unproject_cv; k_triangulate; k_rasterize; k_interpolate;
          k_linearize_depth].
Proof.
  exact (warp_call_order unit tt (fun _ _ => Ok tt)
              (fun v _ => Ok v) unit unit Demo.dr_rasterize
              Demo.dr_interpolate Demo.dr_antialias (fun e => Ok e)
              (fun k _ _ => Ok k) Demo.image_mesh Demo.unproject_cv
              Demo.triangulate Demo.linearize_depth Demo.ctx
           Demo.sample_depth None (Some Demo.sample_mask) None None
           None None (Some tt) None (1 # 10)%Q 100%Q false false 0%Z
           false [] Demo.sample_out _ (run_of_fst _ _ sample_warp)).
Defined.

Lemma masked_lattice :
  fst (build_lattice unit Demo.image_mesh Demo.unproject_cv [[[5; 7]]]%Q
         None (Some [[[true; false]]]) 2 1 tt tt 100 0 [])
  = Ok {| lat_uv := [(1 # 4, 1 # 2); (3 # 4, 1 # 2)]%Q;
          lat_faces := [];
          lat_depth := [[[5; 100]]]%Q;
          lat_image := None;
          lat_pts := [[[5 # 4; 5 # 2; 5]; [300 # 4; 100 # 2; 100]]]%Q |}.
Proof. vm_compute. reflexivity. Qed.

Lemma build_lattice_masked_far_witness :
  (0 <= 0)%Z
  /\ at3 [[[5; 100]]]%Q 0 0 1 = Some 100%Q
  /\ Demo.unproject_cv [(1 # 4, 1 # 2); (3 # 4, 1 # 2)]%Q [[5; 100]]%Q tt tt
     = Ok [[[5 # 4; 5 # 2; 5]; [300 # 4; 100 # 2; 100]]]%Q.
Proof.
  assert (Hp : (0 <= 0)%Z) by lia.
  destruct (build_lattice_masked_far unit Demo.image_mesh Demo.unproject_cv
              [[[5; 7]]]%Q None [[[true; false]]] 2%Z 1%Z tt tt 100%Q 0%Z []
              _ _ Hp (run_of_fst _ _ masked_lattice)) as [Hd Hu].
  split; [exact Hp|]. split; [exact (Hd 0 0 1)|exact Hu].
Defined.



Lemma warp_padding_with_mask_fails_witness :
  is_ok (fst (Demo.warp [[[5; 7]]]%Q None (Some [[[true; false]]]) (Some tt)
                None (1 # 10) 100 false 1 false)) = false.
Proof.
  apply (warp_padding_with_mask_fails unit tt (fun _ _ => Ok tt)
              (fun v _ => Ok v) unit unit Demo.dr_rasterize
              Demo.dr_interpolate Demo.dr_antialias (fun e => Ok e)
              (fun k _ _ => Ok k) Demo.image_mesh Demo.unproject_cv
              Demo.triangulate Demo.linearize_depth Demo.ctx
           [[[5; 7]]]%Q None [[[true; false]]] None None (Some tt) None
           (1 # 10)%Q 100%Q false false 1%Z false []).
  - lia.
  - discriminate.
  - discriminate.
  - repeat constructor.
Defined.

End ExtraExamples.
